(** * Governance state emulation (core/test/state.go): a heap-level embedding

    The Go code manipulates a [*State] whose fields are scalars, maps,
    slices and pointers to DKG records.  Maps, slice backing arrays and
    pointed-to records are shared mutable objects in Go, so the embedding
    keeps them in an explicit store: every function of state.go becomes a
    computation over that store.  Go run-time panics (failed type
    assertions, nil dereferences, index out of range) are the [None]
    outcome of a computation; Go [error] results are ordinary values. *)

From Stdlib Require Import ZArith Lia Strings.Byte String.
From stdpp Require Import gmap list.

#[global] Instance byte_eq_decision : EqDecision byte := byte_eq_dec.

Abbreviation bytes := (list byte) (only parsing).
Abbreviation loc := positive (only parsing).

(** ** Machine integers *)

(** uint32(x), uint64(x) and the signed 64-bit reinterpretation used by
    [int(x)] and [time.Duration(x)] (Go's [int] is 64 bits wide on the
    platforms the simulation runs on). *)
Definition to_uint32 (z : Z) : Z := (z mod 2 ^ 32)%Z.
Definition to_uint64 (z : Z) : Z := (z mod 2 ^ 64)%Z.
Definition to_int64 (z : Z) : Z := ((z + 2 ^ 63) mod 2 ^ 64 - 2 ^ 63)%Z.

(** ** float32

    A float32 is represented by its IEEE-754 bit pattern, so
    [math.Float32bits] and [math.Float32frombits] are the identity on the
    representation; Go's [==] on float32 is [float32_eq]. *)
Definition Float32bits (f : Z) : Z := f.
Definition Float32frombits (b : Z) : Z := b.

Definition float32_exponent (f : Z) : Z := Z.land (Z.shiftr f 23) 255.
Definition float32_mantissa (f : Z) : Z := Z.land f (2 ^ 23 - 1).
Definition float32_is_nan (f : Z) : bool :=
  ((float32_exponent f =? 255) && negb (float32_mantissa f =? 0))%Z.
Definition float32_is_zero (f : Z) : bool :=
  ((float32_exponent f =? 0) && (float32_mantissa f =? 0))%Z.
Definition float32_eq (f g : Z) : bool :=
  if float32_is_nan f || float32_is_nan g then false
  else if float32_is_zero f && float32_is_zero g then true
  else (f =? g)%Z.

(** ** Errors *)

Inductive error :=
| ErrDuplicatedChange
| ErrForkedCRS
| ErrMissingPreviousCRS
| ErrUnknownStateChangeType
| ErrProposerIsFinal
| ErrStateConfigNotEqual
| ErrStateLocalFlagNotEqual
| ErrStateNodeSetNotEqual
| ErrStateDKGComplaintsNotEqual
| ErrStateDKGMasterPublicKeysNotEqual
| ErrStateDKGFinalsNotEqual
| ErrStateCRSsNotEqual
| ErrStatePendingChangesNotEqual
| ErrKiddingMe        (* errors.New("you are definitely kidding me") *)
| ErrDecode           (* an error returned by rlp.DecodeBytes / EncodeToBytes *)
| ErrKeyParse.        (* an error returned by ecdsa.NewPublicKeyFromByteSlice *)

#[global] Instance error_eq_decision : EqDecision error.
Proof. solve_decision. Defined.

(** ** StateChangeType (uint8) and its constants *)

Abbreviation StateChangeNothing := 0%Z (only parsing).
Abbreviation StateAddCRS := 1%Z (only parsing).
Abbreviation StateAddDKGComplaint := 2%Z (only parsing).
Abbreviation StateAddDKGMasterPublicKey := 3%Z (only parsing).
Abbreviation StateAddDKGFinal := 4%Z (only parsing).
Abbreviation StateChangeNumChains := 5%Z (only parsing).
Abbreviation StateChangeLambdaBA := 6%Z (only parsing).
Abbreviation StateChangeLambdaDKG := 7%Z (only parsing).
Abbreviation StateChangeRoundInterval := 8%Z (only parsing).
Abbreviation StateChangeMinBlockInterval := 9%Z (only parsing).
Abbreviation StateChangeMaxBlockInterval := 10%Z (only parsing).
Abbreviation StateChangeK := 11%Z (only parsing).
Abbreviation StateChangePhiRatio := 12%Z (only parsing).
Abbreviation StateChangeNotarySetSize := 13%Z (only parsing).
Abbreviation StateChangeDKGSetSize := 14%Z (only parsing).
Abbreviation StateAddNode := 15%Z (only parsing).

(** ** Records *)

(** crypto.PublicKey is an interface whose only method is [Bytes()]. *)
Record PublicKey := { Bytes : bytes }.

#[global] Instance PublicKey_eq_decision : EqDecision PublicKey.
Proof. solve_decision. Defined.

Module crsAdditionRequest.
Record t := { Round : Z; CRS : Z }.
#[global] Instance eq_decision : EqDecision t.
Proof. solve_decision. Defined.
End crsAdditionRequest.

(** The three DKG record types (typesDKG.Complaint, MasterPublicKey and
    Finalize) are declared outside this file.  state.go reads their
    [Round] and [ProposerID] fields only; the remaining fields are kept as
    one opaque [Body]. *)
Inductive dkgKind := Complaint | MasterPublicKey | Finalize.

#[global] Instance dkgKind_eq_decision : EqDecision dkgKind.
Proof. solve_decision. Defined.

Module typesDKG.
Record t := { ProposerID : Z; Round : Z; Body : bytes }.
#[global] Instance eq_decision : EqDecision t.
Proof. solve_decision. Defined.
(** The zero value, as in [&typesDKG.Complaint{}]. *)
Definition zero : t := {| ProposerID := 0; Round := 0; Body := [] |}.
(** Modelled from the spec: the [Equal] methods of the DKG records are
    declared in core/types/dkg; the spec gives them as structural
    equality. *)
Definition Equal (a b : t) : bool := bool_decide (a = b).
End typesDKG.

(** A slice header: the backing array (None for a nil slice) and the
    length.  state.go never reslices, so the offset is always 0 and the
    capacity is that of the backing array. *)
Record slice := { sl_arr : option loc; sl_len : nat }.

#[global] Instance slice_eq_decision : EqDecision slice.
Proof. solve_decision. Defined.

Definition nil_slice : slice := {| sl_arr := None; sl_len := 0 |}.

(** Dynamic values carried in [interface{}] payloads.  [C] is what stands
    for a [*crsAdditionRequest] and [D] for a pointer to a DKG record: a
    location in the store ([Payload]) or the pointed-to record itself
    ([RPayload], what the encoder sees). *)
Inductive payload (C D : Type) :=
| PPublicKey (key : PublicKey)       (* crypto.PublicKey *)
| PDuration (d : Z)                  (* time.Duration *)
| PInt (i : Z)                       (* int *)
| PFloat32 (f : Z)                   (* float32 *)
| PUint32 (v : Z)
| PUint64 (v : Z)
| PBytes (b : bytes)                 (* []byte *)
| PCRS (p : C)                       (* *crsAdditionRequest *)
| PDKG (k : dkgKind) (p : D).        (* *typesDKG.Complaint, ... *)

Arguments PPublicKey {C D} key.
Arguments PDuration {C D} d.
Arguments PInt {C D} i.
Arguments PFloat32 {C D} f.
Arguments PUint32 {C D} v.
Arguments PUint64 {C D} v.
Arguments PBytes {C D} b.
Arguments PCRS {C D} p.
Arguments PDKG {C D} k p.

Abbreviation Payload := (payload loc loc) (only parsing).
Abbreviation RPayload := (payload crsAdditionRequest.t typesDKG.t) (only parsing).

#[global] Instance payload_eq_decision `{EqDecision C, EqDecision D} :
  EqDecision (payload C D).
Proof. solve_decision. Defined.

Module StateChangeRequest.
Record t := { Typ : Z; Payload : payload loc loc }.
End StateChangeRequest.

Module rawStateChangeRequest.
Record t := { Typ : Z; Payload : bytes }.
End rawStateChangeRequest.

Module State.
Record t := {
  (* Configuration related. *)
  numChains : Z;
  lambdaBA : Z;
  lambdaDKG : Z;
  k : Z;
  phiRatio : Z;
  notarySetSize : Z;
  dkgSetSize : Z;
  roundInterval : Z;
  minBlockInterval : Z;
  maxBlockInterval : Z;
  (* Nodes *)
  nodes : loc;
  (* DKG & CRS *)
  dkgComplaints : loc;
  dkgMasterPublicKeys : loc;
  dkgFinals : loc;
  crs : slice;
  (* Other stuffs *)
  local : bool;
  pendingChangedConfigs : loc;
  pendingNodes : slice;
  pendingDKGComplaints : slice;
  pendingDKGFinals : slice;
  pendingDKGMasterPublicKeys : slice;
  pendingCRS : slice
}.
#[global] Instance eq_decision : EqDecision t.
Proof. solve_decision. Defined.
(** Field assignments [s.f = v]. *)
Definition set_numChains (v : Z) (s : t) : t :=
  {| numChains := v; lambdaBA := lambdaBA s; lambdaDKG := lambdaDKG s; k :=
     k s; phiRatio := phiRatio s; notarySetSize := notarySetSize s;
     dkgSetSize := dkgSetSize s; roundInterval := roundInterval s;
     minBlockInterval := minBlockInterval s; maxBlockInterval :=
     maxBlockInterval s; nodes := nodes s; dkgComplaints := dkgComplaints s;
     dkgMasterPublicKeys := dkgMasterPublicKeys s; dkgFinals := dkgFinals s;
     crs := crs s; local := local s; pendingChangedConfigs :=
     pendingChangedConfigs s; pendingNodes := pendingNodes s;
     pendingDKGComplaints := pendingDKGComplaints s; pendingDKGFinals :=
     pendingDKGFinals s; pendingDKGMasterPublicKeys :=
     pendingDKGMasterPublicKeys s; pendingCRS := pendingCRS s |}.
Definition set_lambdaBA (v : Z) (s : t) : t :=
  {| numChains := numChains s; lambdaBA := v; lambdaDKG := lambdaDKG s; k :=
     k s; phiRatio := phiRatio s; notarySetSize := notarySetSize s;
     dkgSetSize := dkgSetSize s; roundInterval := roundInterval s;
     minBlockInterval := minBlockInterval s; maxBlockInterval :=
     maxBlockInterval s; nodes := nodes s; dkgComplaints := dkgComplaints s;
     dkgMasterPublicKeys := dkgMasterPublicKeys s; dkgFinals := dkgFinals s;
     crs := crs s; local := local s; pendingChangedConfigs :=
     pendingChangedConfigs s; pendingNodes := pendingNodes s;
     pendingDKGComplaints := pendingDKGComplaints s; pendingDKGFinals :=
     pendingDKGFinals s; pendingDKGMasterPublicKeys :=
     pendingDKGMasterPublicKeys s; pendingCRS := pendingCRS s |}.
Definition set_lambdaDKG (v : Z) (s : t) : t :=
  {| numChains := numChains s; lambdaBA := lambdaBA s; lambdaDKG := v; k :=
     k s; phiRatio := phiRatio s; notarySetSize := notarySetSize s;
     dkgSetSize := dkgSetSize s; roundInterval := roundInterval s;
     minBlockInterval := minBlockInterval s; maxBlockInterval :=
     maxBlockInterval s; nodes := nodes s; dkgComplaints := dkgComplaints s;
     dkgMasterPublicKeys := dkgMasterPublicKeys s; dkgFinals := dkgFinals s;
     crs := crs s; local := local s; pendingChangedConfigs :=
     pendingChangedConfigs s; pendingNodes := pendingNodes s;
     pendingDKGComplaints := pendingDKGComplaints s; pendingDKGFinals :=
     pendingDKGFinals s; pendingDKGMasterPublicKeys :=
     pendingDKGMasterPublicKeys s; pendingCRS := pendingCRS s |}.
Definition set_k (v : Z) (s : t) : t :=
  {| numChains := numChains s; lambdaBA := lambdaBA s; lambdaDKG :=
     lambdaDKG s; k := v; phiRatio := phiRatio s; notarySetSize :=
     notarySetSize s; dkgSetSize := dkgSetSize s; roundInterval :=
     roundInterval s; minBlockInterval := minBlockInterval s;
     maxBlockInterval := maxBlockInterval s; nodes := nodes s; dkgComplaints
     := dkgComplaints s; dkgMasterPublicKeys := dkgMasterPublicKeys s;
     dkgFinals := dkgFinals s; crs := crs s; local := local s;
     pendingChangedConfigs := pendingChangedConfigs s; pendingNodes :=
     pendingNodes s; pendingDKGComplaints := pendingDKGComplaints s;
     pendingDKGFinals := pendingDKGFinals s; pendingDKGMasterPublicKeys :=
     pendingDKGMasterPublicKeys s; pendingCRS := pendingCRS s |}.
Definition set_phiRatio (v : Z) (s : t) : t :=
  {| numChains := numChains s; lambdaBA := lambdaBA s; lambdaDKG :=
     lambdaDKG s; k := k s; phiRatio := v; notarySetSize := notarySetSize s;
     dkgSetSize := dkgSetSize s; roundInterval := roundInterval s;
     minBlockInterval := minBlockInterval s; maxBlockInterval :=
     maxBlockInterval s; nodes := nodes s; dkgComplaints := dkgComplaints s;
     dkgMasterPublicKeys := dkgMasterPublicKeys s; dkgFinals := dkgFinals s;
     crs := crs s; local := local s; pendingChangedConfigs :=
     pendingChangedConfigs s; pendingNodes := pendingNodes s;
     pendingDKGComplaints := pendingDKGComplaints s; pendingDKGFinals :=
     pendingDKGFinals s; pendingDKGMasterPublicKeys :=
     pendingDKGMasterPublicKeys s; pendingCRS := pendingCRS s |}.
Definition set_notarySetSize (v : Z) (s : t) : t :=
  {| numChains := numChains s; lambdaBA := lambdaBA s; lambdaDKG :=
     lambdaDKG s; k := k s; phiRatio := phiRatio s; notarySetSize := v;
     dkgSetSize := dkgSetSize s; roundInterval := roundInterval s;
     minBlockInterval := minBlockInterval s; maxBlockInterval :=
     maxBlockInterval s; nodes := nodes s; dkgComplaints := dkgComplaints s;
     dkgMasterPublicKeys := dkgMasterPublicKeys s; dkgFinals := dkgFinals s;
     crs := crs s; local := local s; pendingChangedConfigs :=
     pendingChangedConfigs s; pendingNodes := pendingNodes s;
     pendingDKGComplaints := pendingDKGComplaints s; pendingDKGFinals :=
     pendingDKGFinals s; pendingDKGMasterPublicKeys :=
     pendingDKGMasterPublicKeys s; pendingCRS := pendingCRS s |}.
Definition set_dkgSetSize (v : Z) (s : t) : t :=
  {| numChains := numChains s; lambdaBA := lambdaBA s; lambdaDKG :=
     lambdaDKG s; k := k s; phiRatio := phiRatio s; notarySetSize :=
     notarySetSize s; dkgSetSize := v; roundInterval := roundInterval s;
     minBlockInterval := minBlockInterval s; maxBlockInterval :=
     maxBlockInterval s; nodes := nodes s; dkgComplaints := dkgComplaints s;
     dkgMasterPublicKeys := dkgMasterPublicKeys s; dkgFinals := dkgFinals s;
     crs := crs s; local := local s; pendingChangedConfigs :=
     pendingChangedConfigs s; pendingNodes := pendingNodes s;
     pendingDKGComplaints := pendingDKGComplaints s; pendingDKGFinals :=
     pendingDKGFinals s; pendingDKGMasterPublicKeys :=
     pendingDKGMasterPublicKeys s; pendingCRS := pendingCRS s |}.
Definition set_roundInterval (v : Z) (s : t) : t :=
  {| numChains := numChains s; lambdaBA := lambdaBA s; lambdaDKG :=
     lambdaDKG s; k := k s; phiRatio := phiRatio s; notarySetSize :=
     notarySetSize s; dkgSetSize := dkgSetSize s; roundInterval := v;
     minBlockInterval := minBlockInterval s; maxBlockInterval :=
     maxBlockInterval s; nodes := nodes s; dkgComplaints := dkgComplaints s;
     dkgMasterPublicKeys := dkgMasterPublicKeys s; dkgFinals := dkgFinals s;
     crs := crs s; local := local s; pendingChangedConfigs :=
     pendingChangedConfigs s; pendingNodes := pendingNodes s;
     pendingDKGComplaints := pendingDKGComplaints s; pendingDKGFinals :=
     pendingDKGFinals s; pendingDKGMasterPublicKeys :=
     pendingDKGMasterPublicKeys s; pendingCRS := pendingCRS s |}.
Definition set_minBlockInterval (v : Z) (s : t) : t :=
  {| numChains := numChains s; lambdaBA := lambdaBA s; lambdaDKG :=
     lambdaDKG s; k := k s; phiRatio := phiRatio s; notarySetSize :=
     notarySetSize s; dkgSetSize := dkgSetSize s; roundInterval :=
     roundInterval s; minBlockInterval := v; maxBlockInterval :=
     maxBlockInterval s; nodes := nodes s; dkgComplaints := dkgComplaints s;
     dkgMasterPublicKeys := dkgMasterPublicKeys s; dkgFinals := dkgFinals s;
     crs := crs s; local := local s; pendingChangedConfigs :=
     pendingChangedConfigs s; pendingNodes := pendingNodes s;
     pendingDKGComplaints := pendingDKGComplaints s; pendingDKGFinals :=
     pendingDKGFinals s; pendingDKGMasterPublicKeys :=
     pendingDKGMasterPublicKeys s; pendingCRS := pendingCRS s |}.
Definition set_maxBlockInterval (v : Z) (s : t) : t :=
  {| numChains := numChains s; lambdaBA := lambdaBA s; lambdaDKG :=
     lambdaDKG s; k := k s; phiRatio := phiRatio s; notarySetSize :=
     notarySetSize s; dkgSetSize := dkgSetSize s; roundInterval :=
     roundInterval s; minBlockInterval := minBlockInterval s;
     maxBlockInterval := v; nodes := nodes s; dkgComplaints := dkgComplaints
     s; dkgMasterPublicKeys := dkgMasterPublicKeys s; dkgFinals := dkgFinals
     s; crs := crs s; local := local s; pendingChangedConfigs :=
     pendingChangedConfigs s; pendingNodes := pendingNodes s;
     pendingDKGComplaints := pendingDKGComplaints s; pendingDKGFinals :=
     pendingDKGFinals s; pendingDKGMasterPublicKeys :=
     pendingDKGMasterPublicKeys s; pendingCRS := pendingCRS s |}.
Definition set_crs (v : slice) (s : t) : t :=
  {| numChains := numChains s; lambdaBA := lambdaBA s; lambdaDKG :=
     lambdaDKG s; k := k s; phiRatio := phiRatio s; notarySetSize :=
     notarySetSize s; dkgSetSize := dkgSetSize s; roundInterval :=
     roundInterval s; minBlockInterval := minBlockInterval s;
     maxBlockInterval := maxBlockInterval s; nodes := nodes s; dkgComplaints
     := dkgComplaints s; dkgMasterPublicKeys := dkgMasterPublicKeys s;
     dkgFinals := dkgFinals s; crs := v; local := local s;
     pendingChangedConfigs := pendingChangedConfigs s; pendingNodes :=
     pendingNodes s; pendingDKGComplaints := pendingDKGComplaints s;
     pendingDKGFinals := pendingDKGFinals s; pendingDKGMasterPublicKeys :=
     pendingDKGMasterPublicKeys s; pendingCRS := pendingCRS s |}.
Definition set_pendingChangedConfigs (v : loc) (s : t) : t :=
  {| numChains := numChains s; lambdaBA := lambdaBA s; lambdaDKG :=
     lambdaDKG s; k := k s; phiRatio := phiRatio s; notarySetSize :=
     notarySetSize s; dkgSetSize := dkgSetSize s; roundInterval :=
     roundInterval s; minBlockInterval := minBlockInterval s;
     maxBlockInterval := maxBlockInterval s; nodes := nodes s; dkgComplaints
     := dkgComplaints s; dkgMasterPublicKeys := dkgMasterPublicKeys s;
     dkgFinals := dkgFinals s; crs := crs s; local := local s;
     pendingChangedConfigs := v; pendingNodes := pendingNodes s;
     pendingDKGComplaints := pendingDKGComplaints s; pendingDKGFinals :=
     pendingDKGFinals s; pendingDKGMasterPublicKeys :=
     pendingDKGMasterPublicKeys s; pendingCRS := pendingCRS s |}.
Definition set_pendingNodes (v : slice) (s : t) : t :=
  {| numChains := numChains s; lambdaBA := lambdaBA s; lambdaDKG :=
     lambdaDKG s; k := k s; phiRatio := phiRatio s; notarySetSize :=
     notarySetSize s; dkgSetSize := dkgSetSize s; roundInterval :=
     roundInterval s; minBlockInterval := minBlockInterval s;
     maxBlockInterval := maxBlockInterval s; nodes := nodes s; dkgComplaints
     := dkgComplaints s; dkgMasterPublicKeys := dkgMasterPublicKeys s;
     dkgFinals := dkgFinals s; crs := crs s; local := local s;
     pendingChangedConfigs := pendingChangedConfigs s; pendingNodes := v;
     pendingDKGComplaints := pendingDKGComplaints s; pendingDKGFinals :=
     pendingDKGFinals s; pendingDKGMasterPublicKeys :=
     pendingDKGMasterPublicKeys s; pendingCRS := pendingCRS s |}.
Definition set_pendingDKGComplaints (v : slice) (s : t) : t :=
  {| numChains := numChains s; lambdaBA := lambdaBA s; lambdaDKG :=
     lambdaDKG s; k := k s; phiRatio := phiRatio s; notarySetSize :=
     notarySetSize s; dkgSetSize := dkgSetSize s; roundInterval :=
     roundInterval s; minBlockInterval := minBlockInterval s;
     maxBlockInterval := maxBlockInterval s; nodes := nodes s; dkgComplaints
     := dkgComplaints s; dkgMasterPublicKeys := dkgMasterPublicKeys s;
     dkgFinals := dkgFinals s; crs := crs s; local := local s;
     pendingChangedConfigs := pendingChangedConfigs s; pendingNodes :=
     pendingNodes s; pendingDKGComplaints := v; pendingDKGFinals :=
     pendingDKGFinals s; pendingDKGMasterPublicKeys :=
     pendingDKGMasterPublicKeys s; pendingCRS := pendingCRS s |}.
Definition set_pendingDKGFinals (v : slice) (s : t) : t :=
  {| numChains := numChains s; lambdaBA := lambdaBA s; lambdaDKG :=
     lambdaDKG s; k := k s; phiRatio := phiRatio s; notarySetSize :=
     notarySetSize s; dkgSetSize := dkgSetSize s; roundInterval :=
     roundInterval s; minBlockInterval := minBlockInterval s;
     maxBlockInterval := maxBlockInterval s; nodes := nodes s; dkgComplaints
     := dkgComplaints s; dkgMasterPublicKeys := dkgMasterPublicKeys s;
     dkgFinals := dkgFinals s; crs := crs s; local := local s;
     pendingChangedConfigs := pendingChangedConfigs s; pendingNodes :=
     pendingNodes s; pendingDKGComplaints := pendingDKGComplaints s;
     pendingDKGFinals := v; pendingDKGMasterPublicKeys :=
     pendingDKGMasterPublicKeys s; pendingCRS := pendingCRS s |}.
Definition set_pendingDKGMasterPublicKeys (v : slice) (s : t) : t :=
  {| numChains := numChains s; lambdaBA := lambdaBA s; lambdaDKG :=
     lambdaDKG s; k := k s; phiRatio := phiRatio s; notarySetSize :=
     notarySetSize s; dkgSetSize := dkgSetSize s; roundInterval :=
     roundInterval s; minBlockInterval := minBlockInterval s;
     maxBlockInterval := maxBlockInterval s; nodes := nodes s; dkgComplaints
     := dkgComplaints s; dkgMasterPublicKeys := dkgMasterPublicKeys s;
     dkgFinals := dkgFinals s; crs := crs s; local := local s;
     pendingChangedConfigs := pendingChangedConfigs s; pendingNodes :=
     pendingNodes s; pendingDKGComplaints := pendingDKGComplaints s;
     pendingDKGFinals := pendingDKGFinals s; pendingDKGMasterPublicKeys :=
     v; pendingCRS := pendingCRS s |}.
Definition set_pendingCRS (v : slice) (s : t) : t :=
  {| numChains := numChains s; lambdaBA := lambdaBA s; lambdaDKG :=
     lambdaDKG s; k := k s; phiRatio := phiRatio s; notarySetSize :=
     notarySetSize s; dkgSetSize := dkgSetSize s; roundInterval :=
     roundInterval s; minBlockInterval := minBlockInterval s;
     maxBlockInterval := maxBlockInterval s; nodes := nodes s; dkgComplaints
     := dkgComplaints s; dkgMasterPublicKeys := dkgMasterPublicKeys s;
     dkgFinals := dkgFinals s; crs := crs s; local := local s;
     pendingChangedConfigs := pendingChangedConfigs s; pendingNodes :=
     pendingNodes s; pendingDKGComplaints := pendingDKGComplaints s;
     pendingDKGFinals := pendingDKGFinals s; pendingDKGMasterPublicKeys :=
     pendingDKGMasterPublicKeys s; pendingCRS := v |}.
End State.

(** ** The store *)

(** Objects of the store: the [State] struct itself, the pointed-to
    records, the Go maps and the backing arrays of slices.  A backing
    array records its capacity and the elements written so far. *)
Inductive obj :=
| OState (s : State.t)
| OCRSReq (r : crsAdditionRequest.t)
| ODKG (k : dkgKind) (d : typesDKG.t)
| ONodes (m : gmap Z PublicKey)        (* map[types.NodeID]crypto.PublicKey *)
| OConfigs (m : gmap Z (payload loc loc)) (* map[StateChangeType]interface{} *)
| ORounds (m : gmap Z loc)             (* map[uint64]map[types.NodeID]... *)
| OComplaintsOf (m : gmap Z slice)     (* map[types.NodeID][]*Complaint *)
| ORecordOf (m : gmap Z loc)           (* map[types.NodeID]*MasterPublicKey, *Finalize *)
| OArrHash (cap : nat) (a : list Z)    (* backing array of []common.Hash *)
| OArrPtr (cap : nat) (a : list loc)   (* backing array of []*T *)
| OArrBytes (cap : nat) (a : list bytes). (* backing array of [][]byte *)

#[global] Instance obj_eq_decision : EqDecision obj.
Proof. solve_decision. Defined.

Abbreviation heap := (gmap loc obj) (only parsing).

(** Computations over the store; [None] is a Go panic. *)
Definition M (A : Type) : Type := heap → option (A * heap).

#[global] Instance M_ret : MRet M := λ A a h, Some (a, h).
#[global] Instance M_bind : MBind M := λ A B f m h,
  match m h with
  | Some (a, h') => f a h'
  | None => None
  end.

Definition panic {A} : M A := λ _, None.

(** Run a read-only computation. *)
Definition read {A} (r : heap → option A) : M A :=
  λ h, match r h with Some a => Some (a, h) | None => None end.

Definition alloc (o : obj) : M loc :=
  λ h, let l := fresh (dom h) in Some (l, <[l := o]> h).

Definition store (l : loc) (o : obj) : M unit :=
  λ h, match h !! l with
       | Some _ => Some (tt, <[l := o]> h)
       | None => None
       end.

(** Typed reads. *)
Definition getState (l : loc) (h : heap) : option State.t :=
  match h !! l with Some (OState s) => Some s | _ => None end.
Definition getCRSReq (l : loc) (h : heap) : option crsAdditionRequest.t :=
  match h !! l with Some (OCRSReq r) => Some r | _ => None end.
Definition getDKG (k : dkgKind) (l : loc) (h : heap) : option typesDKG.t :=
  match h !! l with
  | Some (ODKG k' d) => if decide (k = k') then Some d else None
  | _ => None
  end.
Definition getNodes (l : loc) (h : heap) : option (gmap Z PublicKey) :=
  match h !! l with Some (ONodes m) => Some m | _ => None end.
Definition getConfigs (l : loc) (h : heap) : option (gmap Z (payload loc loc)) :=
  match h !! l with Some (OConfigs m) => Some m | _ => None end.
Definition getRounds (l : loc) (h : heap) : option (gmap Z loc) :=
  match h !! l with Some (ORounds m) => Some m | _ => None end.
Definition getComplaintsOf (l : loc) (h : heap) : option (gmap Z slice) :=
  match h !! l with Some (OComplaintsOf m) => Some m | _ => None end.
Definition getRecordOf (l : loc) (h : heap) : option (gmap Z loc) :=
  match h !! l with Some (ORecordOf m) => Some m | _ => None end.

(** ** Slices *)

(** The three element types of the slices of state.go. *)
Definition is_array (o : obj) : bool :=
  match o with
  | OArrHash _ _ | OArrPtr _ _ | OArrBytes _ _ => true
  | _ => false
  end.

Class ArrayOf (T : Type) := {
  mkArr : nat → list T → obj;
  unArr : obj → option (nat * list T);
  unArr_mkArr : ∀ c a, unArr (mkArr c a) = Some (c, a);
  unArr_inv : ∀ o c a, unArr o = Some (c, a) → o = mkArr c a;
  mkArr_array : ∀ c a, is_array (mkArr c a) = true
}.

#[global, refine] Instance ArrayOf_Hash : ArrayOf Z := {|
  mkArr := OArrHash;
  unArr o := match o with OArrHash c a => Some (c, a) | _ => None end |}.
Proof. all: by (done || intros [] ?? [= -> ->]). Defined.

#[global, refine] Instance ArrayOf_Ptr : ArrayOf loc := {|
  mkArr := OArrPtr;
  unArr o := match o with OArrPtr c a => Some (c, a) | _ => None end |}.
Proof. all: by (done || intros [] ?? [= -> ->]). Defined.

#[global, refine] Instance ArrayOf_Bytes : ArrayOf bytes := {|
  mkArr := OArrBytes;
  unArr o := match o with OArrBytes c a => Some (c, a) | _ => None end |}.
Proof. all: by (done || intros [] ?? [= -> ->]). Defined.

(** The elements of a slice, [s[0], ..., s[len(s)-1]]. *)
Definition slice_elems `{ArrayOf T} (s : slice) (h : heap) : option (list T) :=
  match sl_arr s with
  | None => if decide (sl_len s = 0) then Some [] else None
  | Some a =>
      o ← h !! a;
      '(c, w) ← unArr o;
      if decide (sl_len s ≤ length w) then Some (take (sl_len s) w) else None
  end.

(** [s[i]]; out of range is a panic. *)
Definition slice_index `{ArrayOf T} (s : slice) (i : nat) (h : heap) : option T :=
  l ← slice_elems s h; l !! i.

(** ** External collaborators

    What state.go consumes from other packages (crypto, ecdsa, types,
    rlp) and from the Go runtime, taken as an interface.  Decoders return
    [None] where the Go function returns an error. *)
Class Externals := {
  (** crypto.Keccak256Hash *)
  Keccak256Hash : bytes → Z;
  (** types.NewNodeID *)
  NewNodeID : PublicKey → Z;
  (** ecdsa.NewPublicKeyFromByteSlice *)
  NewPublicKeyFromByteSlice : bytes → option PublicKey;
  (** typesDKG.NewMasterPublicKey() *)
  NewMasterPublicKey : typesDKG.t;
  (** rlp.EncodeToBytes on a []*StateChangeRequest; the encoder follows
      the pointers of the payloads. *)
  rlpEncodeRequests :
    list (Z * payload crsAdditionRequest.t typesDKG.t) → option bytes;
  (** rlp.DecodeBytes into a []*rawStateChangeRequest *)
  rlpDecodeRequests : bytes → option (list rawStateChangeRequest.t);
  (** rlp.EncodeToBytes on a DKG record, and rlp.DecodeBytes into a DKG
      record holding the given initial contents. *)
  rlpEncodeDKG : dkgKind → typesDKG.t → option bytes;
  rlpDecodeDKG : dkgKind → typesDKG.t → bytes → option typesDKG.t;
  (** rlp.DecodeBytes into a &crsAdditionRequest{}, a uint32, a uint64 and
      a []byte *)
  rlpDecodeCRS : bytes → option crsAdditionRequest.t;
  rlpDecodeUint32 : bytes → option Z;
  rlpDecodeUint64 : bytes → option Z;
  rlpDecodeBytes : bytes → option bytes;
  (** The capacity the runtime proposes when a full backing array of the
      given capacity has to grow. *)
  growslice : nat → nat;
  (** The order in which a [range] over the pending configuration map
      visits its entries. *)
  rangeConfigs : gmap Z (payload loc loc) → list (Z * payload loc loc)
}.

(** Control structure: [for _, x := range l { ... }] without and with an
    early [return err], and with a local accumulator. *)
Fixpoint for_each {A} (l : list A) (f : A → M unit) : M unit :=
  match l with
  | [] => mret tt
  | x :: l' => _ ← f x; for_each l' f
  end.

Fixpoint for_err {A} (l : list A) (f : A → M (option error))
    : M (option error) :=
  match l with
  | [] => mret None
  | x :: l' =>
      e ← f x;
      match e with
      | Some _ => mret e
      | None => for_err l' f
      end
  end.

Fixpoint for_acc {A B} (l : list A) (b : B) (f : B → A → M B) : M B :=
  match l with
  | [] => mret b
  | x :: l' => b' ← f b x; for_acc l' b' f
  end.

(** A read-only loop that stops at the first [false]. *)
Fixpoint all_ok {A} (l : list A) (f : A → option bool) : option bool :=
  match l with
  | [] => Some true
  | x :: l' => b ← f x; if b : bool then all_ok l' f else Some false
  end.

Section state.
Context `{!Externals}.

(** ** append *)

Definition newcap (c : nat) : nat := S c `max` growslice c.

(** [append(s, x)]: write in place while the backing array has room,
    otherwise move to a larger fresh array. *)
Definition append `{ArrayOf T} (s : slice) (x : T) : M slice :=
  match sl_arr s with
  | None =>
      a ← alloc (mkArr (newcap 0) [x]);
      mret {| sl_arr := Some a; sl_len := 1 |}
  | Some a =>
      '(c, w) ← read (λ h, h !! a ≫= unArr);
      if decide (length w < sl_len s) then panic
      else if decide (sl_len s < c) then
        _ ← store a (mkArr c (take (sl_len s) w ++ x :: drop (S (sl_len s)) w));
        mret {| sl_arr := Some a; sl_len := S (sl_len s) |}
      else
        a' ← alloc (mkArr (newcap c) (take (sl_len s) w ++ [x]));
        mret {| sl_arr := Some a'; sl_len := S (sl_len s) |}
  end.

(** [m[k] = v] on the Go maps. *)
Definition nodes_set (m : loc) (id : Z) (key : PublicKey) : M unit :=
  nodes ← read (getNodes m); store m (ONodes (<[id := key]> nodes)).
Definition rounds_set (m : loc) (round : Z) (inner : loc) : M unit :=
  rounds ← read (getRounds m); store m (ORounds (<[round := inner]> rounds)).
Definition complaintsOf_set (m : loc) (id : Z) (s : slice) : M unit :=
  inner ← read (getComplaintsOf m); store m (OComplaintsOf (<[id := s]> inner)).
Definition recordOf_set (m : loc) (id : Z) (p : loc) : M unit :=
  inner ← read (getRecordOf m); store m (ORecordOf (<[id := p]> inner)).
Definition configs_set (m : loc) (t : Z) (v : payload loc loc) : M unit :=
  cfg ← read (getConfigs m); store m (OConfigs (<[t := v]> cfg)).

(** [s.f = v] through the pointer [s]. *)
Definition update (s : loc) (f : State.t → State.t) : M unit :=
  st ← read (getState s); store s (OState (f st)).

(** [s.f = append(s.f, x)] for a slice field [f]. *)
Definition append_field `{ArrayOf T} (s : loc) (x : T)
    (get : State.t → slice) (set : slice → State.t → State.t) : M unit :=
  st ← read (getState s);
  sl ← append (get st) x;
  update s (set sl).

(** ** NewState *)

Definition NewState (nodePubKeys : list PublicKey) (lambda : Z) (local : bool)
    : M loc :=
  nodes ← alloc (ONodes ∅);
  _ ← for_each nodePubKeys (λ key, nodes_set nodes (NewNodeID key) key);
  let genesisCRS := Keccak256Hash (list_byte_of_string "__ DEXON") in
  len_nodes ← read (λ h, size <$> getNodes nodes h);
  crs ← alloc (OArrHash 1 [genesisCRS]);
  pendingChangedConfigs ← alloc (OConfigs ∅);
  dkgFinals ← alloc (ORounds ∅);
  dkgComplaints ← alloc (ORounds ∅);
  dkgMasterPublicKeys ← alloc (ORounds ∅);
  alloc (OState {|
    State.local := local;
    State.numChains := to_uint32 (Z.of_nat len_nodes);
    State.lambdaBA := lambda;
    State.lambdaDKG := to_int64 (lambda * 10);
    State.roundInterval := to_int64 (lambda * 10000);
    State.minBlockInterval := to_int64 (1000000 * 1);
    State.maxBlockInterval := to_int64 (lambda * 8);
    State.crs := {| sl_arr := Some crs; sl_len := 1 |};
    State.nodes := nodes;
    State.phiRatio := 0x3f2ac083;     (* float32(0.667) *)
    State.k := 0;
    State.notarySetSize := to_uint32 (Z.of_nat len_nodes);
    State.dkgSetSize := to_uint32 (Z.of_nat len_nodes);
    State.pendingChangedConfigs := pendingChangedConfigs;
    State.dkgFinals := dkgFinals;
    State.dkgComplaints := dkgComplaints;
    State.dkgMasterPublicKeys := dkgMasterPublicKeys;
    State.pendingNodes := nil_slice;
    State.pendingDKGComplaints := nil_slice;
    State.pendingDKGFinals := nil_slice;
    State.pendingDKGMasterPublicKeys := nil_slice;
    State.pendingCRS := nil_slice
  |}).

(** ** unpackPayload *)

Definition unpackDKG (k : dkgKind) (b : bytes) : M (error + payload loc loc) :=
  v ← alloc (ODKG k typesDKG.zero);
  match rlpDecodeDKG k typesDKG.zero b with
  | Some d => _ ← store v (ODKG k d); mret (inr (PDKG k v))
  | None => mret (inl ErrDecode)
  end.

Definition unpackUint32 (b : bytes) : M (error + payload loc loc) :=
  mret (match rlpDecodeUint32 b with
        | Some tmp => inr (PUint32 tmp)
        | None => inl ErrDecode
        end).

Definition unpackUint64 (b : bytes) : M (error + payload loc loc) :=
  mret (match rlpDecodeUint64 b with
        | Some tmp => inr (PUint64 tmp)
        | None => inl ErrDecode
        end).

Definition unpackPayload (raw : rawStateChangeRequest.t)
    : M (error + payload loc loc) :=
  let b := rawStateChangeRequest.Payload raw in
  match rawStateChangeRequest.Typ raw with
  | StateAddCRS =>
      v ← alloc (OCRSReq {| crsAdditionRequest.Round := 0;
                            crsAdditionRequest.CRS := 0 |});
      match rlpDecodeCRS b with
      | Some r => _ ← store v (OCRSReq r); mret (inr (PCRS v))
      | None => mret (inl ErrDecode)
      end
  | StateAddDKGComplaint => unpackDKG Complaint b
  | StateAddDKGMasterPublicKey => unpackDKG MasterPublicKey b
  | StateAddDKGFinal => unpackDKG Finalize b
  | StateChangeNumChains => unpackUint32 b
  | StateChangeLambdaBA => unpackUint64 b
  | StateChangeLambdaDKG => unpackUint64 b
  | StateChangeRoundInterval => unpackUint64 b
  | StateChangeMinBlockInterval => unpackUint64 b
  | StateChangeMaxBlockInterval => unpackUint64 b
  | StateChangeK => unpackUint64 b
  | StateChangePhiRatio => unpackUint32 b
  | StateChangeNotarySetSize => unpackUint32 b
  | StateChangeDKGSetSize => unpackUint32 b
  | StateAddNode =>
      mret (match rlpDecodeBytes b with
            | Some tmp => inr (PBytes tmp)
            | None => inl ErrDecode
            end)
  | _ => mret (inl ErrUnknownStateChangeType)
  end.

(** ** cloneDKGComplaint, cloneDKGMasterPublicKey, cloneDKGFinalize *)

(** What the copy holds before the bytes are decoded into it. *)
Definition cloneInit (k : dkgKind) : typesDKG.t :=
  match k with
  | MasterPublicKey => NewMasterPublicKey
  | _ => typesDKG.zero
  end.

Definition cloneDKG (k : dkgKind) (p : loc) : M loc :=
  d ← read (getDKG k p);
  match rlpEncodeDKG k d with
  | None => panic
  | Some b =>
      copied ← alloc (ODKG k (cloneInit k));
      match rlpDecodeDKG k (cloneInit k) b with
      | None => panic
      | Some d' => _ ← store copied (ODKG k d'); mret copied
      end
  end.

Definition cloneDKGComplaint := cloneDKG Complaint.
Definition cloneDKGMasterPublicKey := cloneDKG MasterPublicKey.
Definition cloneDKGFinalize := cloneDKG Finalize.

(** ** Equal *)

(** [if !c { return e }; k] *)
Definition guard (c : option bool) (e : error) (k : option (option error))
    : option (option error) :=
  b ← c; if b : bool then k else Some (Some e).

(** reflect.DeepEqual on two payloads, on two slices and on the pending
    configuration maps.  A []byte is modelled by its contents: the
    difference reflect.DeepEqual sees between a nil and an empty []byte is
    outside the model. *)
Definition deepEqualCRSReq (p q : loc) (h : heap) : option bool :=
  if decide (p = q) then Some true
  else x ← getCRSReq p h; y ← getCRSReq q h; Some (bool_decide (x = y)).

Definition deepEqualDKG (k : dkgKind) (p q : loc) (h : heap) : option bool :=
  if decide (p = q) then Some true
  else x ← getDKG k p h; y ← getDKG k q h; Some (bool_decide (x = y)).

Definition deepEqualPayload (a b : payload loc loc) (h : heap) : option bool :=
  match a, b with
  | PPublicKey x, PPublicKey y => Some (bool_decide (x = y))
  | PDuration x, PDuration y => Some (x =? y)%Z
  | PInt x, PInt y => Some (x =? y)%Z
  | PFloat32 x, PFloat32 y => Some (float32_eq x y)
  | PUint32 x, PUint32 y => Some (x =? y)%Z
  | PUint64 x, PUint64 y => Some (x =? y)%Z
  | PBytes x, PBytes y => Some (bool_decide (x = y))
  | PCRS p, PCRS q => deepEqualCRSReq p q h
  | PDKG k p, PDKG k' q =>
      if decide (k = k') then deepEqualDKG k p q h else Some false
  | _, _ => Some false
  end.

Definition deepEqualSlice `{ArrayOf T} (eqT : T → T → heap → option bool)
    (a b : slice) (h : heap) : option bool :=
  match sl_arr a, sl_arr b with
  | None, None => Some (bool_decide (sl_len a = sl_len b))
  | Some pa, Some pb =>
      if decide (sl_len a ≠ sl_len b) then Some false
      else if decide (pa = pb) then Some true
      else
        ea ← slice_elems a h; eb ← slice_elems b h;
        all_ok (zip ea eb) (λ '(x, y), eqT x y h)
  | _, _ => Some false
  end.

Definition deepEqualConfigs (la lb : loc) (h : heap) : option bool :=
  ma ← getConfigs la h; mb ← getConfigs lb h;
  if decide (size ma ≠ size mb) then Some false
  else if decide (la = lb) then Some true
  else all_ok (map_to_list ma) (λ '(t, v),
         match mb !! t with
         | Some v' => deepEqualPayload v v' h
         | None => Some false
         end).

(** [len(a) == len(b)] and [a[idx].Equal(b[idx])] for every idx. *)
Definition dkgSliceEqual (k : dkgKind) (a b : slice) (h : heap) : option bool :=
  if decide (sl_len a ≠ sl_len b) then Some false
  else
    ea ← slice_elems a h; eb ← slice_elems b h;
    all_ok (zip ea eb) (λ '(p, q),
      x ← getDKG k p h; y ← getDKG k q h; Some (typesDKG.Equal x y)).

Definition nodesEqual (la lb : loc) (h : heap) : option bool :=
  na ← getNodes la h; nb ← getNodes lb h;
  if decide (size na ≠ size nb) then Some false
  else all_ok (map_to_list na) (λ '(nID, key),
         match nb !! nID with
         | None => Some false
         | Some otherKey => Some (bool_decide (Bytes key = Bytes otherKey))
         end).

Definition complaintsEqual (la lb : loc) (h : heap) : option bool :=
  ra ← getRounds la h; rb ← getRounds lb h;
  if decide (size ra ≠ size rb) then Some false
  else all_ok (map_to_list ra) (λ '(round, compsForRound),
    match rb !! round with
    | None => Some false
    | Some otherCompsForRound =>
        ia ← getComplaintsOf compsForRound h;
        ib ← getComplaintsOf otherCompsForRound h;
        if decide (size ia ≠ size ib) then Some false
        else all_ok (map_to_list ia) (λ '(nID, comps),
          match ib !! nID with
          | None => Some false
          | Some otherComps => dkgSliceEqual Complaint comps otherComps h
          end)
    end).

Definition recordsEqual (k : dkgKind) (la lb : loc) (h : heap) : option bool :=
  ra ← getRounds la h; rb ← getRounds lb h;
  if decide (size ra ≠ size rb) then Some false
  else all_ok (map_to_list ra) (λ '(round, forRound),
    match rb !! round with
    | None => Some false
    | Some otherForRound =>
        ia ← getRecordOf forRound h;
        ib ← getRecordOf otherForRound h;
        if decide (size ia ≠ size ib) then Some false
        else all_ok (map_to_list ia) (λ '(nID, p),
          match ib !! nID with
          | None => Some false
          | Some q =>
              x ← getDKG k p h; y ← getDKG k q h; Some (typesDKG.Equal x y)
          end)
    end).

Definition crsEqual (a b : slice) (h : heap) : option bool :=
  if decide (sl_len a ≠ sl_len b) then Some false
  else
    ea ← slice_elems (T:=Z) a h; eb ← slice_elems (T:=Z) b h;
    all_ok (zip ea eb) (λ '(x, y), Some (x =? y)%Z).

Definition configEqual (a b : State.t) : bool :=
  ((State.numChains a =? State.numChains b) &&
   (State.lambdaBA a =? State.lambdaBA b) &&
   (State.lambdaDKG a =? State.lambdaDKG b) &&
   (State.k a =? State.k b) &&
   float32_eq (State.phiRatio a) (State.phiRatio b) &&
   (State.notarySetSize a =? State.notarySetSize b) &&
   (State.dkgSetSize a =? State.dkgSetSize b) &&
   (State.roundInterval a =? State.roundInterval b) &&
   (State.minBlockInterval a =? State.minBlockInterval b) &&
   (State.maxBlockInterval a =? State.maxBlockInterval b))%Z.

Definition Equal (s other : loc) (h : heap) : option (option error) :=
  a ← getState s h; b ← getState other h;
  (* Check configuration part. *)
  guard (Some (configEqual a b)) ErrStateConfigNotEqual $
  (* Check local flag. *)
  guard (Some (bool_decide (State.local a = State.local b)))
    ErrStateLocalFlagNotEqual $
  (* Check node set. *)
  guard (nodesEqual (State.nodes a) (State.nodes b) h)
    ErrStateNodeSetNotEqual $
  (* Check DKG Complaints. *)
  guard (complaintsEqual (State.dkgComplaints a) (State.dkgComplaints b) h)
    ErrStateDKGComplaintsNotEqual $
  (* Check DKG master public keys. *)
  guard (recordsEqual MasterPublicKey (State.dkgMasterPublicKeys a)
           (State.dkgMasterPublicKeys b) h)
    ErrStateDKGMasterPublicKeysNotEqual $
  (* Check DKG finals. *)
  guard (recordsEqual Finalize (State.dkgFinals a) (State.dkgFinals b) h)
    ErrStateDKGFinalsNotEqual $
  (* Check CRS part. *)
  guard (crsEqual (State.crs a) (State.crs b) h) ErrStateCRSsNotEqual $
  (* Check pending changes. *)
  guard (deepEqualConfigs (State.pendingChangedConfigs a)
           (State.pendingChangedConfigs b) h)
    ErrStatePendingChangesNotEqual $
  guard (deepEqualSlice deepEqualCRSReq (State.pendingCRS a)
           (State.pendingCRS b) h)
    ErrStatePendingChangesNotEqual $
  guard (deepEqualSlice (T:=bytes) (λ x y _, Some (bool_decide (x = y)))
           (State.pendingNodes a) (State.pendingNodes b) h)
    ErrStatePendingChangesNotEqual $
  guard (dkgSliceEqual Complaint (State.pendingDKGComplaints a)
           (State.pendingDKGComplaints b) h)
    ErrStatePendingChangesNotEqual $
  guard (dkgSliceEqual Finalize (State.pendingDKGFinals a)
           (State.pendingDKGFinals b) h)
    ErrStatePendingChangesNotEqual $
  guard (dkgSliceEqual MasterPublicKey (State.pendingDKGMasterPublicKeys a)
           (State.pendingDKGMasterPublicKeys b) h)
    ErrStatePendingChangesNotEqual $
  Some None.

(** ** Clone *)

(** The loops of Clone over the two-level DKG maps.  [range] over a map
    visits the entries in the order of [map_to_list]; the copy does not
    depend on that order except for where its objects are allocated. *)
Definition cloneComplaints (src dst : loc) : M unit :=
  rounds ← read (getRounds src);
  for_each (map_to_list rounds) (λ '(round, complaintsForRound),
    inner ← alloc (OComplaintsOf ∅);
    _ ← rounds_set dst round inner;
    compsOf ← read (getComplaintsOf complaintsForRound);
    for_each (map_to_list compsOf) (λ '(nID, comps),
      elems ← read (slice_elems comps);
      empty ← alloc (OArrPtr 0 []);
      tmpComps ← for_acc elems {| sl_arr := Some empty; sl_len := 0 |}
        (λ tmpComps comp, c ← cloneDKGComplaint comp; append tmpComps c);
      dstRounds ← read (getRounds dst);
      match dstRounds !! round with
      | Some dstInner => complaintsOf_set dstInner nID tmpComps
      | None => panic
      end)).

Definition cloneRecords (k : dkgKind) (src dst : loc) : M unit :=
  rounds ← read (getRounds src);
  for_each (map_to_list rounds) (λ '(round, forRound),
    inner ← alloc (ORecordOf ∅);
    _ ← rounds_set dst round inner;
    recs ← read (getRecordOf forRound);
    for_each (map_to_list recs) (λ '(nID, p),
      c ← cloneDKG k p;
      dstRounds ← read (getRounds dst);
      match dstRounds !! round with
      | Some dstInner => recordOf_set dstInner nID c
      | None => panic
      end)).

(** [for _, x := range src { copied.f = append(copied.f, g(x)) }] *)
Definition cloneSlice `{ArrayOf T} (copied : loc) (src : slice)
    (get : State.t → slice) (set : slice → State.t → State.t)
    (g : T → M T) : M unit :=
  elems ← read (slice_elems src);
  for_each elems (λ x, y ← g x; append_field copied y get set).

Definition Clone (s : loc) : M loc :=
  st ← read (getState s);
  (* Clone configuration parts. *)
  nodes ← alloc (ONodes ∅);
  dkgComplaints ← alloc (ORounds ∅);
  dkgMasterPublicKeys ← alloc (ORounds ∅);
  dkgFinals ← alloc (ORounds ∅);
  pendingChangedConfigs ← alloc (OConfigs ∅);
  copied ← alloc (OState {|
    State.numChains := State.numChains st;
    State.lambdaBA := State.lambdaBA st;
    State.lambdaDKG := State.lambdaDKG st;
    State.k := State.k st;
    State.phiRatio := State.phiRatio st;
    State.notarySetSize := State.notarySetSize st;
    State.dkgSetSize := State.dkgSetSize st;
    State.roundInterval := State.roundInterval st;
    State.minBlockInterval := State.minBlockInterval st;
    State.maxBlockInterval := State.maxBlockInterval st;
    State.local := State.local st;
    State.nodes := nodes;
    State.dkgComplaints := dkgComplaints;
    State.dkgMasterPublicKeys := dkgMasterPublicKeys;
    State.dkgFinals := dkgFinals;
    State.pendingChangedConfigs := pendingChangedConfigs;
    State.crs := nil_slice;
    State.pendingNodes := nil_slice;
    State.pendingDKGComplaints := nil_slice;
    State.pendingDKGFinals := nil_slice;
    State.pendingDKGMasterPublicKeys := nil_slice;
    State.pendingCRS := nil_slice
  |});
  (* Nodes *)
  srcNodes ← read (getNodes (State.nodes st));
  _ ← for_each (map_to_list srcNodes) (λ '(nID, key), nodes_set nodes nID key);
  (* DKG & CRS *)
  _ ← cloneComplaints (State.dkgComplaints st) dkgComplaints;
  _ ← cloneRecords MasterPublicKey (State.dkgMasterPublicKeys st)
        dkgMasterPublicKeys;
  _ ← cloneRecords Finalize (State.dkgFinals st) dkgFinals;
  _ ← cloneSlice (T:=Z) copied (State.crs st) State.crs State.set_crs mret;
  (* Pending Changes *)
  srcConfigs ← read (getConfigs (State.pendingChangedConfigs st));
  _ ← for_each (map_to_list srcConfigs) (λ '(t, v),
        configs_set pendingChangedConfigs t v);
  _ ← cloneSlice (T:=bytes) copied (State.pendingNodes st)
        State.pendingNodes State.set_pendingNodes mret;
  _ ← cloneSlice copied (State.pendingDKGComplaints st)
        State.pendingDKGComplaints State.set_pendingDKGComplaints
        cloneDKGComplaint;
  _ ← cloneSlice copied (State.pendingDKGFinals st)
        State.pendingDKGFinals State.set_pendingDKGFinals cloneDKGFinalize;
  _ ← cloneSlice copied (State.pendingDKGMasterPublicKeys st)
        State.pendingDKGMasterPublicKeys State.set_pendingDKGMasterPublicKeys
        cloneDKGMasterPublicKey;
  _ ← cloneSlice copied (State.pendingCRS st)
        State.pendingCRS State.set_pendingCRS
        (λ req, r ← read (getCRSReq req);
                alloc (OCRSReq {|
                  crsAdditionRequest.Round := crsAdditionRequest.Round r;
                  crsAdditionRequest.CRS := crsAdditionRequest.CRS r |}));
  mret copied.

(** ** isValidRequest *)

(** [v, exists := m[round][id]] on a map of maps of records; indexing the
    nil inner map of a missing round finds nothing. *)
Definition recordAt (m : loc) (round id : Z) (h : heap) : option (option loc) :=
  rounds ← getRounds m h;
  match rounds !! round with
  | None => Some None
  | Some forRound => recs ← getRecordOf forRound h; Some (recs !! id)
  end.

Definition isValidRequest (s : loc) (req : StateChangeRequest.t) (h : heap)
    : option (option error) :=
  st ← getState s h;
  match StateChangeRequest.Typ req with
  | StateAddDKGComplaint =>
      match StateChangeRequest.Payload req with
      | PDKG Complaint p =>
          comp ← getDKG Complaint p h;
          (* If we've received DKG final from that proposer, we would
             ignore its complaint. *)
          final ← recordAt (State.dkgFinals st) (typesDKG.Round comp)
                    (typesDKG.ProposerID comp) h;
          if bool_decide (is_Some final) then Some (Some ErrProposerIsFinal)
          else
            (* If we've received identical complaint, ignore it. *)
            rounds ← getRounds (State.dkgComplaints st) h;
            match rounds !! typesDKG.Round comp with
            | None => Some None
            | Some compForRound =>
                compsOf ← getComplaintsOf compForRound h;
                match compsOf !! typesDKG.ProposerID comp with
                | None => Some None
                | Some comps =>
                    elems ← slice_elems comps h;
                    if existsb (λ tmpComp, bool_decide (tmpComp = p)) elems
                    then Some (Some ErrDuplicatedChange)
                    else Some None
                end
            end
      | _ => None
      end
  | StateAddCRS =>
      match StateChangeRequest.Payload req with
      | PCRS p =>
          crsReq ← getCRSReq p h;
          let len_crs := Z.of_nat (sl_len (State.crs st)) in
          if decide (len_crs > crsAdditionRequest.Round crsReq)%Z then
            stored ← slice_index (T:=Z) (State.crs st)
                       (Z.to_nat (crsAdditionRequest.Round crsReq)) h;
            if negb (stored =? crsAdditionRequest.CRS crsReq)%Z
            then Some (Some ErrForkedCRS)
            else Some (Some ErrDuplicatedChange)
          else if decide (len_crs = crsAdditionRequest.Round crsReq) then
            Some None
          else Some (Some ErrMissingPreviousCRS)
      | _ => None
      end
  | _ => Some None
  end.

(** ** applyRequest *)

(** The inner map [m[round]], created on first use. *)
Definition innerMap (m : loc) (round : Z) (empty : obj) : M loc :=
  rounds ← read (getRounds m);
  match rounds !! round with
  | Some inner => mret inner
  | None => inner ← alloc empty; _ ← rounds_set m round inner; mret inner
  end.

Definition applyDKGRecord (k : dkgKind) (m : loc) (p : loc) : M (option error) :=
  rec ← read (getDKG k p);
  inner ← innerMap m (typesDKG.Round rec) (ORecordOf ∅);
  _ ← recordOf_set inner (typesDKG.ProposerID rec) p;
  mret None.

Definition applyRequest (s : loc) (req : StateChangeRequest.t)
    : M (option error) :=
  st ← read (getState s);
  match StateChangeRequest.Typ req, StateChangeRequest.Payload req with
  | StateAddNode, PBytes b =>
      match NewPublicKeyFromByteSlice b with
      | None => mret (Some ErrKeyParse)
      | Some pubKey =>
          _ ← nodes_set (State.nodes st) (NewNodeID pubKey) pubKey; mret None
      end
  | StateAddCRS, PCRS p =>
      crsRequest ← read (getCRSReq p);
      if decide (crsAdditionRequest.Round crsRequest
                 ≠ Z.of_nat (sl_len (State.crs st)))
      then mret (Some ErrDuplicatedChange)
      else
        _ ← append_field s (crsAdditionRequest.CRS crsRequest)
              State.crs State.set_crs;
        mret None
  | StateAddDKGComplaint, PDKG Complaint p =>
      comp ← read (getDKG Complaint p);
      inner ← innerMap (State.dkgComplaints st) (typesDKG.Round comp)
                (OComplaintsOf ∅);
      compsOf ← read (getComplaintsOf inner);
      sl ← append (default nil_slice (compsOf !! typesDKG.ProposerID comp)) p;
      _ ← complaintsOf_set inner (typesDKG.ProposerID comp) sl;
      mret None
  | StateAddDKGMasterPublicKey, PDKG MasterPublicKey p =>
      applyDKGRecord MasterPublicKey (State.dkgMasterPublicKeys st) p
  | StateAddDKGFinal, PDKG Finalize p =>
      applyDKGRecord Finalize (State.dkgFinals st) p
  | StateChangeNumChains, PUint32 v =>
      _ ← update s (State.set_numChains v); mret None
  | StateChangeLambdaBA, PUint64 v =>
      _ ← update s (State.set_lambdaBA (to_int64 v)); mret None
  | StateChangeLambdaDKG, PUint64 v =>
      _ ← update s (State.set_lambdaDKG (to_int64 v)); mret None
  | StateChangeRoundInterval, PUint64 v =>
      _ ← update s (State.set_roundInterval (to_int64 v)); mret None
  | StateChangeMinBlockInterval, PUint64 v =>
      _ ← update s (State.set_minBlockInterval (to_int64 v)); mret None
  | StateChangeMaxBlockInterval, PUint64 v =>
      _ ← update s (State.set_maxBlockInterval (to_int64 v)); mret None
  | StateChangeK, PUint64 v =>
      _ ← update s (State.set_k (to_int64 v)); mret None
  | StateChangePhiRatio, PUint32 v =>
      _ ← update s (State.set_phiRatio (Float32frombits v)); mret None
  | StateChangeNotarySetSize, PUint32 v =>
      _ ← update s (State.set_notarySetSize v); mret None
  | StateChangeDKGSetSize, PUint32 v =>
      _ ← update s (State.set_dkgSetSize v); mret None
  | (StateAddNode | StateAddCRS | StateAddDKGComplaint
    | StateAddDKGMasterPublicKey | StateAddDKGFinal | StateChangeNumChains
    | StateChangeLambdaBA | StateChangeLambdaDKG | StateChangeRoundInterval
    | StateChangeMinBlockInterval | StateChangeMaxBlockInterval
    | StateChangeK | StateChangePhiRatio | StateChangeNotarySetSize
    | StateChangeDKGSetSize), _ => panic      (* failed type assertion *)
  | _, _ => mret (Some ErrKiddingMe)
  end.

(** ** Apply *)

Fixpoint unpackRequests (rawReqs : list rawStateChangeRequest.t)
    : M (error + list StateChangeRequest.t) :=
  match rawReqs with
  | [] => mret (inr [])
  | r :: rest =>
      v ← unpackPayload r;
      match v with
      | inl err => mret (inl err)
      | inr payload =>
          reqs ← unpackRequests rest;
          mret (match reqs with
                | inl err => inl err
                | inr reqs =>
                    inr ({| StateChangeRequest.Typ := rawStateChangeRequest.Typ r;
                            StateChangeRequest.Payload := payload |} :: reqs)
                end)
      end
  end.

Definition Apply (s : loc) (reqsAsBytes : bytes) : M (option error) :=
  match rlpDecodeRequests reqsAsBytes with
  | None => mret (Some ErrDecode)
  | Some rawReqs =>
      reqs ← unpackRequests rawReqs;
      match reqs with
      | inl err => mret (Some err)
      | inr reqs => for_err reqs (applyRequest s)
      end
  end.

(** ** PackRequests *)

(** What rlp.EncodeToBytes sees of a payload. *)
Definition reify (v : payload loc loc) (h : heap)
    : option (payload crsAdditionRequest.t typesDKG.t) :=
  match v with
  | PPublicKey key => Some (PPublicKey key)
  | PDuration d => Some (PDuration d)
  | PInt i => Some (PInt i)
  | PFloat32 f => Some (PFloat32 f)
  | PUint32 n => Some (PUint32 n)
  | PUint64 n => Some (PUint64 n)
  | PBytes b => Some (PBytes b)
  | PCRS p => PCRS <$> getCRSReq p h
  | PDKG k p => PDKG k <$> getDKG k p h
  end.

Definition reifyRequest (req : StateChangeRequest.t) (h : heap)
    : option (Z * payload crsAdditionRequest.t typesDKG.t) :=
  v ← reify (StateChangeRequest.Payload req) h;
  Some (StateChangeRequest.Typ req, v).

Definition request (t : Z) (v : payload loc loc) : StateChangeRequest.t :=
  {| StateChangeRequest.Typ := t; StateChangeRequest.Payload := v |}.

(** The part of PackRequests that fills the local [packed]. *)
Definition packRequests (s : loc) : M (list StateChangeRequest.t) :=
  st ← read (getState s);
  (* Pack simple configuration changes first. *)
  configs ← read (getConfigs (State.pendingChangedConfigs st));
  let packed := (λ '(t, v), request t v) <$> rangeConfigs configs in
  fresh_configs ← alloc (OConfigs ∅);
  _ ← update s (State.set_pendingChangedConfigs fresh_configs);
  (* For other changes, we need to check their validity. *)
  pendingNodes ← read (slice_elems (State.pendingNodes st));
  let packed := packed ++
    ((λ b, request StateAddNode (PBytes b)) <$> pendingNodes) in
  pendingDKGComplaints ← read (slice_elems (State.pendingDKGComplaints st));
  let packed := packed ++
    ((λ p, request StateAddDKGComplaint (PDKG Complaint p))
       <$> pendingDKGComplaints) in
  pendingDKGFinals ← read (slice_elems (State.pendingDKGFinals st));
  let packed := packed ++
    ((λ p, request StateAddDKGFinal (PDKG Finalize p)) <$> pendingDKGFinals) in
  pendingDKGMasterPublicKeys ←
    read (slice_elems (State.pendingDKGMasterPublicKeys st));
  let packed := packed ++
    ((λ p, request StateAddDKGMasterPublicKey (PDKG MasterPublicKey p))
       <$> pendingDKGMasterPublicKeys) in
  pendingCRS ← read (slice_elems (State.pendingCRS st));
  let packed := packed ++
    ((λ p, request StateAddCRS (PCRS p)) <$> pendingCRS) in
  mret packed.

Definition PackRequests (s : loc) : M (error + bytes) :=
  packed ← packRequests s;
  reified ← read (λ h, mapM (λ req, reifyRequest req h) packed);
  mret (match rlpEncodeRequests reified with
        | Some b => inr b
        | None => inl ErrDecode
        end).

(** ** RequestChange, ProposeCRS, CRS *)

(** Patch input parameter's type. *)
Definition patchPayload (t : Z) (v : payload loc loc)
    : option (payload loc loc) :=
  match t, v with
  | StateAddNode, PPublicKey key => Some (PBytes (Bytes key))
  | (StateChangeLambdaBA | StateChangeLambdaDKG | StateChangeRoundInterval
    | StateChangeMinBlockInterval | StateChangeMaxBlockInterval),
    PDuration d => Some (PUint64 (to_uint64 d))
  | StateChangeK, PInt i => Some (PUint64 (to_uint64 i))
  | StateChangePhiRatio, PFloat32 f => Some (PUint32 (Float32bits f))
  | (StateAddNode | StateChangeLambdaBA | StateChangeLambdaDKG
    | StateChangeRoundInterval | StateChangeMinBlockInterval
    | StateChangeMaxBlockInterval | StateChangeK | StateChangePhiRatio), _ =>
      None                                   (* failed type assertion *)
  | _, _ => Some v
  end.

Definition RequestChange (s : loc) (t : Z) (payload : payload loc loc)
    : M (option error) :=
  payload ← read (λ _, patchPayload t payload);
  let req := request t payload in
  st ← read (getState s);
  if State.local st then
    v ← read (isValidRequest s req);
    match v with
    | Some err => mret (Some err)
    | None => applyRequest s req
    end
  else
    v ← read (isValidRequest s req);
    match v with
    | Some err => mret (Some err)
    | None =>
        _ ← match t, payload with
            | StateAddNode, PBytes b =>
                append_field s b State.pendingNodes State.set_pendingNodes
            | StateAddCRS, PCRS p =>
                append_field s p State.pendingCRS State.set_pendingCRS
            | StateAddDKGComplaint, PDKG Complaint p =>
                append_field s p State.pendingDKGComplaints
                  State.set_pendingDKGComplaints
            | StateAddDKGMasterPublicKey, PDKG MasterPublicKey p =>
                append_field s p State.pendingDKGMasterPublicKeys
                  State.set_pendingDKGMasterPublicKeys
            | StateAddDKGFinal, PDKG Finalize p =>
                append_field s p State.pendingDKGFinals
                  State.set_pendingDKGFinals
            | (StateAddNode | StateAddCRS | StateAddDKGComplaint
              | StateAddDKGMasterPublicKey | StateAddDKGFinal), _ => panic
            | _, _ => configs_set (State.pendingChangedConfigs st) t payload
            end;
        mret None
    end.

Definition ProposeCRS (s : loc) (round : Z) (crs : Z) : M (option error) :=
  p ← alloc (OCRSReq {| crsAdditionRequest.Round := round;
                        crsAdditionRequest.CRS := crs |});
  RequestChange s StateAddCRS (PCRS p).

Definition CRS (s : loc) (round : Z) (h : heap) : option Z :=
  st ← getState s h;
  if decide (round >= Z.of_nat (sl_len (State.crs st)))%Z then Some 0%Z
  else slice_index (T:=Z) (State.crs st) (Z.to_nat round) h.

End state.

(** ** Snapshot and the DKG accessors *)

(** types.Config, as Snapshot fills it. *)
Module Config.
Record t := {
  NumChains : Z;
  LambdaBA : Z;
  LambdaDKG : Z;
  K : Z;
  PhiRatio : Z;
  NotarySetSize : Z;
  DKGSetSize : Z;
  RoundInterval : Z;
  MinBlockInterval : Z;
  MaxBlockInterval : Z
}.
End Config.

(** The order in which a [range] over a Go map visits its entries: some
    enumeration of the entries, each once. *)
Class RangeOrder := {
  rangeMap : ∀ {A}, gmap Z A → list (Z * A);
  rangeMap_perm : ∀ {A} (m : gmap Z A), rangeMap m ≡ₚ map_to_list m
}.

Section accessors.
Context `{!Externals} `{!RangeOrder}.

(** Snapshot returns a new Config and a new slice with room for all the
    keys; the slice is given by its elements. *)
Definition Snapshot (s : loc) (h : heap) : option (Config.t * list PublicKey) :=
  st ← getState s h;
  (* Clone a node set. *)
  nodes ← getNodes (State.nodes st) h;
  Some ({| Config.NumChains := State.numChains st;
           Config.LambdaBA := State.lambdaBA st;
           Config.LambdaDKG := State.lambdaDKG st;
           Config.K := State.k st;
           Config.PhiRatio := State.phiRatio st;
           Config.NotarySetSize := State.notarySetSize st;
           Config.DKGSetSize := State.dkgSetSize st;
           Config.RoundInterval := State.roundInterval st;
           Config.MinBlockInterval := State.minBlockInterval st;
           Config.MaxBlockInterval := State.maxBlockInterval st |},
        (rangeMap nodes).*2).

(** [make([]*T, 0, n)] *)
Definition make_slice (n : nat) : M slice :=
  a ← alloc (OArrPtr n []); mret {| sl_arr := Some a; sl_len := 0 |}.

Definition DKGComplaints (s : loc) (round : Z) : M slice :=
  st ← read (getState s);
  rounds ← read (getRounds (State.dkgComplaints st));
  match rounds !! round with
  | None => mret nil_slice
  | Some inner =>
      comps ← read (getComplaintsOf inner);
      tmpComps ← make_slice (size comps);
      for_acc (rangeMap comps) tmpComps (λ tmpComps '(_, compProp),
        elems ← read (slice_elems compProp);
        for_acc elems tmpComps (λ tmpComps comp,
          c ← cloneDKGComplaint comp; append tmpComps c))
  end.

Definition DKGMasterPublicKeys (s : loc) (round : Z) : M slice :=
  st ← read (getState s);
  rounds ← read (getRounds (State.dkgMasterPublicKeys st));
  match rounds !! round with
  | None => mret nil_slice
  | Some inner =>
      masterPublicKeys ← read (getRecordOf inner);
      mpks ← make_slice (size masterPublicKeys);
      for_acc (rangeMap masterPublicKeys) mpks (λ mpks '(_, mpk),
        c ← cloneDKGMasterPublicKey mpk; append mpks c)
  end.

(** [len(s.dkgFinals[round]) > threshold]; the length of the nil map of
    a missing round is 0. *)
Definition IsDKGFinal (s : loc) (round : Z) (threshold : Z) (h : heap)
    : option bool :=
  st ← getState s h;
  rounds ← getRounds (State.dkgFinals st) h;
  match rounds !! round with
  | None => Some (bool_decide (0 > threshold)%Z)
  | Some inner =>
      recs ← getRecordOf inner h;
      Some (bool_decide (Z.of_nat (size recs) > threshold)%Z)
  end.

End accessors.

(** ** A concrete instance of the external collaborators

    A small fixed-width, length-prefixed codec and a toy hash, used to run
    the functions above on concrete inputs. *)

Fixpoint be_bytes (n : nat) (z : Z) : bytes :=
  match n with
  | O => []
  | S n' =>
      be_bytes n' (z / 256)
        ++ [default x00 (Byte.of_N (Z.to_N (z mod 256)))]
  end.

Definition be_value (b : bytes) : Z :=
  foldl (λ acc x, acc * 256 + Z.of_N (Byte.to_N x))%Z 0%Z b.

Definition ex_encodePayload (v : payload crsAdditionRequest.t typesDKG.t)
    : option bytes :=
  match v with
  | PUint32 n | PUint64 n => Some (be_bytes 8 n)
  | PBytes b => Some b
  | PCRS r =>
      Some (be_bytes 8 (crsAdditionRequest.Round r)
            ++ be_bytes 32 (crsAdditionRequest.CRS r))
  | PDKG _ d =>
      Some (be_bytes 32 (typesDKG.ProposerID d)
            ++ be_bytes 8 (typesDKG.Round d) ++ typesDKG.Body d)
  | _ => None
  end.

Definition ex_encodeRequest
    (r : Z * payload crsAdditionRequest.t typesDKG.t) : option bytes :=
  b ← ex_encodePayload r.2;
  Some (be_bytes 1 r.1 ++ be_bytes 8 (Z.of_nat (length b)) ++ b).

Fixpoint ex_decodeRequests (fuel : nat) (b : bytes)
    : option (list rawStateChangeRequest.t) :=
  match fuel, b with
  | _, [] => Some []
  | O, _ => None
  | S fuel', t :: rest =>
      let n := Z.to_nat (be_value (take 8 rest)) in
      if decide (8 + n ≤ length rest) then
        reqs ← ex_decodeRequests fuel' (drop (8 + n) rest);
        Some ({| rawStateChangeRequest.Typ := be_value [t];
                 rawStateChangeRequest.Payload := take n (drop 8 rest) |}
              :: reqs)
      else None
  end.

Definition ex_decodeDKG (b : bytes) : option typesDKG.t :=
  if decide (40 ≤ length b) then
    Some {| typesDKG.ProposerID := be_value (take 32 b);
            typesDKG.Round := be_value (take 8 (drop 32 b));
            typesDKG.Body := drop 40 b |}
  else None.

Definition ex_decodeUint (bound : Z) (b : bytes) : option Z :=
  if decide (length b = 8 ∧ (be_value b < bound)%Z) then Some (be_value b)
  else None.

Definition ex_externals : Externals := {|
  Keccak256Hash b := (be_value b * 31 + 7)%Z;
  NewNodeID key := (be_value (Bytes key) * 31 + 7)%Z;
  NewPublicKeyFromByteSlice b :=
    if decide (b = []) then None else Some {| Bytes := b |};
  NewMasterPublicKey := typesDKG.zero;
  rlpEncodeRequests reqs :=
    l ← mapM ex_encodeRequest reqs; Some (mjoin l);
  rlpDecodeRequests b := ex_decodeRequests (length b) b;
  rlpEncodeDKG k d := ex_encodePayload (PDKG k d);
  rlpDecodeDKG _ _ b := ex_decodeDKG b;
  rlpDecodeCRS b :=
    if decide (length b = 40) then
      Some {| crsAdditionRequest.Round := be_value (take 8 b);
              crsAdditionRequest.CRS := be_value (drop 8 b) |}
    else None;
  rlpDecodeUint32 := ex_decodeUint (2 ^ 32);
  rlpDecodeUint64 := ex_decodeUint (2 ^ 64);
  rlpDecodeBytes b := Some b;
  growslice c := 2 * c;
  rangeConfigs := map_to_list
|}.

#[refine] Definition ex_range : RangeOrder := {|
  rangeMap A m := map_to_list m |}.
Proof. done. Defined.

(** * Properties *)

Arguments isValidRequest : simpl never.
Arguments applyRequest : simpl never.
Arguments unpackPayload : simpl never.
Arguments append : simpl never.
Arguments slice_elems : simpl never.

Ltac munfold := unfold mbind, M_bind, mret, M_ret, read, panic.

(** ** The store: allocation, reads and frames *)

Section store.
Implicit Types (h : gmap positive obj) (l s p : positive) (o : obj).

Lemma fresh_lookup h : h !! fresh (dom h) = None.
Proof. apply not_elem_of_dom, is_fresh. Qed.

Lemma alloc_extends o h : h ⊆ <[fresh (dom h) := o]> h.
Proof. apply insert_subseteq, fresh_lookup. Qed.

Lemma realloc_extends o o' h :
  h ⊆ <[fresh (dom h) := o']> (<[fresh (dom h) := o]> h).
Proof. rewrite insert_insert_eq. apply alloc_extends. Qed.

Lemma store_Some l o o' h :
  h !! l = Some o' → store l o h = Some (tt, <[l := o]> h).
Proof. unfold store. by intros ->. Qed.

(** Typed reads only depend on the cell they read. *)
Lemma getState_Some l h st : getState l h = Some st ↔ h !! l = Some (OState st).
Proof.
  unfold getState. destruct (h !! l) as [[]|]; split; congruence.
Qed.

Lemma getCRSReq_Some l h r : getCRSReq l h = Some r ↔ h !! l = Some (OCRSReq r).
Proof.
  unfold getCRSReq. destruct (h !! l) as [[]|]; split; congruence.
Qed.

Lemma getDKG_Some k l h d : getDKG k l h = Some d ↔ h !! l = Some (ODKG k d).
Proof.
  unfold getDKG. destruct (h !! l) as [[]|]; try (split; congruence).
  case_decide; split; congruence.
Qed.

Lemma getNodes_Some l h m : getNodes l h = Some m ↔ h !! l = Some (ONodes m).
Proof.
  unfold getNodes. destruct (h !! l) as [[]|]; split; congruence.
Qed.

Lemma getConfigs_Some l h m : getConfigs l h = Some m ↔ h !! l = Some (OConfigs m).
Proof.
  unfold getConfigs. destruct (h !! l) as [[]|]; split; congruence.
Qed.

Lemma getRounds_Some l h m : getRounds l h = Some m ↔ h !! l = Some (ORounds m).
Proof.
  unfold getRounds. destruct (h !! l) as [[]|]; split; congruence.
Qed.

Lemma getComplaintsOf_Some l h m :
  getComplaintsOf l h = Some m ↔ h !! l = Some (OComplaintsOf m).
Proof.
  unfold getComplaintsOf. destruct (h !! l) as [[]|]; split; congruence.
Qed.

Lemma getRecordOf_Some l h m :
  getRecordOf l h = Some m ↔ h !! l = Some (ORecordOf m).
Proof.
  unfold getRecordOf. destruct (h !! l) as [[]|]; split; congruence.
Qed.

(** The elements of a slice, in terms of its backing array. *)
Lemma slice_elems_Some `{ArrayOf T} (sl : slice) h (elems : list T) :
  slice_elems sl h = Some elems ↔
  match sl_arr sl with
  | None => sl_len sl = 0 ∧ elems = []
  | Some a => ∃ c w, h !! a = Some (mkArr c w) ∧ sl_len sl ≤ length w
                     ∧ elems = take (sl_len sl) w
  end.
Proof.
  unfold slice_elems. destruct (sl_arr sl) as [a|].
  - destruct (h !! a) as [o|] eqn:Ho; simpl.
    + destruct (unArr o) as [[c w]|] eqn:Hu; simpl.
      * apply unArr_inv in Hu as ->. case_decide; split.
        -- intros [= <-]. eauto.
        -- intros (c' & w' & [= Hm] & _ & ->).
           assert (Some (c, w) = Some (c', w')) as [= -> ->]
             by (rewrite <-!unArr_mkArr; congruence).
           done.
        -- done.
        -- intros (c' & w' & [= Hm] & Hle & _).
           assert (Some (c, w) = Some (c', w')) as [= -> ->]
             by (rewrite <-!unArr_mkArr; congruence).
           lia.
      * split; [done|]. intros (c & w & [= ->] & _).
        by rewrite unArr_mkArr in Hu.
    + split; [done|]. by intros (c & w & [=] & _).
  - case_decide; split; try done.
    + intros [= <-]. done.
    + intros [_ ->]. done.
    + intros [? _]. done.
Qed.

Lemma slice_elems_length `{ArrayOf T} (sl : slice) h (elems : list T) :
  slice_elems sl h = Some elems → length elems = sl_len sl.
Proof.
  rewrite slice_elems_Some. destruct (sl_arr sl).
  - intros (c & w & _ & Hle & ->). rewrite length_take. lia.
  - by intros [-> ->].
Qed.

(** Reads survive any extension of the store. *)
Lemma slice_elems_mono `{ArrayOf T} (sl : slice) h h' (elems : list T) :
  h ⊆ h' → slice_elems sl h = Some elems → slice_elems sl h' = Some elems.
Proof.
  intros Hsub. rewrite !slice_elems_Some. destruct (sl_arr sl); [|done].
  intros (c & w & Ha & ?). exists c, w. split; [|done].
  by eapply lookup_weaken.
Qed.

End store.

(** ** append, unpackPayload and the loops *)

Section primitives.
Context `{!Externals}.
Implicit Types (h : gmap positive obj) (l s p : positive) (o : obj).

(** append returns a slice one element longer, held by a backing array
    that is either the old one, written in place, or a fresh one. *)
Lemma append_spec `{ArrayOf T} (sl : slice) (x : T) h elems :
  slice_elems sl h = Some elems →
  ∃ a c w,
    append sl x h
      = Some ({| sl_arr := Some a; sl_len := S (sl_len sl) |},
              <[a := mkArr c w]> h)
    ∧ (sl_arr sl = Some a ∨ h !! a = None)
    ∧ S (sl_len sl) ≤ length w
    ∧ take (S (sl_len sl)) w = elems ++ [x].
Proof.
  intros He. pose proof (slice_elems_length _ _ _ He) as Hlen.
  apply slice_elems_Some in He. unfold append.
  destruct (sl_arr sl) as [a|].
  - destruct He as (c & w & Ha & Hle & ->). munfold. simpl.
    rewrite Ha. simpl. rewrite unArr_mkArr. simpl.
    destruct (decide (length w < sl_len sl)); [lia|].
    destruct (decide (sl_len sl < c)).
    + erewrite store_Some by done. simpl.
      eexists a, c, _. split; [done|]. split; [by left|].
      split.
      * rewrite length_app, length_take. simpl. lia.
      * replace (S (sl_len sl)) with (sl_len sl + 1) by lia.
        rewrite take_app_add' by (rewrite length_take; lia). done.
    + simpl. eexists (fresh (dom h)), _, _. split; [done|].
      split; [right; apply fresh_lookup|].
      split.
      * rewrite length_app, length_take. simpl. lia.
      * apply take_ge. rewrite length_app, length_take. simpl. lia.
  - destruct He as [Hz ->]. munfold. simpl. rewrite Hz.
    eexists (fresh (dom h)), _, _. split; [done|].
    split; [right; apply fresh_lookup|]. simpl. split; [lia|done].
Qed.

Lemma append_elems `{ArrayOf T} (sl sl' : slice) (x : T) h h' elems :
  slice_elems sl h = Some elems →
  append sl x h = Some (sl', h') →
  slice_elems sl' h' = Some (elems ++ [x]).
Proof.
  intros He Ha. destruct (append_spec sl x h elems He)
    as (a & c & w & Heq & _ & Hle & Htake).
  rewrite Heq in Ha. injection Ha as <- <-.
  apply slice_elems_Some. simpl. exists c, w.
  by rewrite lookup_insert_eq.
Qed.

End primitives.

Section fields.
Context `{!Externals}.
Implicit Types (h : gmap positive obj) (l s p : positive) (o : obj).

Lemma update_spec s f h st :
  getState s h = Some st →
  update s f h = Some (tt, <[s := OState (f st)]> h).
Proof.
  intros Hst. unfold update. munfold. rewrite Hst.
  apply getState_Some in Hst. by erewrite store_Some.
Qed.

(** [s.f = append(s.f, x)]: the field gets the longer slice, the backing
    array is the old one or a fresh one, and nothing else is written. *)
Lemma append_field_spec `{ArrayOf T} s (x : T) get set h st elems :
  getState s h = Some st →
  slice_elems (get st) h = Some elems →
  ∃ a c w,
    append_field s x get set h
      = Some (tt, <[s := OState (set {| sl_arr := Some a;
                                        sl_len := S (sl_len (get st)) |} st)]>
                    (<[a := mkArr c w]> h))
    ∧ a ≠ s
    ∧ (sl_arr (get st) = Some a ∨ h !! a = None)
    ∧ S (sl_len (get st)) ≤ length w
    ∧ take (S (sl_len (get st))) w = elems ++ [x].
Proof.
  intros Hst He.
  destruct (append_spec (get st) x h elems He)
    as (a & c & w & Heq & Ha & Hle & Htake).
  assert (a ≠ s) as Hne.
  { intros ->. apply getState_Some in Hst. destruct Ha as [Ha|Ha].
    - apply slice_elems_Some in He. rewrite Ha in He.
      destruct He as (c' & w' & Hs & _). rewrite Hst in Hs.
      injection Hs as Hs. pose proof (mkArr_array c' w') as Harr.
      by rewrite <-Hs in Harr.
    - congruence. }
  exists a, c, w. split; [|done].
  unfold append_field. munfold. rewrite Hst, Heq.
  erewrite update_spec; [done|].
  apply getState_Some. rewrite lookup_insert_ne by done.
  by apply getState_Some.
Qed.

End fields.

(** ** Validation of requests *)

Section validation.
Context `{!Externals}.
Implicit Types (h : gmap positive obj) (l s p : positive) (o : obj).

Lemma RequestChange_invalid s h st t v err :
  getState s h = Some st →
  isValidRequest s (request t v) h = Some (Some err) →
  (t = StateAddCRS ∨ t = StateAddDKGComplaint) →
  RequestChange s t v h = Some (Some err, h).
Proof.
  intros Hst Hv Ht. unfold RequestChange. munfold.
  destruct Ht as [-> | ->]; simpl; rewrite Hst;
    destruct (State.local st); by rewrite Hv.
Qed.

Lemma isValidRequest_AddCRS s h st chain p round c :
  getState s h = Some st →
  slice_elems (State.crs st) h = Some chain →
  getCRSReq p h = Some {| crsAdditionRequest.Round := round;
                          crsAdditionRequest.CRS := c |} →
  (0 ≤ round)%Z →
  isValidRequest s (request StateAddCRS (PCRS p)) h =
    if decide (Z.of_nat (length chain) > round)%Z then
      stored ← chain !! Z.to_nat round;
      Some (Some (if (stored =? c)%Z then ErrDuplicatedChange else ErrForkedCRS))
    else if decide (Z.of_nat (length chain) = round) then Some None
    else Some (Some ErrMissingPreviousCRS).
Proof.
  intros Hst Hchain Hp Hround. unfold isValidRequest. simpl.
  rewrite Hst. simpl. rewrite Hp. simpl.
  rewrite <-(slice_elems_length _ _ _ Hchain).
  destruct (decide (Z.of_nat (length chain) > round)%Z); [|done].
  unfold slice_index. rewrite Hchain. simpl.
  destruct (chain !! Z.to_nat round) as [stored|]; [|done]. simpl.
  by destruct (stored =? c)%Z.
Qed.

(** C2: an AddCRS request submitted through RequestChange in local mode,
    on a state whose CRS chain has length L.  For round < L it returns
    ForkedCRS when the stored CRS differs from the proposed one and
    DuplicatedChange when it is equal; for round > L it returns
    MissingPreviousCRS; for round = L it succeeds, the chain grows by
    exactly one entry and CRS(round) is the proposed hash afterwards. *)
Theorem RequestChange_AddCRS_local s h st chain p round c :
  getState s h = Some st →
  State.local st = true →
  slice_elems (State.crs st) h = Some chain →
  getCRSReq p h = Some {| crsAdditionRequest.Round := round;
                          crsAdditionRequest.CRS := c |} →
  (0 ≤ round)%Z →
  ((round < Z.of_nat (length chain))%Z →
     ∃ stored, chain !! Z.to_nat round = Some stored ∧
       RequestChange s StateAddCRS (PCRS p) h
       = Some (Some (if (stored =? c)%Z then ErrDuplicatedChange
                     else ErrForkedCRS), h))
  ∧ ((round > Z.of_nat (length chain))%Z →
       RequestChange s StateAddCRS (PCRS p) h
       = Some (Some ErrMissingPreviousCRS, h))
  ∧ (round = Z.of_nat (length chain) →
       ∃ h' st',
         RequestChange s StateAddCRS (PCRS p) h = Some (None, h')
         ∧ getState s h' = Some st'
         ∧ st' = State.set_crs (State.crs st') st
         ∧ sl_len (State.crs st') = S (sl_len (State.crs st))
         ∧ slice_elems (State.crs st') h' = Some (chain ++ [c])
         ∧ CRS s round h' = Some c).
Proof.
  intros Hst Hlocal Hchain Hp Hround.
  pose proof (isValidRequest_AddCRS _ _ _ _ _ _ _ Hst Hchain Hp Hround) as Hv.
  split; [|split].
  - intros Hlt. destruct (lookup_lt_is_Some_2 chain (Z.to_nat round))
      as [stored Hs]; [lia|].
    exists stored. split; [done|].
    apply (RequestChange_invalid _ _ st); [done| |by left].
    rewrite Hv. rewrite decide_True by lia. by rewrite Hs.
  - intros Hgt. apply (RequestChange_invalid _ _ st); [done| |by left].
    rewrite Hv. rewrite decide_False by lia. by rewrite decide_False by lia.
  - intros ->. rewrite decide_False in Hv by lia.
    rewrite decide_True in Hv by done.
    destruct (append_field_spec s c State.crs State.set_crs h st chain Hst Hchain)
      as (a & cap & w & Heq & Hne & Ha & Hle & Htake).
    eexists _, _. split; [|split; [|split; [|split; [|split]]]].
    + unfold RequestChange. munfold. simpl. rewrite Hst, Hlocal, Hv.
      unfold applyRequest. munfold. simpl. rewrite Hst, Hp. simpl.
      rewrite decide_False
        by (rewrite <-(slice_elems_length _ _ _ Hchain); tauto).
      by rewrite Heq.
    + apply getState_Some, lookup_insert_eq.
    + done.
    + done.
    + apply slice_elems_Some. simpl. exists cap, w.
      rewrite lookup_insert_ne, lookup_insert_eq by done. done.
    + unfold CRS. rewrite (proj2 (getState_Some _ _ _) (lookup_insert_eq _ _ _)).
      simpl. rewrite <-(slice_elems_length _ _ _ Hchain).
      rewrite decide_False by lia. unfold slice_index.
      erewrite (proj2 (slice_elems_Some _ _ (chain ++ [c]))).
      * simpl. rewrite Nat2Z.id. by rewrite lookup_app_r, Nat.sub_diag.
      * simpl. exists cap, w.
        rewrite lookup_insert_ne, lookup_insert_eq by done.
        rewrite (slice_elems_length _ _ _ Hchain). done.
Qed.




End validation.

(** ** Decoding a batch *)

(** Case analysis on a StateChangeType: the sixteen constants and the
    rest. *)
Ltac case_type t :=
  let q := fresh "q" in
  destruct t as [|q|q];
  [ | do 4 (try destruct q as [q|q|]) | ].

Definition decoded {A} (o : option A) : bool :=
  match o with Some _ => true | None => false end.

Section decoding.
Context `{!Externals}.
Implicit Types (h : gmap positive obj) (l s p : positive) (o : obj).

(** The codec table of the wire format: for the ordinals that carry a
    payload, whether the payload decodes as the type the table gives. *)
Definition decodesPerTable (t : Z) (b : bytes) : option bool :=
  match t with
  | StateAddCRS => Some (decoded (rlpDecodeCRS b))
  | StateAddDKGComplaint => Some (decoded (rlpDecodeDKG Complaint typesDKG.zero b))
  | StateAddDKGMasterPublicKey =>
      Some (decoded (rlpDecodeDKG MasterPublicKey typesDKG.zero b))
  | StateAddDKGFinal => Some (decoded (rlpDecodeDKG Finalize typesDKG.zero b))
  | StateChangeNumChains | StateChangePhiRatio | StateChangeNotarySetSize
  | StateChangeDKGSetSize => Some (decoded (rlpDecodeUint32 b))
  | StateChangeLambdaBA | StateChangeLambdaDKG | StateChangeRoundInterval
  | StateChangeMinBlockInterval | StateChangeMaxBlockInterval | StateChangeK =>
      Some (decoded (rlpDecodeUint64 b))
  | StateAddNode => Some (decoded (rlpDecodeBytes b))
  | _ => None
  end.

Lemma decodesPerTable_None t b :
  decodesPerTable t b = None ↔ ¬ (1 ≤ t ≤ 15)%Z.
Proof.
  unfold decodesPerTable. case_type t; split; try done; try lia.
  all: intros Hn; exfalso; apply Hn; lia.
Qed.

(** The error the decoding loop of Apply stops at, if any. *)
Fixpoint firstError (rawReqs : list rawStateChangeRequest.t) : option error :=
  match rawReqs with
  | [] => None
  | r :: rest =>
      match decodesPerTable (rawStateChangeRequest.Typ r)
              (rawStateChangeRequest.Payload r) with
      | None => Some ErrUnknownStateChangeType
      | Some false => Some ErrDecode
      | Some true => firstError rest
      end
  end.

Lemma firstError_unknown rawReqs :
  firstError rawReqs = Some ErrUnknownStateChangeType ↔
  ∃ pre r post,
    rawReqs = pre ++ r :: post
    ∧ Forall (λ x, decodesPerTable (rawStateChangeRequest.Typ x)
                     (rawStateChangeRequest.Payload x) = Some true) pre
    ∧ decodesPerTable (rawStateChangeRequest.Typ r)
        (rawStateChangeRequest.Payload r) = None.
Proof.
  induction rawReqs as [|x rest IH]; simpl.
  - split; [done|]. intros (pre & r & post & Heq & _). by destruct pre.
  - destruct (decodesPerTable _ _) as [[]|] eqn:Hx.
    + rewrite IH. split.
      * intros (pre & r & post & -> & Hpre & Hr).
        exists (x :: pre), r, post. split; [done|]. split; [|done].
        by constructor.
      * intros (pre & r & post & Heq & Hpre & Hr).
        destruct pre as [|y pre]; simplify_eq/=.
        exists pre, r, post. split; [done|]. split; [|done].
        by inversion Hpre.
    + split; [done|]. intros (pre & r & post & Heq & Hpre & Hr).
      destruct pre as [|y pre]; simplify_eq/=. inversion Hpre; congruence.
    + split; [|done]. intros _. by exists [], x, rest.
Qed.

Lemma unpackDKG_spec k b h :
  ∃ h1, h ⊆ h1 ∧
    unpackDKG k b h
    = Some (match rlpDecodeDKG k typesDKG.zero b with
            | Some d => inr (PDKG k (fresh (dom h)))
            | None => inl ErrDecode
            end, h1)
    ∧ h1 = <[fresh (dom h) :=
               ODKG k (default typesDKG.zero (rlpDecodeDKG k typesDKG.zero b))]> h.
Proof.
  unfold unpackDKG. munfold. simpl.
  destruct (rlpDecodeDKG k typesDKG.zero b) as [d|]; simpl.
  - erewrite store_Some by apply lookup_insert_eq. rewrite insert_insert_eq.
    eexists. split; [|done]. apply alloc_extends.
  - eexists. split; [|done]. apply alloc_extends.
Qed.

(** unpackPayload never panics, only allocates, and fails exactly as the
    codec table says. *)
Lemma unpackPayload_spec raw h :
  ∃ r h1,
    unpackPayload raw h = Some (r, h1) ∧ h ⊆ h1
    ∧ match decodesPerTable (rawStateChangeRequest.Typ raw)
              (rawStateChangeRequest.Payload raw) with
      | None => r = inl ErrUnknownStateChangeType
      | Some false => r = inl ErrDecode
      | Some true => ∃ v, r = inr v
      end.
Proof.
  destruct raw as [t b]. unfold unpackPayload, decodesPerTable. simpl.
  case_type t.
  all: try (eexists _, h; split; [reflexivity|]; split; [done|]; done).
  all: try (destruct (unpackDKG_spec Complaint b h) as (h1 & ? & -> & _);
            eexists _, h1; split; [reflexivity|]; split; [done|];
            destruct (rlpDecodeDKG _ _ _); simpl; eauto).
  all: try (destruct (unpackDKG_spec MasterPublicKey b h) as (h1 & ? & -> & _);
            eexists _, h1; split; [reflexivity|]; split; [done|];
            destruct (rlpDecodeDKG _ _ _); simpl; eauto).
  all: try (destruct (unpackDKG_spec Finalize b h) as (h1 & ? & -> & _);
            eexists _, h1; split; [reflexivity|]; split; [done|];
            destruct (rlpDecodeDKG _ _ _); simpl; eauto).
  all: try (unfold unpackUint32, unpackUint64; munfold;
            eexists _, h; split; [reflexivity|]; split; [done|];
            destruct (rlpDecodeUint32 b), (rlpDecodeUint64 b),
              (rlpDecodeBytes b); simpl; eauto).
  munfold. simpl. destruct (rlpDecodeCRS b) as [r|]; simpl.
  - erewrite store_Some by apply lookup_insert_eq. rewrite insert_insert_eq.
    eexists _, _. split; [reflexivity|]. split; [apply alloc_extends|]. eauto.
  - eexists _, _. split; [reflexivity|]. split; [apply alloc_extends|]. eauto.
Qed.

Lemma unpackRequests_spec rawReqs h :
  ∃ r h1,
    unpackRequests rawReqs h = Some (r, h1) ∧ h ⊆ h1
    ∧ match firstError rawReqs with
      | Some err => r = inl err
      | None => ∃ reqs, r = inr reqs
      end.
Proof.
  revert h. induction rawReqs as [|x rest IH]; intros h; simpl.
  - exists (inr []), h. munfold. eauto.
  - destruct (unpackPayload_spec x h) as (r & h1 & Hu & Hsub & Hr).
    munfold. rewrite Hu.
    destruct (decodesPerTable _ _) as [[]|].
    + destruct Hr as [v ->]. destruct (IH h1) as (r' & h2 & Hu' & Hsub' & Hr').
      rewrite Hu'. eexists _, h2. split; [reflexivity|].
      split; [by etrans|].
      destruct (firstError rest); [by subst|]. destruct Hr' as [reqs ->]. eauto.
    + subst r. by exists (inl ErrDecode), h1.
    + subst r. by exists (inl ErrUnknownStateChangeType), h1.
Qed.

End decoding.

Section apply_errors.
Context `{!Externals}.
Implicit Types (h : gmap positive obj) (l s p : positive) (o : obj).

(** The only errors applyRequest returns. *)
Lemma applyRequest_errors s req h err h' :
  applyRequest s req h = Some (Some err, h') →
  err = ErrKeyParse ∨ err = ErrDuplicatedChange ∨ err = ErrKiddingMe.
Proof.
  unfold applyRequest, applyDKGRecord. munfold.
  destruct (getState s h) as [st|]; [|done].
  destruct req as [t v]. simpl.
  case_type t; destruct v as [| | | | | | | |[] ?]; simpl;
    intros Heq; repeat case_match; simplify_eq; eauto.
Qed.

Lemma for_err_applyRequest_errors s reqs h err h' :
  for_err reqs (applyRequest s) h = Some (Some err, h') →
  err = ErrKeyParse ∨ err = ErrDuplicatedChange ∨ err = ErrKiddingMe.
Proof.
  revert h. induction reqs as [|req reqs IH]; intros h; simpl; munfold.
  - done.
  - destruct (applyRequest s req h) as [[[e|] h1]|] eqn:Ha; [| |done].
    + intros [= <- <-]. by eapply applyRequest_errors.
    + apply IH.
Qed.

(** C8 (amended): Apply reports UnknownStateChangeType exactly when the
    outer batch decodes and the first element that cannot be unpacked
    carries an ordinal the codec table has no row for, that is, 0
    (StateChangeNothing) or an ordinal above 15; every element before it
    carries an ordinal from 1 to 15 and its payload decodes as the table
    says. *)
Theorem Apply_unknown_type s bs h :
  (∃ h', Apply s bs h = Some (Some ErrUnknownStateChangeType, h')) ↔
  ∃ rawReqs pre r post,
    rlpDecodeRequests bs = Some rawReqs
    ∧ rawReqs = pre ++ r :: post
    ∧ Forall (λ x, decodesPerTable (rawStateChangeRequest.Typ x)
                     (rawStateChangeRequest.Payload x) = Some true) pre
    ∧ ¬ (1 ≤ rawStateChangeRequest.Typ r ≤ 15)%Z.
Proof.
  unfold Apply. split.
  - intros [h' Ha]. destruct (rlpDecodeRequests bs) as [rawReqs|]; [|done].
    destruct (unpackRequests_spec rawReqs h) as (r & h1 & Hu & _ & Hr).
    revert Ha. munfold. rewrite Hu.
    destruct (firstError rawReqs) as [err|] eqn:Hfirst.
    + subst r. intros [= -> <-].
      apply firstError_unknown in Hfirst
        as (pre & x & post & Heq & Hpre & Hx).
      exists rawReqs, pre, x, post. by rewrite <-decodesPerTable_None.
    + destruct Hr as [reqs ->]. intros Ha.
      apply for_err_applyRequest_errors in Ha as [|[|]]; done.
  - intros (rawReqs & pre & x & post & -> & Heq & Hpre & Hx).
    destruct (unpackRequests_spec rawReqs h) as (r & h1 & Hu & _ & Hr).
    assert (firstError rawReqs = Some ErrUnknownStateChangeType) as Hfirst.
    { apply firstError_unknown. exists pre, x, post.
      by rewrite decodesPerTable_None. }
    rewrite Hfirst in Hr. subst r. exists h1. munfold. by rewrite Hu.
Qed.

(** C10: when Apply fails because the outer batch or the payload of one of
    its elements does not decode (an unrecognized ordinal included), no
    request has been applied: every object of the store, the state and all
    it refers to, is as before.  The payloads are all decoded before the
    first request is applied; decoding only allocates. *)
Theorem Apply_decode_failure_unchanged s bs h :
  (rlpDecodeRequests bs = None → Apply s bs h = Some (Some ErrDecode, h))
  ∧ (∀ rawReqs, rlpDecodeRequests bs = Some rawReqs →
       ∃ r h1,
         unpackRequests rawReqs h = Some (r, h1)
         ∧ (∀ l o, h !! l = Some o → h1 !! l = Some o)
         ∧ (∀ err, r = inl err →
              Apply s bs h = Some (Some err, h1)
              ∧ ∀ st, getState s h = Some st → getState s h1 = Some st)).
Proof.
  unfold Apply. split.
  - by intros ->.
  - intros rawReqs ->.
    destruct (unpackRequests_spec rawReqs h) as (r & h1 & Hu & Hsub & Hr).
    exists r, h1. split; [done|]. split.
    + intros l o Hl. by eapply lookup_weaken.
    + intros err ->. munfold. rewrite Hu. split; [done|].
      intros st Hst. apply getState_Some. apply getState_Some in Hst.
      by eapply lookup_weaken.
Qed.

End apply_errors.

(** ** NewState *)

Lemma to_int64_small z : (- 2 ^ 63 ≤ z < 2 ^ 63)%Z → to_int64 z = z.
Proof. intros Hz. unfold to_int64. rewrite Z.mod_small; lia. Qed.

Lemma to_uint32_small z : (0 ≤ z < 2 ^ 32)%Z → to_uint32 z = z.
Proof. intros Hz. unfold to_uint32. rewrite Z.mod_small; lia. Qed.

Lemma to_int64_to_uint64 z : (- 2 ^ 63 ≤ z < 2 ^ 63)%Z → to_int64 (to_uint64 z) = z.
Proof.
  intros Hz. unfold to_int64, to_uint64.
  rewrite Zplus_mod_idemp_l. rewrite Z.mod_small; lia.
Qed.

Section construction.
Context `{!Externals}.
Implicit Types (h : gmap positive obj) (l s p : positive) (o : obj).

(** The node map NewState builds. *)
Definition nodeMap (keys : list PublicKey) : gmap Z PublicKey :=
  foldl (λ m key, <[NewNodeID key := key]> m) ∅ keys.

Lemma dom_foldl_nodes (keys : list PublicKey) (m : gmap Z PublicKey) :
  dom (foldl (λ m key, <[NewNodeID key := key]> m) m keys)
  = list_to_set (NewNodeID <$> keys) ∪ dom m.
Proof.
  revert m. induction keys as [|key keys IH]; intros m; simpl.
  - set_solver.
  - rewrite IH, dom_insert_L. set_solver.
Qed.

Lemma for_each_nodes_set nodes (keys : list PublicKey) h m :
  h !! nodes = Some (ONodes m) →
  for_each keys (λ key, nodes_set nodes (NewNodeID key) key) h
  = Some (tt, <[nodes := ONodes (foldl (λ m key, <[NewNodeID key := key]> m) m keys)]> h).
Proof.
  revert h m. induction keys as [|key keys IH]; intros h m Hn; simpl.
  - munfold. by rewrite insert_id.
  - munfold. unfold nodes_set. munfold.
    rewrite (proj2 (getNodes_Some _ _ _) Hn). erewrite store_Some by done.
    erewrite IH by apply lookup_insert_eq. by rewrite insert_insert_eq.
Qed.

(** C3 (amended): the state returned by NewState has lambdaBA = lambda,
    lambdaDKG = 10*lambda, roundInterval = 10000*lambda and
    maxBlockInterval = 8*lambda (products of Go's int64 arithmetic, exact
    whenever 10000*lambda fits), minBlockInterval = 1 ms, phiRatio = 0.667,
    k = 0; numChains, notarySetSize and dkgSetSize are the size of the node
    set, the number of distinct node IDs among nodePubKeys as a uint32,
    which is |nodePubKeys| when the keys have pairwise distinct node IDs;
    the CRS chain holds exactly one entry and CRS(0) is
    keccak256("__ DEXON"). *)
Theorem NewState_spec (keys : list PublicKey) (lambda : Z) (local : bool) h :
  ∃ s h' st,
    NewState keys lambda local h = Some (s, h')
    ∧ getState s h' = Some st
    ∧ State.local st = local
    ∧ State.lambdaBA st = lambda
    ∧ State.lambdaDKG st = to_int64 (lambda * 10)
    ∧ State.roundInterval st = to_int64 (lambda * 10000)
    ∧ State.maxBlockInterval st = to_int64 (lambda * 8)
    ∧ ((0 ≤ lambda)%Z → (lambda * 10000 < 2 ^ 63)%Z →
         State.lambdaDKG st = (10 * lambda)%Z
         ∧ State.roundInterval st = (10000 * lambda)%Z
         ∧ State.maxBlockInterval st = (8 * lambda)%Z)
    ∧ State.minBlockInterval st = 1000000%Z
    ∧ State.phiRatio st = 0x3f2ac083%Z
    ∧ State.k st = 0%Z
    ∧ getNodes (State.nodes st) h' = Some (nodeMap keys)
    ∧ dom (nodeMap keys) = list_to_set (NewNodeID <$> keys)
    ∧ State.numChains st = to_uint32 (Z.of_nat (size (nodeMap keys)))
    ∧ State.notarySetSize st = State.numChains st
    ∧ State.dkgSetSize st = State.numChains st
    ∧ (NoDup (NewNodeID <$> keys) → (Z.of_nat (length keys) < 2 ^ 32)%Z →
         State.numChains st = Z.of_nat (length keys))
    ∧ slice_elems (State.crs st) h'
      = Some [Keccak256Hash (list_byte_of_string "__ DEXON")]
    ∧ CRS s 0 h' = Some (Keccak256Hash (list_byte_of_string "__ DEXON")).
Proof.
  unfold NewState. munfold. simpl.
  erewrite for_each_nodes_set by apply lookup_insert_eq.
  rewrite insert_insert_eq. fold (nodeMap keys).
  set (n := fresh (dom h)). set (h1 := <[n := ONodes (nodeMap keys)]> h).
  rewrite (proj2 (getNodes_Some n h1 _) (lookup_insert_eq _ _ _)). simpl.
  set (a := fresh (dom h1)). set (h2 := <[a := _]> h1).
  set (c := fresh (dom h2)). set (h3 := <[c := _]> h2).
  set (f := fresh (dom h3)). set (h4 := <[f := _]> h3).
  set (d := fresh (dom h4)). set (h5 := <[d := _]> h4).
  set (m := fresh (dom h5)). set (h6 := <[m := _]> h5).
  set (s := fresh (dom h6)).
  assert (h1 ⊆ h6) as Hsub.
  { etrans; [apply alloc_extends|]. etrans; [apply alloc_extends|].
    etrans; [apply alloc_extends|]. etrans; [apply alloc_extends|].
    apply alloc_extends. }
  eexists s, _, _. split; [reflexivity|].
  match goal with |- context [getState s ?hh] => set (h7 := hh) end.
  assert (h2 ⊆ h7) as Hsub2.
  { etrans; [apply alloc_extends|]. etrans; [apply alloc_extends|].
    etrans; [apply alloc_extends|]. etrans; [apply alloc_extends|].
    apply alloc_extends. }
  split; [apply getState_Some, lookup_insert_eq|]. simpl.
  assert (slice_elems (T:=Z) {| sl_arr := Some a; sl_len := 1 |} h7
          = Some [Keccak256Hash (list_byte_of_string "__ DEXON")]) as Hcrs.
  { eapply slice_elems_mono; [apply Hsub2|].
    apply slice_elems_Some. simpl. eexists 1, _.
    split; [apply lookup_insert_eq|]. simpl. split; [lia|done]. }
  repeat split; try done.
  - rewrite to_int64_small by lia. lia.
  - rewrite to_int64_small by lia. lia.
  - rewrite to_int64_small by lia. lia.
  - apply getNodes_Some. eapply lookup_weaken; [apply lookup_insert_eq|].
    etrans; [apply Hsub|]. apply alloc_extends.
  - unfold nodeMap. rewrite dom_foldl_nodes. set_solver.
  - intros Hnd Hlt.
    assert (size (nodeMap keys) = length keys) as ->.
    { rewrite <-size_dom. unfold nodeMap. rewrite dom_foldl_nodes.
      rewrite dom_empty_L, union_empty_r_L. rewrite size_list_to_set by done.
      by rewrite length_fmap. }
    apply to_uint32_small. lia.
  - unfold CRS.
    assert (getState s h7 = Some _) as -> by apply getState_Some, lookup_insert_eq.
    simpl. unfold slice_index. by rewrite Hcrs.
Qed.

End construction.

(** ** PackRequests *)

Section packing.
Context `{!Externals}.
Implicit Types (h : gmap positive obj) (l s p : positive) (o : obj).

Lemma slice_elems_insert_ne `{ArrayOf T} (sl : slice) k o h :
  sl_arr sl ≠ Some k →
  slice_elems (T:=T) sl (<[k := o]> h) = slice_elems sl h.
Proof.
  intros Hne. unfold slice_elems. destruct (sl_arr sl) as [a|]; [|done].
  rewrite lookup_insert_ne; [done|]. congruence.
Qed.

Lemma slice_arr_not `{ArrayOf T} (sl : slice) (elems : list T) k h :
  slice_elems sl h = Some elems →
  match h !! k with Some o => is_array o = false | None => True end →
  sl_arr sl ≠ Some k.
Proof.
  intros He Hk Heq. apply slice_elems_Some in He. rewrite Heq in He.
  destruct He as (c & w & Ha & _). rewrite Ha in Hk.
  by rewrite mkArr_array in Hk.
Qed.

Lemma reify_insert_ne v k o h r :
  reify v h = Some r →
  match h !! k with
  | Some (OCRSReq _ | ODKG _ _) => False
  | _ => True
  end →
  reify v (<[k := o]> h) = Some r.
Proof.
  intros Hr Hk. destruct v; try done; simpl in *.
  - destruct (getCRSReq p h) as [x|] eqn:Hp; [|done].
    apply getCRSReq_Some in Hp.
    assert (p ≠ k) by (intros ->; by rewrite Hp in Hk).
    unfold getCRSReq in *. rewrite lookup_insert_ne by done. by rewrite Hp.
  - destruct (getDKG k0 p h) as [x|] eqn:Hp; [|done].
    apply getDKG_Some in Hp.
    assert (p ≠ k) by (intros ->; by rewrite Hp in Hk).
    rewrite <-Hr. f_equal. unfold getDKG. rewrite lookup_insert_ne by done.
    rewrite Hp. by rewrite decide_True.
Qed.

Lemma reifyRequest_insert_ne req k o h r :
  reifyRequest req h = Some r →
  match h !! k with
  | Some (OCRSReq _ | ODKG _ _) => False
  | _ => True
  end →
  reifyRequest req (<[k := o]> h) = Some r.
Proof.
  unfold reifyRequest. intros Hr Hk.
  destruct (reify _ h) as [v|] eqn:Hv; [|done].
  by erewrite reify_insert_ne.
Qed.

(** What PackRequests does to the store and what it hands to the encoder. *)
Lemma PackRequests_spec s h st configs nodes comps finals mpks crss
    reified :
  (∀ m, rangeConfigs m ≡ₚ map_to_list m) →
  getState s h = Some st →
  getConfigs (State.pendingChangedConfigs st) h = Some configs →
  slice_elems (State.pendingNodes st) h = Some nodes →
  slice_elems (State.pendingDKGComplaints st) h = Some comps →
  slice_elems (State.pendingDKGFinals st) h = Some finals →
  slice_elems (State.pendingDKGMasterPublicKeys st) h = Some mpks →
  slice_elems (State.pendingCRS st) h = Some crss →
  mapM (λ req, reifyRequest req h)
    (((λ '(t, v), request t v) <$> rangeConfigs configs)
     ++ ((λ b, request StateAddNode (PBytes b)) <$> nodes)
     ++ ((λ p, request StateAddDKGComplaint (PDKG Complaint p)) <$> comps)
     ++ ((λ p, request StateAddDKGFinal (PDKG Finalize p)) <$> finals)
     ++ ((λ p, request StateAddDKGMasterPublicKey (PDKG MasterPublicKey p))
           <$> mpks)
     ++ ((λ p, request StateAddCRS (PCRS p)) <$> crss)) = Some reified →
  ∃ h' st' changes,
    changes ≡ₚ map_to_list configs
    ∧ packRequests s h
      = Some (((λ '(t, v), request t v) <$> changes)
              ++ ((λ b, request StateAddNode (PBytes b)) <$> nodes)
              ++ ((λ p, request StateAddDKGComplaint (PDKG Complaint p))
                    <$> comps)
              ++ ((λ p, request StateAddDKGFinal (PDKG Finalize p))
                    <$> finals)
              ++ ((λ p, request StateAddDKGMasterPublicKey
                          (PDKG MasterPublicKey p)) <$> mpks)
              ++ ((λ p, request StateAddCRS (PCRS p)) <$> crss), h')
    ∧ PackRequests s h
      = Some (match rlpEncodeRequests reified with
              | Some b => inr b
              | None => inl ErrDecode
              end, h')
    ∧ getState s h' = Some st'
    ∧ st' = State.set_pendingChangedConfigs (State.pendingChangedConfigs st') st
    ∧ getConfigs (State.pendingChangedConfigs st') h' = Some ∅
    ∧ slice_elems (State.pendingNodes st') h' = Some nodes
    ∧ slice_elems (State.pendingDKGComplaints st') h' = Some comps
    ∧ slice_elems (State.pendingDKGFinals st') h' = Some finals
    ∧ slice_elems (State.pendingDKGMasterPublicKeys st') h' = Some mpks
    ∧ slice_elems (State.pendingCRS st') h' = Some crss
    ∧ (∀ l o, l ≠ s → h !! l = Some o → h' !! l = Some o).
Proof.
  intros Hrange Hst Hcfg Hn Hc Hf Hm Hcrs Hre.
  set (f := fresh (dom h)).
  set (st' := State.set_pendingChangedConfigs f st).
  set (h' := <[s := OState st']> (<[f := OConfigs ∅]> h)).
  assert (h !! f = None) as Hfr by apply fresh_lookup.
  assert (f ≠ s) as Hfs.
  { intros Heq. apply getState_Some in Hst. congruence. }
  assert (∀ T (A : ArrayOf T) (sl : slice) (elems : list T),
            slice_elems sl h = Some elems → slice_elems sl h' = Some elems)
    as Hkeep.
  { intros T A sl elems He. unfold h'.
    assert (sl_arr sl ≠ Some f) as Hne1
      by (eapply slice_arr_not; [exact He|by rewrite Hfr]).
    assert (sl_arr sl ≠ Some s) as Hne2.
    { eapply slice_arr_not; [exact He|].
      apply getState_Some in Hst. by rewrite Hst. }
    by rewrite !slice_elems_insert_ne. }
  assert (packRequests s h = Some
    (((λ '(t, v), request t v) <$> rangeConfigs configs)
     ++ ((λ b, request StateAddNode (PBytes b)) <$> nodes)
     ++ ((λ p, request StateAddDKGComplaint (PDKG Complaint p)) <$> comps)
     ++ ((λ p, request StateAddDKGFinal (PDKG Finalize p)) <$> finals)
     ++ ((λ p, request StateAddDKGMasterPublicKey (PDKG MasterPublicKey p))
           <$> mpks)
     ++ ((λ p, request StateAddCRS (PCRS p)) <$> crss), h')) as Hpack.
  { unfold packRequests. munfold. rewrite Hst. simpl. rewrite Hcfg. simpl.
    erewrite update_spec; cycle 1.
    { apply getState_Some. rewrite lookup_insert_ne by done.
      by apply getState_Some. }
    fold f st' h'.
    rewrite (Hkeep _ _ _ _ Hn), (Hkeep _ _ _ _ Hc), (Hkeep _ _ _ _ Hf),
      (Hkeep _ _ _ _ Hm), (Hkeep _ _ _ _ Hcrs).
    by rewrite <-!app_assoc. }
  exists h', st', (rangeConfigs configs).
  split; [done|]. split; [done|]. split.
  - unfold PackRequests. munfold. rewrite Hpack.
    assert (mapM (λ req, reifyRequest req h')
              (((λ '(t, v), request t v) <$> rangeConfigs configs)
               ++ ((λ b, request StateAddNode (PBytes b)) <$> nodes)
               ++ ((λ p, request StateAddDKGComplaint (PDKG Complaint p))
                     <$> comps)
               ++ ((λ p, request StateAddDKGFinal (PDKG Finalize p))
                     <$> finals)
               ++ ((λ p, request StateAddDKGMasterPublicKey
                           (PDKG MasterPublicKey p)) <$> mpks)
               ++ ((λ p, request StateAddCRS (PCRS p)) <$> crss))
            = Some reified) as ->; [|done].
    apply mapM_Some. apply mapM_Some in Hre.
    eapply Forall2_impl; [done|]. intros req r Hreq. simpl in Hreq. unfold h'.
    apply reifyRequest_insert_ne.
    + apply reifyRequest_insert_ne; [done|]. by rewrite Hfr.
    + rewrite lookup_insert_ne by done.
      apply getState_Some in Hst. by rewrite Hst.
  - split; [apply getState_Some, lookup_insert_eq|].
    split; [done|]. split.
    { apply getConfigs_Some. unfold h'. simpl.
      rewrite lookup_insert_ne by done. apply lookup_insert_eq. }
    repeat split; try by apply Hkeep.
    intros l o Hl Hlo. unfold h'. rewrite lookup_insert_ne by done.
    rewrite lookup_insert_ne; [done|]. intros <-. congruence.
Qed.

(** C7: PackRequests leaves the state with an empty pending
    configuration map and with the pending node, complaint, final,
    master-public-key and CRS sequences exactly as they were; the packed
    batch lists the pending configuration changes first (each entry of the
    map once), then the pending nodes, complaints, finals, master public
    keys and CRS additions, each in insertion order.  Nothing but the
    state's reference to its configuration map is written. *)
Theorem PackRequests_frame s h st configs nodes comps finals mpks crss
    reified :
  (∀ m, rangeConfigs m ≡ₚ map_to_list m) →
  getState s h = Some st →
  getConfigs (State.pendingChangedConfigs st) h = Some configs →
  slice_elems (State.pendingNodes st) h = Some nodes →
  slice_elems (State.pendingDKGComplaints st) h = Some comps →
  slice_elems (State.pendingDKGFinals st) h = Some finals →
  slice_elems (State.pendingDKGMasterPublicKeys st) h = Some mpks →
  slice_elems (State.pendingCRS st) h = Some crss →
  mapM (λ req, reifyRequest req h)
    (((λ '(t, v), request t v) <$> rangeConfigs configs)
     ++ ((λ b, request StateAddNode (PBytes b)) <$> nodes)
     ++ ((λ p, request StateAddDKGComplaint (PDKG Complaint p)) <$> comps)
     ++ ((λ p, request StateAddDKGFinal (PDKG Finalize p)) <$> finals)
     ++ ((λ p, request StateAddDKGMasterPublicKey (PDKG MasterPublicKey p))
           <$> mpks)
     ++ ((λ p, request StateAddCRS (PCRS p)) <$> crss)) = Some reified →
  ∃ h' st' changes,
    changes ≡ₚ map_to_list configs
    ∧ packRequests s h
      = Some (((λ '(t, v), request t v) <$> changes)
              ++ ((λ b, request StateAddNode (PBytes b)) <$> nodes)
              ++ ((λ p, request StateAddDKGComplaint (PDKG Complaint p))
                    <$> comps)
              ++ ((λ p, request StateAddDKGFinal (PDKG Finalize p))
                    <$> finals)
              ++ ((λ p, request StateAddDKGMasterPublicKey
                          (PDKG MasterPublicKey p)) <$> mpks)
              ++ ((λ p, request StateAddCRS (PCRS p)) <$> crss), h')
    ∧ PackRequests s h
      = Some (match rlpEncodeRequests reified with
              | Some b => inr b
              | None => inl ErrDecode
              end, h')
    ∧ getState s h' = Some st'
    ∧ st' = State.set_pendingChangedConfigs (State.pendingChangedConfigs st') st
    ∧ getConfigs (State.pendingChangedConfigs st') h' = Some ∅
    ∧ slice_elems (State.pendingNodes st') h' = Some nodes
    ∧ slice_elems (State.pendingDKGComplaints st') h' = Some comps
    ∧ slice_elems (State.pendingDKGFinals st') h' = Some finals
    ∧ slice_elems (State.pendingDKGMasterPublicKeys st') h' = Some mpks
    ∧ slice_elems (State.pendingCRS st') h' = Some crss
    ∧ (∀ l o, l ≠ s → h !! l = Some o → h' !! l = Some o).
Proof. apply PackRequests_spec. Qed.

End packing.

(** ** Configuration changes through RequestChange, PackRequests and Apply *)

Section roundtrip.
Context `{!Externals}.
Implicit Types (h : gmap positive obj) (l s p : positive) (o : obj).

(** A producer in replicated mode with nothing pending, and a consumer. *)
Definition idle_producer (a : loc) (sta : State.t) (h : gmap positive obj) : Prop :=
  getState a h = Some sta
  ∧ State.local sta = false
  ∧ getConfigs (State.pendingChangedConfigs sta) h = Some ∅
  ∧ slice_elems (T:=bytes) (State.pendingNodes sta) h = Some []
  ∧ slice_elems (T:=loc) (State.pendingDKGComplaints sta) h = Some []
  ∧ slice_elems (T:=loc) (State.pendingDKGFinals sta) h = Some []
  ∧ slice_elems (T:=loc) (State.pendingDKGMasterPublicKeys sta) h = Some []
  ∧ slice_elems (T:=loc) (State.pendingCRS sta) h = Some [].

(** A scalar configuration change [t] whose patched payload is [v],
    submitted to an idle producer, packed, and applied by a consumer whose
    decoder gives back [v]: the consumer's state is updated by what
    applyRequest does for [(t, v)]. *)
Lemma config_change_roundtrip a b h sta stb t v0 v bs raw upd :
  (∀ m, rangeConfigs m ≡ₚ map_to_list m) →
  idle_producer a sta h →
  getState b h = Some stb →
  a ≠ b →
  patchPayload t v0 = Some v →
  (v = PUint32 (match v with PUint32 n => n | _ => 0%Z end)
   ∨ v = PUint64 (match v with PUint64 n => n | _ => 0%Z end)) →
  (∀ h0, getState a h0 = Some sta →
         isValidRequest a (request t v) h0 = Some None) →
  (∀ st h0, isValidRequest a (request t v) h0 = Some None →
     getState a h0 = Some st → State.local st = false →
     RequestChange a t v0 h0
     = (_ ← configs_set (State.pendingChangedConfigs st) t v; mret None) h0) →
  (∀ h0, unpackPayload {| rawStateChangeRequest.Typ := t;
                          rawStateChangeRequest.Payload := raw |} h0
         = Some (inr v, h0)) →
  (∀ st h0, getState b h0 = Some st →
     applyRequest b (request t v) h0 = (_ ← update b upd; mret None) h0) →
  rlpEncodeRequests [(t, match v with
                         | PUint32 n => PUint32 n
                         | PUint64 n => PUint64 n
                         | _ => PUint32 0%Z
                         end)] = Some bs →
  rlpDecodeRequests bs = Some [{| rawStateChangeRequest.Typ := t;
                                  rawStateChangeRequest.Payload := raw |}] →
  ∃ h1 h2 h3 sta1,
    RequestChange a t v0 h = Some (None, h1)
    ∧ getState a h1 = Some sta1
    ∧ getConfigs (State.pendingChangedConfigs sta1) h1 = Some {[t := v]}
    ∧ PackRequests a h1 = Some (inr bs, h2)
    ∧ Apply b bs h2 = Some (None, h3)
    ∧ getState b h3 = Some (upd stb).
Proof.
  intros Hrange (Hst & Hlocal & Hcfg & Hn & Hc & Hf & Hm & Hcrs) Hb Hab
    Hpatch Hv Hvalid Hreq Hunpack Happly Henc Hdec.
  set (pcc := State.pendingChangedConfigs sta).
  set (h1 := <[pcc := OConfigs {[t := v]}]> h).
  assert (pcc ≠ a) as Hpa.
  { intros Heq. apply getState_Some in Hst. apply getConfigs_Some in Hcfg.
    unfold pcc in Heq. congruence. }
  assert (pcc ≠ b) as Hpb.
  { intros Heq. apply getState_Some in Hb. apply getConfigs_Some in Hcfg.
    unfold pcc in Heq. congruence. }
  assert (getState a h1 = Some sta) as Hst1.
  { apply getState_Some. unfold h1. rewrite lookup_insert_ne by done.
    by apply getState_Some. }
  assert (RequestChange a t v0 h = Some (None, h1)) as Hrc.
  { rewrite (Hreq sta) by auto. unfold configs_set. munfold.
    rewrite Hcfg. apply getConfigs_Some in Hcfg.
    erewrite store_Some by done. by rewrite insert_empty. }
  assert (∀ T (A : ArrayOf T) (sl : slice) (elems : list T),
            slice_elems sl h = Some elems → slice_elems sl h1 = Some elems)
    as Hkeep.
  { intros T A sl elems He. unfold h1.
    rewrite slice_elems_insert_ne; [done|].
    eapply slice_arr_not; [exact He|].
    apply getConfigs_Some in Hcfg. fold pcc in Hcfg. by rewrite Hcfg. }
  assert (rangeConfigs ({[t := v]} : gmap Z (payload loc loc)) = [(t, v)])
    as Hsingle.
  { apply Permutation_singleton_r. rewrite Hrange.
    by rewrite map_to_list_singleton. }
  destruct (PackRequests_spec a h1 sta {[t := v]} [] [] [] [] []
              [(t, match v with
                   | PUint32 n => PUint32 n
                   | PUint64 n => PUint64 n
                   | _ => PUint32 0%Z
                   end)])
    as (h2 & sta2 & changes & _ & _ & Hpack & Hst2 & _ & _ & _ & _ & _ & _ & _
        & Hframe); auto.
  { apply getConfigs_Some, lookup_insert_eq. }
  { rewrite Hsingle. simpl. by destruct Hv as [-> | ->]. }
  rewrite Henc in Hpack.
  assert (getState b h2 = Some stb) as Hb2.
  { apply getState_Some, Hframe; [done|]. unfold h1.
    rewrite lookup_insert_ne by done. by apply getState_Some. }
  exists h1, h2, (<[b := OState (upd stb)]> h2), sta.
  split; [done|]. split; [done|].
  split; [apply getConfigs_Some, lookup_insert_eq|].
  split; [done|]. split; [|apply getState_Some, lookup_insert_eq].
  unfold Apply. rewrite Hdec. simpl. munfold. rewrite Hunpack. simpl.
  munfold. fold (request t v). rewrite (Happly stb) by done.
  munfold. by erewrite update_spec.
Qed.

(** C9: a float32 submitted as ChangePhiRatio to a producer in replicated
    mode is stored as its IEEE-754 bit pattern (a uint32); packing the
    request and applying the bytes on another state leaves that state
    with a phiRatio of exactly the bits of the submitted value.  Likewise a
    signed k submitted as ChangeK is stored as the uint64 with the same
    two's-complement bits and comes back as k.  The codec is only asked
    to give back the uint it was given. *)
Theorem phiRatio_and_k_roundtrip a b h sta stb :
  (∀ m, rangeConfigs m ≡ₚ map_to_list m) →
  idle_producer a sta h →
  getState b h = Some stb →
  a ≠ b →
  (∀ f bs raw,
     rlpEncodeRequests [(StateChangePhiRatio, PUint32 (Float32bits f))]
       = Some bs →
     rlpDecodeRequests bs
       = Some [{| rawStateChangeRequest.Typ := StateChangePhiRatio;
                  rawStateChangeRequest.Payload := raw |}] →
     rlpDecodeUint32 raw = Some (Float32bits f) →
     ∃ h1 h2 h3 sta1 stb',
       RequestChange a StateChangePhiRatio (PFloat32 f) h = Some (None, h1)
       ∧ getState a h1 = Some sta1
       ∧ getConfigs (State.pendingChangedConfigs sta1) h1
         = Some {[StateChangePhiRatio := PUint32 (Float32bits f)]}
       ∧ PackRequests a h1 = Some (inr bs, h2)
       ∧ Apply b bs h2 = Some (None, h3)
       ∧ getState b h3 = Some stb'
       ∧ stb' = State.set_phiRatio f stb
       ∧ State.phiRatio stb' = f)
  ∧ (∀ k bs raw,
       (- 2 ^ 63 ≤ k < 2 ^ 63)%Z →
       rlpEncodeRequests [(StateChangeK, PUint64 (to_uint64 k))] = Some bs →
       rlpDecodeRequests bs
         = Some [{| rawStateChangeRequest.Typ := StateChangeK;
                    rawStateChangeRequest.Payload := raw |}] →
       rlpDecodeUint64 raw = Some (to_uint64 k) →
       ∃ h1 h2 h3 sta1 stb',
         RequestChange a StateChangeK (PInt k) h = Some (None, h1)
         ∧ getState a h1 = Some sta1
         ∧ getConfigs (State.pendingChangedConfigs sta1) h1
           = Some {[StateChangeK := PUint64 (to_uint64 k)]}
         ∧ PackRequests a h1 = Some (inr bs, h2)
         ∧ Apply b bs h2 = Some (None, h3)
         ∧ getState b h3 = Some stb'
         ∧ stb' = State.set_k k stb
         ∧ State.k stb' = k).
Proof.
  intros Hrange Hidle Hb Hab. split.
  - intros f bs raw Henc Hdec Hraw.
    destruct (config_change_roundtrip a b h sta stb StateChangePhiRatio
                (PFloat32 f) (PUint32 (Float32bits f)) bs raw
                (State.set_phiRatio (Float32frombits (Float32bits f))))
      as (h1 & h2 & h3 & sta1 & H1 & H2 & H3 & H4 & H5 & H6); auto.
    + intros h0 Hst. unfold isValidRequest. simpl. by rewrite Hst.
    + intros st h0 Hv Hst Hl. unfold RequestChange. munfold. simpl.
      by rewrite Hst, Hl, Hv.
    + intros h0. unfold unpackPayload, unpackUint32. simpl. munfold.
      by rewrite Hraw.
    + intros st h0 Hst. unfold applyRequest. munfold. by rewrite Hst.
    + by exists h1, h2, h3, sta1, (State.set_phiRatio f stb).
  - intros k bs raw Hk Henc Hdec Hraw.
    destruct (config_change_roundtrip a b h sta stb StateChangeK
                (PInt k) (PUint64 (to_uint64 k)) bs raw
                (State.set_k (to_int64 (to_uint64 k))))
      as (h1 & h2 & h3 & sta1 & H1 & H2 & H3 & H4 & H5 & H6); auto.
    + intros h0 Hst. unfold isValidRequest. simpl. by rewrite Hst.
    + intros st h0 Hv Hst Hl. unfold RequestChange. munfold. simpl.
      by rewrite Hst, Hl, Hv.
    + intros h0. unfold unpackPayload, unpackUint64. simpl. munfold.
      by rewrite Hraw.
    + intros st h0 Hst. unfold applyRequest. munfold. by rewrite Hst.
    + rewrite to_int64_to_uint64 in H6 by done.
      by exists h1, h2, h3, sta1, (State.set_k k stb).
Qed.

End roundtrip.

(** * Abstraction: footprints and views

    To compare two states, or a state before and after an operation, the
    store is read through a description of what a state owns: a [content]
    records, for every Go map and slice reachable from the [State] struct,
    where it lives and what it holds.  The [view] of a state is what remains
    once every pointer is replaced by the record it points to. *)

(** ** Map comparison, as Equal and reflect.DeepEqual do it *)

Definition gmap_eqb {V} (e : V → V → bool) (va vb : gmap Z V) : bool :=
  bool_decide (size va = size vb)
  && forallb (λ '(k, x), match vb !! k with Some y => e x y | None => false end)
       (map_to_list va).

Lemma gmap_eqb_spec {V} (e : V → V → bool) (va vb : gmap Z V) :
  gmap_eqb e va vb = true ↔
  size va = size vb
  ∧ ∀ k x, va !! k = Some x → ∃ y, vb !! k = Some y ∧ e x y = true.
Proof.
  unfold gmap_eqb. rewrite andb_true_iff, bool_decide_eq_true, forallb_forall.
  split; intros [Hsz Hall]; (split; [done|]).
  - intros k x Hk. specialize (Hall (k, x)). simpl in Hall.
    destruct (vb !! k) as [y|]; [exists y; split; [done|]|].
    + apply Hall. apply list_elem_of_In. by apply elem_of_map_to_list.
    + exfalso. assert (false = true); [|done].
      apply Hall. apply list_elem_of_In. by apply elem_of_map_to_list.
  - intros [k x] Hin. apply list_elem_of_In, elem_of_map_to_list in Hin.
    destruct (Hall k x Hin) as (y & -> & He). done.
Qed.

Lemma gmap_eqb_eq `{EqDecision V} (va vb : gmap Z V) :
  gmap_eqb (λ x y, bool_decide (x = y)) va vb = bool_decide (va = vb).
Proof.
  apply eq_true_iff_eq. rewrite gmap_eqb_spec, bool_decide_eq_true. split.
  - intros [Hsz Hall]. apply map_subseteq_size_eq; [|lia].
    apply map_subseteq_spec. intros k x Hk.
    destruct (Hall k x Hk) as (y & Hy & He).
    apply bool_decide_eq_true in He. by subst.
  - intros ->. split; [done|]. intros k x Hk. exists x.
    split; [done|]. by apply bool_decide_eq_true.
Qed.

Lemma all_ok_forallb {A} (l : list A) (f : A → option bool) (g : A → bool) :
  (∀ x, x ∈ l → f x = Some (g x)) → all_ok l f = Some (forallb g l).
Proof.
  induction l as [|x l IH]; intros Hf; simpl; [done|].
  rewrite (Hf x) by apply list_elem_of_here. simpl.
  destruct (g x); [|done]. apply IH. intros y Hy. apply Hf. by right.
Qed.

(** The heap-level comparison loop over two maps whose entries [x] are
    read through [π] computes the comparison of what they stand for,
    [G x]. *)
Lemma gmap_check {A CA V} (π : CA → A) (G : CA → V) (e : V → V → bool)
    (f : A → A → option bool) (ca cb : gmap Z CA) :
  (∀ k x y, ca !! k = Some x → cb !! k = Some y →
            f (π x) (π y) = Some (e (G x) (G y))) →
  (if decide (size (π <$> ca) ≠ size (π <$> cb)) then Some false
   else all_ok (map_to_list (π <$> ca)) (λ '(k, a),
          match (π <$> cb) !! k with
          | None => Some false
          | Some b => f a b
          end))
  = Some (gmap_eqb e (G <$> ca) (G <$> cb)).
Proof.
  intros Hf. unfold gmap_eqb. rewrite !map_size_fmap.
  destruct (decide (size ca ≠ size cb)) as [Hne|Heq].
  - by rewrite bool_decide_false.
  - rewrite bool_decide_true by lia. simpl.
    rewrite !map_to_list_fmap.
    assert (∀ kx, kx ∈ map_to_list ca → ca !! kx.1 = Some kx.2) as Hin.
    { intros [k x] Hkx. by apply elem_of_map_to_list. }
    induction (map_to_list ca) as [|[k x] l IH]; simpl; [done|].
    rewrite !lookup_fmap.
    pose proof (Hin (k, x) (list_elem_of_here _ _)) as Hk. simpl in Hk.
    destruct (cb !! k) as [y|] eqn:Hy; simpl; [|done].
    rewrite (Hf k x y) by done. simpl.
    destruct (e (G x) (G y)); [|done]. apply IH.
    intros kx Hkx. apply Hin. by right.
Qed.

Lemma gmap_check_id {A V} (G : A → V) (e : V → V → bool)
    (f : A → A → option bool) (ca cb : gmap Z A) :
  (∀ k x y, ca !! k = Some x → cb !! k = Some y →
            f x y = Some (e (G x) (G y))) →
  (if decide (size ca ≠ size cb) then Some false
   else all_ok (map_to_list ca) (λ '(k, a),
          match cb !! k with
          | None => Some false
          | Some b => f a b
          end))
  = Some (gmap_eqb e (G <$> ca) (G <$> cb)).
Proof.
  intros Hf. pose proof (gmap_check id G e f ca cb Hf) as Hc.
  by rewrite !map_fmap_id in Hc.
Qed.

(** ** What a state owns *)

(** The slice fields of [State]. *)
Inductive sfield :=
| FCrs | FPendingNodes | FPendingDKGComplaints | FPendingDKGFinals
| FPendingDKGMasterPublicKeys | FPendingCRS.

#[global] Instance sfield_eq_decision : EqDecision sfield.
Proof. solve_decision. Defined.

(** The role an object plays for a state: the struct itself, the node
    and configuration maps, the backing array of a slice field, the three
    outer DKG maps, their inner maps per round, and the backing array of
    the complaint sequence of a (round, proposer). *)
Inductive role :=
| RState | RNodes | RConfigs
| RSlice (f : sfield)
| ROuter (k : dkgKind)
| RInner (k : dkgKind) (round : Z)
| RArr (round : Z) (id : Z).

#[global] Instance role_eq_decision : EqDecision role.
Proof. solve_decision. Defined.

Record content := {
  c_nodes : gmap Z PublicKey;
  c_configs : gmap Z (payload loc loc);
  c_crs : list Z;
  c_pendingNodes : list bytes;
  c_pendingDKGComplaints : list loc;
  c_pendingDKGFinals : list loc;
  c_pendingDKGMasterPublicKeys : list loc;
  c_pendingCRS : list loc;
  (** round ↦ (inner map, proposer ↦ (slice, its elements)) *)
  c_complaints : gmap Z (loc * gmap Z (slice * list loc));
  (** round ↦ (inner map, its entries) *)
  c_mpks : gmap Z (loc * gmap Z loc);
  c_finals : gmap Z (loc * gmap Z loc)
}.

(** Changing one component of a content. *)
Definition set_c_nodes (v : gmap Z PublicKey) (c : content)
    : content :=
  {| c_nodes := v; c_configs := c_configs c; c_crs := c_crs c;
     c_pendingNodes := c_pendingNodes c;
     c_pendingDKGComplaints := c_pendingDKGComplaints c;
     c_pendingDKGFinals := c_pendingDKGFinals c;
     c_pendingDKGMasterPublicKeys := c_pendingDKGMasterPublicKeys c;
     c_pendingCRS := c_pendingCRS c; c_complaints := c_complaints c;
     c_mpks := c_mpks c; c_finals := c_finals c |}.

Definition set_c_configs (v : gmap Z (payload loc loc)) (c : content)
    : content :=
  {| c_nodes := c_nodes c; c_configs := v; c_crs := c_crs c;
     c_pendingNodes := c_pendingNodes c;
     c_pendingDKGComplaints := c_pendingDKGComplaints c;
     c_pendingDKGFinals := c_pendingDKGFinals c;
     c_pendingDKGMasterPublicKeys := c_pendingDKGMasterPublicKeys c;
     c_pendingCRS := c_pendingCRS c; c_complaints := c_complaints c;
     c_mpks := c_mpks c; c_finals := c_finals c |}.

Definition set_c_crs (v : list Z) (c : content)
    : content :=
  {| c_nodes := c_nodes c; c_configs := c_configs c; c_crs := v;
     c_pendingNodes := c_pendingNodes c;
     c_pendingDKGComplaints := c_pendingDKGComplaints c;
     c_pendingDKGFinals := c_pendingDKGFinals c;
     c_pendingDKGMasterPublicKeys := c_pendingDKGMasterPublicKeys c;
     c_pendingCRS := c_pendingCRS c; c_complaints := c_complaints c;
     c_mpks := c_mpks c; c_finals := c_finals c |}.

Definition set_c_pendingNodes (v : list bytes) (c : content)
    : content :=
  {| c_nodes := c_nodes c; c_configs := c_configs c; c_crs := c_crs c;
     c_pendingNodes := v;
     c_pendingDKGComplaints := c_pendingDKGComplaints c;
     c_pendingDKGFinals := c_pendingDKGFinals c;
     c_pendingDKGMasterPublicKeys := c_pendingDKGMasterPublicKeys c;
     c_pendingCRS := c_pendingCRS c; c_complaints := c_complaints c;
     c_mpks := c_mpks c; c_finals := c_finals c |}.

Definition set_c_pendingDKGComplaints (v : list loc) (c : content)
    : content :=
  {| c_nodes := c_nodes c; c_configs := c_configs c; c_crs := c_crs c;
     c_pendingNodes := c_pendingNodes c; c_pendingDKGComplaints := v;
     c_pendingDKGFinals := c_pendingDKGFinals c;
     c_pendingDKGMasterPublicKeys := c_pendingDKGMasterPublicKeys c;
     c_pendingCRS := c_pendingCRS c; c_complaints := c_complaints c;
     c_mpks := c_mpks c; c_finals := c_finals c |}.

Definition set_c_pendingDKGFinals (v : list loc) (c : content)
    : content :=
  {| c_nodes := c_nodes c; c_configs := c_configs c; c_crs := c_crs c;
     c_pendingNodes := c_pendingNodes c;
     c_pendingDKGComplaints := c_pendingDKGComplaints c;
     c_pendingDKGFinals := v;
     c_pendingDKGMasterPublicKeys := c_pendingDKGMasterPublicKeys c;
     c_pendingCRS := c_pendingCRS c; c_complaints := c_complaints c;
     c_mpks := c_mpks c; c_finals := c_finals c |}.

Definition set_c_pendingDKGMasterPublicKeys (v : list loc) (c : content)
    : content :=
  {| c_nodes := c_nodes c; c_configs := c_configs c; c_crs := c_crs c;
     c_pendingNodes := c_pendingNodes c;
     c_pendingDKGComplaints := c_pendingDKGComplaints c;
     c_pendingDKGFinals := c_pendingDKGFinals c;
     c_pendingDKGMasterPublicKeys := v; c_pendingCRS := c_pendingCRS c;
     c_complaints := c_complaints c; c_mpks := c_mpks c;
     c_finals := c_finals c |}.

Definition set_c_pendingCRS (v : list loc) (c : content)
    : content :=
  {| c_nodes := c_nodes c; c_configs := c_configs c; c_crs := c_crs c;
     c_pendingNodes := c_pendingNodes c;
     c_pendingDKGComplaints := c_pendingDKGComplaints c;
     c_pendingDKGFinals := c_pendingDKGFinals c;
     c_pendingDKGMasterPublicKeys := c_pendingDKGMasterPublicKeys c;
     c_pendingCRS := v; c_complaints := c_complaints c;
     c_mpks := c_mpks c; c_finals := c_finals c |}.

Definition set_c_complaints (v : gmap Z (loc * gmap Z (slice * list loc))) (c : content)
    : content :=
  {| c_nodes := c_nodes c; c_configs := c_configs c; c_crs := c_crs c;
     c_pendingNodes := c_pendingNodes c;
     c_pendingDKGComplaints := c_pendingDKGComplaints c;
     c_pendingDKGFinals := c_pendingDKGFinals c;
     c_pendingDKGMasterPublicKeys := c_pendingDKGMasterPublicKeys c;
     c_pendingCRS := c_pendingCRS c; c_complaints := v;
     c_mpks := c_mpks c; c_finals := c_finals c |}.

Definition set_c_mpks (v : gmap Z (loc * gmap Z loc)) (c : content)
    : content :=
  {| c_nodes := c_nodes c; c_configs := c_configs c; c_crs := c_crs c;
     c_pendingNodes := c_pendingNodes c;
     c_pendingDKGComplaints := c_pendingDKGComplaints c;
     c_pendingDKGFinals := c_pendingDKGFinals c;
     c_pendingDKGMasterPublicKeys := c_pendingDKGMasterPublicKeys c;
     c_pendingCRS := c_pendingCRS c; c_complaints := c_complaints c;
     c_mpks := v; c_finals := c_finals c |}.

Definition set_c_finals (v : gmap Z (loc * gmap Z loc)) (c : content)
    : content :=
  {| c_nodes := c_nodes c; c_configs := c_configs c; c_crs := c_crs c;
     c_pendingNodes := c_pendingNodes c;
     c_pendingDKGComplaints := c_pendingDKGComplaints c;
     c_pendingDKGFinals := c_pendingDKGFinals c;
     c_pendingDKGMasterPublicKeys := c_pendingDKGMasterPublicKeys c;
     c_pendingCRS := c_pendingCRS c; c_complaints := c_complaints c;
     c_mpks := c_mpks c; c_finals := v |}.

Definition field_slice (f : sfield) (st : State.t) : slice :=
  match f with
  | FCrs => State.crs st
  | FPendingNodes => State.pendingNodes st
  | FPendingDKGComplaints => State.pendingDKGComplaints st
  | FPendingDKGFinals => State.pendingDKGFinals st
  | FPendingDKGMasterPublicKeys => State.pendingDKGMasterPublicKeys st
  | FPendingCRS => State.pendingCRS st
  end.

Definition outer (k : dkgKind) (st : State.t) : loc :=
  match k with
  | Complaint => State.dkgComplaints st
  | MasterPublicKey => State.dkgMasterPublicKeys st
  | Finalize => State.dkgFinals st
  end.

Definition inner_loc (k : dkgKind) (c : content) (round : Z) : option loc :=
  match k with
  | Complaint => fst <$> c_complaints c !! round
  | MasterPublicKey => fst <$> c_mpks c !! round
  | Finalize => fst <$> c_finals c !! round
  end.

(** Where the object playing a role lives. *)
Definition role_at (s : loc) (st : State.t) (c : content) (ρ : role)
    : option loc :=
  match ρ with
  | RState => Some s
  | RNodes => Some (State.nodes st)
  | RConfigs => Some (State.pendingChangedConfigs st)
  | RSlice f => sl_arr (field_slice f st)
  | ROuter k => Some (outer k st)
  | RInner k round => inner_loc k c round
  | RArr round id =>
      forRound ← c_complaints c !! round;
      comps ← forRound.2 !! id;
      sl_arr comps.1
  end.

(** The store holds what the content describes. *)
Definition holds (s : loc) (st : State.t) (c : content)
    (h : gmap positive obj) : Prop :=
  getState s h = Some st
  ∧ getNodes (State.nodes st) h = Some (c_nodes c)
  ∧ getConfigs (State.pendingChangedConfigs st) h = Some (c_configs c)
  ∧ slice_elems (State.crs st) h = Some (c_crs c)
  ∧ slice_elems (State.pendingNodes st) h = Some (c_pendingNodes c)
  ∧ slice_elems (State.pendingDKGComplaints st) h
    = Some (c_pendingDKGComplaints c)
  ∧ slice_elems (State.pendingDKGFinals st) h = Some (c_pendingDKGFinals c)
  ∧ slice_elems (State.pendingDKGMasterPublicKeys st) h
    = Some (c_pendingDKGMasterPublicKeys c)
  ∧ slice_elems (State.pendingCRS st) h = Some (c_pendingCRS c)
  ∧ getRounds (State.dkgComplaints st) h = Some (fst <$> c_complaints c)
  ∧ map_Forall (λ _ forRound,
      getComplaintsOf forRound.1 h = Some (fst <$> forRound.2)
      ∧ map_Forall (λ _ comps, slice_elems comps.1 h = Some comps.2)
          forRound.2) (c_complaints c)
  ∧ getRounds (State.dkgMasterPublicKeys st) h = Some (fst <$> c_mpks c)
  ∧ map_Forall (λ _ forRound, getRecordOf forRound.1 h = Some forRound.2)
      (c_mpks c)
  ∧ getRounds (State.dkgFinals st) h = Some (fst <$> c_finals c)
  ∧ map_Forall (λ _ forRound, getRecordOf forRound.1 h = Some forRound.2)
      (c_finals c).

(** Every pointer the state holds points to a record of its type. *)
Definition valid (c : content) (h : gmap positive obj) : Prop :=
  map_Forall (λ _ v, is_Some (reify v h)) (c_configs c)
  ∧ Forall (λ p, is_Some (getDKG Complaint p h)) (c_pendingDKGComplaints c)
  ∧ Forall (λ p, is_Some (getDKG Finalize p h)) (c_pendingDKGFinals c)
  ∧ Forall (λ p, is_Some (getDKG MasterPublicKey p h))
      (c_pendingDKGMasterPublicKeys c)
  ∧ Forall (λ p, is_Some (getCRSReq p h)) (c_pendingCRS c)
  ∧ map_Forall (λ _ forRound,
      map_Forall (λ _ comps,
        Forall (λ p, is_Some (getDKG Complaint p h)) comps.2) forRound.2)
      (c_complaints c)
  ∧ map_Forall (λ _ forRound,
      map_Forall (λ _ p, is_Some (getDKG MasterPublicKey p h)) forRound.2)
      (c_mpks c)
  ∧ map_Forall (λ _ forRound,
      map_Forall (λ _ p, is_Some (getDKG Finalize p h)) forRound.2)
      (c_finals c).

(** No object plays two roles. *)
Definition separated (s : loc) (st : State.t) (c : content) : Prop :=
  ∀ ρ1 ρ2 l,
    role_at s st c ρ1 = Some l → role_at s st c ρ2 = Some l → ρ1 = ρ2.

(** Two states share no object. *)
Definition disjoint (s1 : loc) (st1 : State.t) (c1 : content)
    (s2 : loc) (st2 : State.t) (c2 : content) : Prop :=
  ∀ ρ1 ρ2 l,
    role_at s1 st1 c1 ρ1 = Some l → role_at s2 st2 c2 ρ2 = Some l → False.

(** The pending slices reflect.DeepEqual looks at are nil when empty:
    they start as nil and only grow by append. *)
Definition nil_when_empty (st : State.t) : Prop :=
  (sl_len (State.pendingCRS st) = 0 → sl_arr (State.pendingCRS st) = None)
  ∧ (sl_len (State.pendingNodes st) = 0
     → sl_arr (State.pendingNodes st) = None).

Definition wf (s : loc) (st : State.t) (c : content)
    (h : gmap positive obj) : Prop :=
  holds s st c h ∧ valid c h ∧ separated s st c ∧ nil_when_empty st.

(** ** Views *)

Record view := {
  v_scalars : State.t;
  v_nodes : gmap Z PublicKey;
  v_complaints : gmap Z (gmap Z (list typesDKG.t));
  v_mpks : gmap Z (gmap Z typesDKG.t);
  v_finals : gmap Z (gmap Z typesDKG.t);
  v_crs : list Z;
  v_configs : gmap Z (payload crsAdditionRequest.t typesDKG.t);
  v_pendingNodes : list bytes;
  v_pendingDKGComplaints : list typesDKG.t;
  v_pendingDKGFinals : list typesDKG.t;
  v_pendingDKGMasterPublicKeys : list typesDKG.t;
  v_pendingCRS : list crsAdditionRequest.t
}.

(** Changing one component of a view. *)
Definition set_v_scalars (x : State.t) (v : view)
    : view :=
  {| v_scalars := x; v_nodes := v_nodes v; v_complaints := v_complaints v;
     v_mpks := v_mpks v; v_finals := v_finals v; v_crs := v_crs v;
     v_configs := v_configs v; v_pendingNodes := v_pendingNodes v;
     v_pendingDKGComplaints := v_pendingDKGComplaints v;
     v_pendingDKGFinals := v_pendingDKGFinals v;
     v_pendingDKGMasterPublicKeys := v_pendingDKGMasterPublicKeys v;
     v_pendingCRS := v_pendingCRS v |}.

Definition set_v_nodes (x : gmap Z PublicKey) (v : view)
    : view :=
  {| v_scalars := v_scalars v; v_nodes := x; v_complaints := v_complaints v;
     v_mpks := v_mpks v; v_finals := v_finals v; v_crs := v_crs v;
     v_configs := v_configs v; v_pendingNodes := v_pendingNodes v;
     v_pendingDKGComplaints := v_pendingDKGComplaints v;
     v_pendingDKGFinals := v_pendingDKGFinals v;
     v_pendingDKGMasterPublicKeys := v_pendingDKGMasterPublicKeys v;
     v_pendingCRS := v_pendingCRS v |}.

Definition set_v_complaints (x : gmap Z (gmap Z (list typesDKG.t))) (v : view)
    : view :=
  {| v_scalars := v_scalars v; v_nodes := v_nodes v; v_complaints := x;
     v_mpks := v_mpks v; v_finals := v_finals v; v_crs := v_crs v;
     v_configs := v_configs v; v_pendingNodes := v_pendingNodes v;
     v_pendingDKGComplaints := v_pendingDKGComplaints v;
     v_pendingDKGFinals := v_pendingDKGFinals v;
     v_pendingDKGMasterPublicKeys := v_pendingDKGMasterPublicKeys v;
     v_pendingCRS := v_pendingCRS v |}.

Definition set_v_mpks (x : gmap Z (gmap Z typesDKG.t)) (v : view)
    : view :=
  {| v_scalars := v_scalars v; v_nodes := v_nodes v;
     v_complaints := v_complaints v; v_mpks := x; v_finals := v_finals v;
     v_crs := v_crs v; v_configs := v_configs v;
     v_pendingNodes := v_pendingNodes v;
     v_pendingDKGComplaints := v_pendingDKGComplaints v;
     v_pendingDKGFinals := v_pendingDKGFinals v;
     v_pendingDKGMasterPublicKeys := v_pendingDKGMasterPublicKeys v;
     v_pendingCRS := v_pendingCRS v |}.

Definition set_v_finals (x : gmap Z (gmap Z typesDKG.t)) (v : view)
    : view :=
  {| v_scalars := v_scalars v; v_nodes := v_nodes v;
     v_complaints := v_complaints v; v_mpks := v_mpks v; v_finals := x;
     v_crs := v_crs v; v_configs := v_configs v;
     v_pendingNodes := v_pendingNodes v;
     v_pendingDKGComplaints := v_pendingDKGComplaints v;
     v_pendingDKGFinals := v_pendingDKGFinals v;
     v_pendingDKGMasterPublicKeys := v_pendingDKGMasterPublicKeys v;
     v_pendingCRS := v_pendingCRS v |}.

Definition set_v_crs (x : list Z) (v : view)
    : view :=
  {| v_scalars := v_scalars v; v_nodes := v_nodes v;
     v_complaints := v_complaints v; v_mpks := v_mpks v;
     v_finals := v_finals v; v_crs := x; v_configs := v_configs v;
     v_pendingNodes := v_pendingNodes v;
     v_pendingDKGComplaints := v_pendingDKGComplaints v;
     v_pendingDKGFinals := v_pendingDKGFinals v;
     v_pendingDKGMasterPublicKeys := v_pendingDKGMasterPublicKeys v;
     v_pendingCRS := v_pendingCRS v |}.

Definition set_v_configs (x : gmap Z (payload crsAdditionRequest.t typesDKG.t)) (v : view)
    : view :=
  {| v_scalars := v_scalars v; v_nodes := v_nodes v;
     v_complaints := v_complaints v; v_mpks := v_mpks v;
     v_finals := v_finals v; v_crs := v_crs v; v_configs := x;
     v_pendingNodes := v_pendingNodes v;
     v_pendingDKGComplaints := v_pendingDKGComplaints v;
     v_pendingDKGFinals := v_pendingDKGFinals v;
     v_pendingDKGMasterPublicKeys := v_pendingDKGMasterPublicKeys v;
     v_pendingCRS := v_pendingCRS v |}.

Definition set_v_pendingNodes (x : list bytes) (v : view)
    : view :=
  {| v_scalars := v_scalars v; v_nodes := v_nodes v;
     v_complaints := v_complaints v; v_mpks := v_mpks v;
     v_finals := v_finals v; v_crs := v_crs v; v_configs := v_configs v;
     v_pendingNodes := x;
     v_pendingDKGComplaints := v_pendingDKGComplaints v;
     v_pendingDKGFinals := v_pendingDKGFinals v;
     v_pendingDKGMasterPublicKeys := v_pendingDKGMasterPublicKeys v;
     v_pendingCRS := v_pendingCRS v |}.

Definition set_v_pendingDKGComplaints (x : list typesDKG.t) (v : view)
    : view :=
  {| v_scalars := v_scalars v; v_nodes := v_nodes v;
     v_complaints := v_complaints v; v_mpks := v_mpks v;
     v_finals := v_finals v; v_crs := v_crs v; v_configs := v_configs v;
     v_pendingNodes := v_pendingNodes v; v_pendingDKGComplaints := x;
     v_pendingDKGFinals := v_pendingDKGFinals v;
     v_pendingDKGMasterPublicKeys := v_pendingDKGMasterPublicKeys v;
     v_pendingCRS := v_pendingCRS v |}.

Definition set_v_pendingDKGFinals (x : list typesDKG.t) (v : view)
    : view :=
  {| v_scalars := v_scalars v; v_nodes := v_nodes v;
     v_complaints := v_complaints v; v_mpks := v_mpks v;
     v_finals := v_finals v; v_crs := v_crs v; v_configs := v_configs v;
     v_pendingNodes := v_pendingNodes v;
     v_pendingDKGComplaints := v_pendingDKGComplaints v;
     v_pendingDKGFinals := x;
     v_pendingDKGMasterPublicKeys := v_pendingDKGMasterPublicKeys v;
     v_pendingCRS := v_pendingCRS v |}.

Definition set_v_pendingDKGMasterPublicKeys (x : list typesDKG.t) (v : view)
    : view :=
  {| v_scalars := v_scalars v; v_nodes := v_nodes v;
     v_complaints := v_complaints v; v_mpks := v_mpks v;
     v_finals := v_finals v; v_crs := v_crs v; v_configs := v_configs v;
     v_pendingNodes := v_pendingNodes v;
     v_pendingDKGComplaints := v_pendingDKGComplaints v;
     v_pendingDKGFinals := v_pendingDKGFinals v;
     v_pendingDKGMasterPublicKeys := x; v_pendingCRS := v_pendingCRS v |}.

Definition set_v_pendingCRS (x : list crsAdditionRequest.t) (v : view)
    : view :=
  {| v_scalars := v_scalars v; v_nodes := v_nodes v;
     v_complaints := v_complaints v; v_mpks := v_mpks v;
     v_finals := v_finals v; v_crs := v_crs v; v_configs := v_configs v;
     v_pendingNodes := v_pendingNodes v;
     v_pendingDKGComplaints := v_pendingDKGComplaints v;
     v_pendingDKGFinals := v_pendingDKGFinals v;
     v_pendingDKGMasterPublicKeys := v_pendingDKGMasterPublicKeys v;
     v_pendingCRS := x |}.

(** The scalar fields of a [State]: every reference is blanked. *)
Definition scalars (st : State.t) : State.t :=
  {| State.numChains := State.numChains st;
     State.lambdaBA := State.lambdaBA st;
     State.lambdaDKG := State.lambdaDKG st;
     State.k := State.k st;
     State.phiRatio := State.phiRatio st;
     State.notarySetSize := State.notarySetSize st;
     State.dkgSetSize := State.dkgSetSize st;
     State.roundInterval := State.roundInterval st;
     State.minBlockInterval := State.minBlockInterval st;
     State.maxBlockInterval := State.maxBlockInterval st;
     State.nodes := 1%positive;
     State.dkgComplaints := 1%positive;
     State.dkgMasterPublicKeys := 1%positive;
     State.dkgFinals := 1%positive;
     State.crs := nil_slice;
     State.local := State.local st;
     State.pendingChangedConfigs := 1%positive;
     State.pendingNodes := nil_slice;
     State.pendingDKGComplaints := nil_slice;
     State.pendingDKGFinals := nil_slice;
     State.pendingDKGMasterPublicKeys := nil_slice;
     State.pendingCRS := nil_slice |}.

Definition derefDKG (k : dkgKind) (h : gmap positive obj) (p : loc)
    : typesDKG.t :=
  default typesDKG.zero (getDKG k p h).

Definition derefCRS (h : gmap positive obj) (p : loc) : crsAdditionRequest.t :=
  default {| crsAdditionRequest.Round := 0; crsAdditionRequest.CRS := 0 |}
    (getCRSReq p h).

Definition derefPayload (h : gmap positive obj) (v : payload loc loc)
    : payload crsAdditionRequest.t typesDKG.t :=
  match v with
  | PPublicKey key => PPublicKey key
  | PDuration d => PDuration d
  | PInt i => PInt i
  | PFloat32 f => PFloat32 f
  | PUint32 n => PUint32 n
  | PUint64 n => PUint64 n
  | PBytes b => PBytes b
  | PCRS p => PCRS (derefCRS h p)
  | PDKG k p => PDKG k (derefDKG k h p)
  end.

Definition view_comps (h : gmap positive obj) (comps : slice * list loc)
    : list typesDKG.t :=
  derefDKG Complaint h <$> comps.2.

Definition view_complaintsOf (h : gmap positive obj)
    (forRound : loc * gmap Z (slice * list loc)) : gmap Z (list typesDKG.t) :=
  view_comps h <$> forRound.2.

Definition view_recordOf (k : dkgKind) (h : gmap positive obj)
    (forRound : loc * gmap Z loc) : gmap Z typesDKG.t :=
  derefDKG k h <$> forRound.2.

Definition view_of (st : State.t) (c : content) (h : gmap positive obj)
    : view :=
  {| v_scalars := scalars st;
     v_nodes := c_nodes c;
     v_complaints := view_complaintsOf h <$> c_complaints c;
     v_mpks := view_recordOf MasterPublicKey h <$> c_mpks c;
     v_finals := view_recordOf Finalize h <$> c_finals c;
     v_crs := c_crs c;
     v_configs := derefPayload h <$> c_configs c;
     v_pendingNodes := c_pendingNodes c;
     v_pendingDKGComplaints :=
       derefDKG Complaint h <$> c_pendingDKGComplaints c;
     v_pendingDKGFinals := derefDKG Finalize h <$> c_pendingDKGFinals c;
     v_pendingDKGMasterPublicKeys :=
       derefDKG MasterPublicKey h <$> c_pendingDKGMasterPublicKeys c;
     v_pendingCRS := derefCRS h <$> c_pendingCRS c |}.

(** reflect.DeepEqual on two payloads whose pointers have been followed. *)
Definition payload_deq (a b : payload crsAdditionRequest.t typesDKG.t) : bool :=
  match a, b with
  | PFloat32 x, PFloat32 y => float32_eq x y
  | _, _ => bool_decide (a = b)
  end.

Definition check (b : bool) (e : error) (k : option error) : option error :=
  if b then k else Some e.

(** Equal, on views. *)
Definition EqualAbs (a b : view) : option error :=
  check (configEqual (v_scalars a) (v_scalars b)) ErrStateConfigNotEqual $
  check (bool_decide (State.local (v_scalars a) = State.local (v_scalars b)))
    ErrStateLocalFlagNotEqual $
  check (bool_decide (v_nodes a = v_nodes b)) ErrStateNodeSetNotEqual $
  check (bool_decide (v_complaints a = v_complaints b))
    ErrStateDKGComplaintsNotEqual $
  check (bool_decide (v_mpks a = v_mpks b))
    ErrStateDKGMasterPublicKeysNotEqual $
  check (bool_decide (v_finals a = v_finals b)) ErrStateDKGFinalsNotEqual $
  check (bool_decide (v_crs a = v_crs b)) ErrStateCRSsNotEqual $
  check (gmap_eqb payload_deq (v_configs a) (v_configs b))
    ErrStatePendingChangesNotEqual $
  check (bool_decide (v_pendingCRS a = v_pendingCRS b))
    ErrStatePendingChangesNotEqual $
  check (bool_decide (v_pendingNodes a = v_pendingNodes b))
    ErrStatePendingChangesNotEqual $
  check (bool_decide (v_pendingDKGComplaints a = v_pendingDKGComplaints b))
    ErrStatePendingChangesNotEqual $
  check (bool_decide (v_pendingDKGFinals a = v_pendingDKGFinals b))
    ErrStatePendingChangesNotEqual $
  check (bool_decide (v_pendingDKGMasterPublicKeys a
                      = v_pendingDKGMasterPublicKeys b))
    ErrStatePendingChangesNotEqual $
  None.

(** ** Equal computes the comparison of the two views *)

Section equal.
Implicit Types (h : gmap positive obj) (l s p : positive) (o : obj).

Lemma zip_check {A V} `{EqDecision V} (F : A → V) (f : A → A → option bool)
    (la lb : list A) :
  length la = length lb →
  (∀ x y, x ∈ la → y ∈ lb → f x y = Some (bool_decide (F x = F y))) →
  all_ok (zip la lb) (λ '(x, y), f x y)
  = Some (bool_decide (F <$> la = F <$> lb)).
Proof.
  revert lb. induction la as [|x la IH]; intros [|y lb] Hlen Hf;
    simplify_eq/=; [done|].
  rewrite (Hf x y) by apply list_elem_of_here. simpl.
  destruct (decide (F x = F y)) as [Heq|Hne].
  - rewrite bool_decide_true by done. rewrite IH; [|done|].
    + f_equal. apply bool_decide_ext. rewrite Heq. split; [by intros ->|].
      by intros [= ->].
    + intros x' y' Hx Hy. apply Hf; by right.
  - rewrite bool_decide_false by done. f_equal. symmetry.
    apply bool_decide_eq_false. by intros [= ? ?].
Qed.

Lemma derefDKG_Some k h p d : getDKG k p h = Some d → derefDKG k h p = d.
Proof. unfold derefDKG. by intros ->. Qed.

Lemma derefCRS_Some h p r : getCRSReq p h = Some r → derefCRS h p = r.
Proof. unfold derefCRS. by intros ->. Qed.

Lemma fmap_length_ne {A B} (f : A → B) (la lb : list A) :
  length la ≠ length lb → f <$> la ≠ f <$> lb.
Proof. intros Hne Heq. apply Hne. by rewrite <-(length_fmap f la), Heq, length_fmap. Qed.

Lemma dkgSliceEqual_spec k (a b : slice) h pa pb :
  slice_elems a h = Some pa →
  slice_elems b h = Some pb →
  Forall (λ p, is_Some (getDKG k p h)) pa →
  Forall (λ p, is_Some (getDKG k p h)) pb →
  dkgSliceEqual k a b h
  = Some (bool_decide (derefDKG k h <$> pa = derefDKG k h <$> pb)).
Proof.
  intros Ha Hb Hva Hvb. unfold dkgSliceEqual.
  pose proof (slice_elems_length _ _ _ Ha) as Hla.
  pose proof (slice_elems_length _ _ _ Hb) as Hlb.
  destruct (decide (sl_len a ≠ sl_len b)) as [Hne|Heq].
  - f_equal. symmetry. apply bool_decide_eq_false.
    apply fmap_length_ne. congruence.
  - rewrite Ha, Hb. simpl. apply zip_check; [lia|].
    intros x y Hx Hy.
    destruct (proj1 (Forall_forall _ _) Hva x Hx) as [dx Hdx].
    destruct (proj1 (Forall_forall _ _) Hvb y Hy) as [dy Hdy].
    rewrite Hdx, Hdy. simpl.
    by rewrite (derefDKG_Some _ _ _ _ Hdx), (derefDKG_Some _ _ _ _ Hdy).
Qed.

Lemma crsEqual_spec (a b : slice) h (ca cb : list Z) :
  slice_elems a h = Some ca →
  slice_elems b h = Some cb →
  crsEqual a b h = Some (bool_decide (ca = cb)).
Proof.
  intros Ha Hb. unfold crsEqual.
  pose proof (slice_elems_length _ _ _ Ha) as Hla.
  pose proof (slice_elems_length _ _ _ Hb) as Hlb.
  destruct (decide (sl_len a ≠ sl_len b)) as [Hne|Heq].
  - f_equal. symmetry. apply bool_decide_eq_false. congruence.
  - rewrite Ha, Hb. simpl.
    etrans; [apply (zip_check id (λ x y, Some (x =? y)%Z)); [lia|]|].
    + intros x y _ _. f_equal. apply eq_true_iff_eq.
      by rewrite Z.eqb_eq, bool_decide_eq_true.
    + by rewrite !list_fmap_id.
Qed.

(** reflect.DeepEqual on two slices that are nil when empty. *)
Lemma deepEqualSlice_spec `{ArrayOf T} {V} `{EqDecision V} (F : T → V)
    (eqT : T → T → gmap positive obj → option bool) (a b : slice) h ea eb :
  slice_elems a h = Some ea →
  slice_elems b h = Some eb →
  (sl_len a = 0 → sl_arr a = None) →
  (sl_len b = 0 → sl_arr b = None) →
  (∀ x y, x ∈ ea → y ∈ eb → eqT x y h = Some (bool_decide (F x = F y))) →
  deepEqualSlice eqT a b h = Some (bool_decide (F <$> ea = F <$> eb)).
Proof.
  intros Ha Hb Hna Hnb Hf. unfold deepEqualSlice.
  pose proof (slice_elems_length _ _ _ Ha) as Hla.
  pose proof (slice_elems_length _ _ _ Hb) as Hlb.
  destruct (sl_arr a) as [pa|] eqn:Hpa, (sl_arr b) as [pb|] eqn:Hpb.
  - destruct (decide (sl_len a ≠ sl_len b)) as [Hne|Heq].
    + f_equal. symmetry. apply bool_decide_eq_false.
      apply fmap_length_ne. congruence.
    + destruct (decide (pa = pb)) as [->|Hp].
      * f_equal. symmetry. apply bool_decide_eq_true.
        apply slice_elems_Some in Ha, Hb. rewrite Hpa in Ha. rewrite Hpb in Hb.
        destruct Ha as (c & w & Hw & _ & ->).
        destruct Hb as (c' & w' & Hw' & _ & ->).
        assert (Some (c, w) = Some (c', w')) as [= -> ->]
          by (rewrite <-!unArr_mkArr; congruence).
        by replace (sl_len b) with (sl_len a) by lia.
      * rewrite Ha, Hb. simpl. apply zip_check; [lia|done].
  - f_equal. symmetry. apply bool_decide_eq_false. apply fmap_length_ne.
    rewrite Hla, Hlb. intros Heq.
    assert (sl_len a ≠ 0) by (intros Hz; specialize (Hna Hz); congruence).
    apply slice_elems_Some in Hb. rewrite Hpb in Hb. lia.
  - f_equal. symmetry. apply bool_decide_eq_false. apply fmap_length_ne.
    rewrite Hla, Hlb. intros Heq.
    assert (sl_len b ≠ 0) by (intros Hz; specialize (Hnb Hz); congruence).
    apply slice_elems_Some in Ha. rewrite Hpa in Ha. lia.
  - apply slice_elems_Some in Ha, Hb. rewrite Hpa in Ha. rewrite Hpb in Hb.
    destruct Ha as [-> ->], Hb as [-> ->]. by rewrite !bool_decide_true.
Qed.

Lemma deepEqualPayload_spec (a b : payload loc loc) h :
  is_Some (reify a h) → is_Some (reify b h) →
  deepEqualPayload a b h
  = Some (payload_deq (derefPayload h a) (derefPayload h b)).
Proof.
  intros [ra Ha] [rb Hb].
  destruct a, b; simpl in *; try done;
    try (f_equal; apply eq_true_iff_eq;
         rewrite ?Z.eqb_eq, !bool_decide_eq_true; split; congruence).
  - unfold deepEqualCRSReq. case_decide as Hpq; [by subst; rewrite bool_decide_true|].
    destruct (getCRSReq p h) as [x|] eqn:Hx; [|done].
    destruct (getCRSReq p0 h) as [y|] eqn:Hy; [|done]. simpl.
    rewrite (derefCRS_Some _ _ _ Hx), (derefCRS_Some _ _ _ Hy).
    f_equal. apply bool_decide_ext. split; congruence.
  - destruct (decide (k = k0)) as [->|Hk].
    + unfold deepEqualDKG.
      case_decide as Hpq; [by subst; rewrite bool_decide_true|].
      destruct (getDKG k0 p h) as [x|] eqn:Hx; [|done].
      destruct (getDKG k0 p0 h) as [y|] eqn:Hy; [|done]. simpl.
      rewrite (derefDKG_Some _ _ _ _ Hx), (derefDKG_Some _ _ _ _ Hy).
      f_equal. apply bool_decide_ext. split; congruence.
    + f_equal. symmetry. apply bool_decide_eq_false. congruence.
Qed.

Lemma nodesEqual_spec la lb h (na nb : gmap Z PublicKey) :
  getNodes la h = Some na →
  getNodes lb h = Some nb →
  nodesEqual la lb h = Some (bool_decide (na = nb)).
Proof.
  intros Ha Hb. unfold nodesEqual. rewrite Ha, Hb. simpl.
  etrans; [apply (gmap_check_id id (λ x y, bool_decide (x = y))
                    (λ x y, Some (bool_decide (Bytes x = Bytes y))))|].
  - intros k [x] [y] _ _. simpl. f_equal. apply bool_decide_ext.
    split; congruence.
  - by rewrite !map_fmap_id, gmap_eqb_eq.
Qed.

Lemma complaintsEqual_spec la lb h
    (ca cb : gmap Z (loc * gmap Z (slice * list loc))) :
  getRounds la h = Some (fst <$> ca) →
  getRounds lb h = Some (fst <$> cb) →
  (∀ (cc : gmap Z (loc * gmap Z (slice * list loc))), cc = ca ∨ cc = cb →
     map_Forall (λ _ forRound,
       (getComplaintsOf forRound.1 h = Some (fst <$> forRound.2)
        ∧ map_Forall (λ _ comps, slice_elems comps.1 h = Some comps.2)
            forRound.2)
       ∧ map_Forall (λ _ comps,
           Forall (λ p, is_Some (getDKG Complaint p h)) comps.2) forRound.2)
       cc) →
  complaintsEqual la lb h
  = Some (bool_decide (view_complaintsOf h <$> ca = view_complaintsOf h <$> cb)).
Proof.
  intros Ha Hb Hok. unfold complaintsEqual. rewrite Ha, Hb. simpl.
  rewrite <-gmap_eqb_eq.
  apply (gmap_check fst (view_complaintsOf h) (λ x y, bool_decide (x = y))
           (λ compsForRound otherCompsForRound,
              ia ← getComplaintsOf compsForRound h;
              ib ← getComplaintsOf otherCompsForRound h;
              if decide (size ia ≠ size ib) then Some false
              else all_ok (map_to_list ia) (λ '(nID, comps),
                     match ib !! nID with
                     | None => Some false
                     | Some otherComps =>
                         dkgSliceEqual Complaint comps otherComps h
                     end))).
  intros r [li innerA] [lj innerB] HrA HrB. simpl.
  destruct (Hok ca (or_introl eq_refl) r _ HrA) as [[HiA HsA] HvA].
  destruct (Hok cb (or_intror eq_refl) r _ HrB) as [[HiB HsB] HvB].
  simpl in *. rewrite HiA, HiB. simpl.
  rewrite <-gmap_eqb_eq. unfold view_complaintsOf. simpl.
  apply (gmap_check fst (view_comps h) (λ x y, bool_decide (x = y))
           (λ comps otherComps, dkgSliceEqual Complaint comps otherComps h)).
  intros n [sa pa] [sb pb] HnA HnB. simpl.
  apply dkgSliceEqual_spec.
  - apply (HsA n _ HnA).
  - apply (HsB n _ HnB).
  - apply (HvA n _ HnA).
  - apply (HvB n _ HnB).
Qed.

Lemma recordsEqual_spec k la lb h (ca cb : gmap Z (loc * gmap Z loc)) :
  getRounds la h = Some (fst <$> ca) →
  getRounds lb h = Some (fst <$> cb) →
  (∀ (cc : gmap Z (loc * gmap Z loc)), cc = ca ∨ cc = cb →
     map_Forall (λ _ forRound,
       getRecordOf forRound.1 h = Some forRound.2
       ∧ map_Forall (λ _ p, is_Some (getDKG k p h)) forRound.2) cc) →
  recordsEqual k la lb h
  = Some (bool_decide (view_recordOf k h <$> ca = view_recordOf k h <$> cb)).
Proof.
  intros Ha Hb Hok. unfold recordsEqual. rewrite Ha, Hb. simpl.
  rewrite <-gmap_eqb_eq.
  apply (gmap_check fst (view_recordOf k h) (λ x y, bool_decide (x = y))
           (λ forRound otherForRound,
              ia ← getRecordOf forRound h;
              ib ← getRecordOf otherForRound h;
              if decide (size ia ≠ size ib) then Some false
              else all_ok (map_to_list ia) (λ '(nID, p),
                     match ib !! nID with
                     | None => Some false
                     | Some q =>
                         x ← getDKG k p h; y ← getDKG k q h;
                         Some (typesDKG.Equal x y)
                     end))).
  intros r [li innerA] [lj innerB] HrA HrB. simpl.
  destruct (Hok ca (or_introl eq_refl) r _ HrA) as [HiA HvA].
  destruct (Hok cb (or_intror eq_refl) r _ HrB) as [HiB HvB].
  simpl in *. rewrite HiA, HiB. simpl.
  rewrite <-gmap_eqb_eq. unfold view_recordOf. simpl.
  apply (gmap_check_id (derefDKG k h) (λ x y, bool_decide (x = y))
           (λ p q, x ← getDKG k p h; y ← getDKG k q h;
                   Some (typesDKG.Equal x y))).
  intros n p q HnA HnB. simpl.
  destruct (HvA n _ HnA) as [x Hx]. destruct (HvB n _ HnB) as [y Hy].
  rewrite Hx, Hy. simpl.
  by rewrite (derefDKG_Some _ _ _ _ Hx), (derefDKG_Some _ _ _ _ Hy).
Qed.

Lemma deepEqualConfigs_spec la lb h (ca cb : gmap Z (payload loc loc)) :
  la ≠ lb →
  getConfigs la h = Some ca →
  getConfigs lb h = Some cb →
  map_Forall (λ _ v, is_Some (reify v h)) ca →
  map_Forall (λ _ v, is_Some (reify v h)) cb →
  deepEqualConfigs la lb h
  = Some (gmap_eqb payload_deq (derefPayload h <$> ca) (derefPayload h <$> cb)).
Proof.
  intros Hne Ha Hb Hva Hvb. unfold deepEqualConfigs. rewrite Ha, Hb. simpl.
  rewrite (decide_False (P := la = lb)) by done.
  apply (gmap_check_id (derefPayload h) payload_deq
           (λ v v', deepEqualPayload v v' h)).
  intros t v v' Ht Ht'. apply deepEqualPayload_spec.
  - apply (Hva t _ Ht).
  - apply (Hvb t _ Ht').
Qed.

Lemma guard_check (b : bool) (e : error) (k : option error) :
  guard (Some b) e (Some k) = Some (check b e k).
Proof. by destruct b. Qed.

(** Equal on two states that hold what their contents describe, with
    distinct pending configuration maps, returns what [EqualAbs] returns
    on their views. *)
Lemma Equal_refines a b sta ca stb cb h :
  holds a sta ca h → valid ca h → nil_when_empty sta →
  holds b stb cb h → valid cb h → nil_when_empty stb →
  State.pendingChangedConfigs sta ≠ State.pendingChangedConfigs stb →
  Equal a b h = Some (EqualAbs (view_of sta ca h) (view_of stb cb h)).
Proof.
  intros (HstA & HnA & HcfgA & HcrsA & HpnA & HpcA & HpfA & HpmA & HprA
          & HrcA & HicA & HrmA & HimA & HrfA & HifA)
         (HvcfgA & HvpcA & HvpfA & HvpmA & HvprA & HvcA & HvmA & HvfA)
         [HnilcA HnilnA]
         (HstB & HnB & HcfgB & HcrsB & HpnB & HpcB & HpfB & HpmB & HprB
          & HrcB & HicB & HrmB & HimB & HrfB & HifB)
         (HvcfgB & HvpcB & HvpfB & HvpmB & HvprB & HvcB & HvmB & HvfB)
         [HnilcB HnilnB] Hcfgne.
  unfold Equal. rewrite HstA, HstB. simpl.
  rewrite (nodesEqual_spec _ _ _ _ _ HnA HnB).
  rewrite (complaintsEqual_spec _ _ _ _ _ HrcA HrcB); cycle 1.
  { intros cc [-> | ->] r x Hx; split.
    - apply (HicA r x Hx). - apply (HvcA r x Hx).
    - apply (HicB r x Hx). - apply (HvcB r x Hx). }
  rewrite (recordsEqual_spec _ _ _ _ _ _ HrmA HrmB); cycle 1.
  { intros cc [-> | ->] r x Hx; split.
    - apply (HimA r x Hx). - apply (HvmA r x Hx).
    - apply (HimB r x Hx). - apply (HvmB r x Hx). }
  rewrite (recordsEqual_spec _ _ _ _ _ _ HrfA HrfB); cycle 1.
  { intros cc [-> | ->] r x Hx; split.
    - apply (HifA r x Hx). - apply (HvfA r x Hx).
    - apply (HifB r x Hx). - apply (HvfB r x Hx). }
  rewrite (crsEqual_spec _ _ _ _ _ HcrsA HcrsB).
  rewrite (deepEqualConfigs_spec _ _ _ _ _ Hcfgne HcfgA HcfgB HvcfgA HvcfgB).
  rewrite (deepEqualSlice_spec (derefCRS h) _ _ _ _ _ _ HprA HprB HnilcA HnilcB);
    cycle 1.
  { intros x y Hx Hy. unfold deepEqualCRSReq.
    destruct (proj1 (Forall_forall _ _) HvprA x Hx) as [dx Hdx].
    destruct (proj1 (Forall_forall _ _) HvprB y Hy) as [dy Hdy].
    rewrite (derefCRS_Some _ _ _ Hdx), (derefCRS_Some _ _ _ Hdy).
    case_decide as Hxy.
    - subst. rewrite bool_decide_true; [done|congruence].
    - rewrite Hdx, Hdy. done. }
  rewrite (deepEqualSlice_spec id _ _ _ _ _ _ HpnA HpnB HnilnA HnilnB) by done.
  rewrite (dkgSliceEqual_spec _ _ _ _ _ _ HpcA HpcB HvpcA HvpcB).
  rewrite (dkgSliceEqual_spec _ _ _ _ _ _ HpfA HpfB HvpfA HvpfB).
  rewrite (dkgSliceEqual_spec _ _ _ _ _ _ HpmA HpmB HvpmA HvpmB).
  rewrite !list_fmap_id.
  unfold EqualAbs, view_of. simpl.
  change (configEqual (scalars sta) (scalars stb)) with (configEqual sta stb).
  unfold guard, check. simpl.
  repeat match goal with
         | |- (if ?b then _ else _) = _ => destruct b; [|reflexivity]
         end.
  reflexivity.
Qed.

End equal.

(** ** Role by role *)

Section roles.
Implicit Types (h : gmap positive obj) (l s p : positive) (o : obj).
Implicit Types (st : State.t) (c : content) (ρ : role).

Definition is_record (o : obj) : bool :=
  match o with OCRSReq _ | ODKG _ _ => true | _ => false end.

(** What [holds] says about the object playing one role. *)
Definition cell_spec s st c h ρ : Prop :=
  match ρ with
  | RState => getState s h = Some st
  | RNodes => getNodes (State.nodes st) h = Some (c_nodes c)
  | RConfigs =>
      getConfigs (State.pendingChangedConfigs st) h = Some (c_configs c)
  | RSlice FCrs => slice_elems (State.crs st) h = Some (c_crs c)
  | RSlice FPendingNodes =>
      slice_elems (State.pendingNodes st) h = Some (c_pendingNodes c)
  | RSlice FPendingDKGComplaints =>
      slice_elems (State.pendingDKGComplaints st) h
      = Some (c_pendingDKGComplaints c)
  | RSlice FPendingDKGFinals =>
      slice_elems (State.pendingDKGFinals st) h = Some (c_pendingDKGFinals c)
  | RSlice FPendingDKGMasterPublicKeys =>
      slice_elems (State.pendingDKGMasterPublicKeys st) h
      = Some (c_pendingDKGMasterPublicKeys c)
  | RSlice FPendingCRS =>
      slice_elems (State.pendingCRS st) h = Some (c_pendingCRS c)
  | ROuter Complaint =>
      getRounds (State.dkgComplaints st) h = Some (fst <$> c_complaints c)
  | ROuter MasterPublicKey =>
      getRounds (State.dkgMasterPublicKeys st) h = Some (fst <$> c_mpks c)
  | ROuter Finalize =>
      getRounds (State.dkgFinals st) h = Some (fst <$> c_finals c)
  | RInner Complaint r =>
      ∀ x, c_complaints c !! r = Some x →
           getComplaintsOf x.1 h = Some (fst <$> x.2)
  | RInner MasterPublicKey r =>
      ∀ x, c_mpks c !! r = Some x → getRecordOf x.1 h = Some x.2
  | RInner Finalize r =>
      ∀ x, c_finals c !! r = Some x → getRecordOf x.1 h = Some x.2
  | RArr r n =>
      ∀ x y, c_complaints c !! r = Some x → x.2 !! n = Some y →
             slice_elems y.1 h = Some y.2
  end.

Lemma holds_roles s st c h : holds s st c h ↔ ∀ ρ, cell_spec s st c h ρ.
Proof.
  split.
  - intros (H1 & H2 & H3 & H4 & H5 & H6 & H7 & H8 & H9 & H10 & H11 & H12
            & H13 & H14 & H15) ρ.
    destruct ρ as [| | |f|k|k r|r n]; [..|destruct f|destruct k|destruct k|];
      simpl; try done.
    + intros x Hx. apply (H11 r x Hx).
    + intros x Hx. apply (H13 r x Hx).
    + intros x Hx. apply (H15 r x Hx).
    + intros x y Hx Hy. apply (proj2 (H11 r x Hx) n y Hy).
  - intros H. unfold holds. split_and!.
    + apply (H RState).
    + apply (H RNodes).
    + apply (H RConfigs).
    + apply (H (RSlice FCrs)).
    + apply (H (RSlice FPendingNodes)).
    + apply (H (RSlice FPendingDKGComplaints)).
    + apply (H (RSlice FPendingDKGFinals)).
    + apply (H (RSlice FPendingDKGMasterPublicKeys)).
    + apply (H (RSlice FPendingCRS)).
    + apply (H (ROuter Complaint)).
    + intros r x Hx. split.
      * by apply (H (RInner Complaint r)).
      * intros n y Hy. by apply (H (RArr r n) x y).
    + apply (H (ROuter MasterPublicKey)).
    + intros r x Hx. by apply (H (RInner MasterPublicKey r)).
    + apply (H (ROuter Finalize)).
    + intros r x Hx. by apply (H (RInner Finalize r)).
Qed.

Lemma slice_elems_frame `{ArrayOf T} (sl : slice) h h' :
  (∀ a, sl_arr sl = Some a → h' !! a = h !! a) →
  slice_elems (T:=T) sl h' = slice_elems sl h.
Proof.
  intros Ha. unfold slice_elems. destruct (sl_arr sl) as [a|]; [|done].
  by rewrite Ha.
Qed.

(** The specification of a role only depends on the object playing it. *)
Lemma cell_spec_frame s st c h h' ρ :
  (∀ l, role_at s st c ρ = Some l → h' !! l = h !! l) →
  cell_spec s st c h ρ → cell_spec s st c h' ρ.
Proof.
  intros Hl.
  destruct ρ as [| | |f|k|k r|r n]; [..|destruct f|destruct k|destruct k|];
    simpl in *;
    unfold getState, getNodes, getConfigs, getRounds;
    try (by rewrite Hl);
    try (by rewrite (slice_elems_frame _ h h')).
  - intros Hc x Hx. specialize (Hc x Hx). unfold getComplaintsOf in *.
    rewrite Hl; [done|]. by rewrite Hx.
  - intros Hc x Hx. specialize (Hc x Hx). unfold getRecordOf in *.
    rewrite Hl; [done|]. by rewrite Hx.
  - intros Hc x Hx. specialize (Hc x Hx). unfold getRecordOf in *.
    rewrite Hl; [done|]. by rewrite Hx.
  - intros Hc x y Hx Hy. specialize (Hc x y Hx Hy).
    rewrite (slice_elems_frame _ h h'); [done|].
    intros a Ha. apply Hl. rewrite Hx. simpl. rewrite Hy. done.
Qed.

(** The object playing a role exists and is no record. *)
Lemma role_exists s st c h ρ l :
  cell_spec s st c h ρ → role_at s st c ρ = Some l →
  ∃ o, h !! l = Some o ∧ is_record o = false.
Proof.
  assert (∀ T (A : ArrayOf T) (sl : slice) (e : list T),
            slice_elems sl h = Some e → sl_arr sl = Some l →
            ∃ o, h !! l = Some o ∧ is_record o = false) as Hsl.
  { intros T A sl e He Ha. apply slice_elems_Some in He. rewrite Ha in He.
    destruct He as (cap & w & Hw & _). eexists. split; [done|].
    pose proof (mkArr_array cap w). by destruct (mkArr cap w). }
  destruct ρ as [| | |f|k|k r|r n]; [..|destruct f|destruct k|destruct k|];
    simpl;
    rewrite ?getState_Some, ?getNodes_Some, ?getConfigs_Some, ?getRounds_Some;
    try (intros Hc [= <-]; eauto; fail);
    try (intros Hc Ha; exact (Hsl _ _ _ _ Hc Ha)).
  - intros Hc Hr. destruct (c_complaints c !! r) as [x|]; simplify_eq/=.
    specialize (Hc x eq_refl). apply getComplaintsOf_Some in Hc. eauto.
  - intros Hc Hr. destruct (c_mpks c !! r) as [x|]; simplify_eq/=.
    specialize (Hc x eq_refl). apply getRecordOf_Some in Hc. eauto.
  - intros Hc Hr. destruct (c_finals c !! r) as [x|]; simplify_eq/=.
    specialize (Hc x eq_refl). apply getRecordOf_Some in Hc. eauto.
  - intros Hc Hr. destruct (c_complaints c !! r) as [x|]; simplify_eq/=.
    destruct (x.2 !! n) as [y|] eqn:Hy; simplify_eq/=.
    by eapply (Hsl _ _ _ _ (Hc x y eq_refl Hy)).
Qed.

Definition owns s st c l : Prop := ∃ ρ, role_at s st c ρ = Some l.

(** What an operation on a state may write: objects the state owns and
    objects that did not exist. *)
Definition modifies s st c h h' : Prop :=
  ∀ l, h' !! l ≠ h !! l → h !! l = None ∨ owns s st c l.

(** Where the objects of the state after an operation come from: the
    state owned them before, or they are new. *)
Definition grows s st c h st' c' : Prop :=
  ∀ ρ l, role_at s st' c' ρ = Some l → owns s st c l ∨ h !! l = None.

Definition evolves s st c h st' c' h' : Prop :=
  wf s st' c' h' ∧ modifies s st c h h' ∧ grows s st c h st' c'.

(** Re-establishing [holds] after an update that changed the objects of
    the roles in [changed]. *)
Lemma holds_update s st c h st' c' h' (changed : list role) :
  holds s st c h →
  separated s st c →
  (∀ l, h' !! l ≠ h !! l →
        h !! l = None ∨ ∃ ρ, ρ ∈ changed ∧ role_at s st c ρ = Some l) →
  (∀ ρ, ρ ∉ changed →
        role_at s st' c' ρ = role_at s st c ρ
        ∧ ∀ h0, cell_spec s st c h0 ρ → cell_spec s st' c' h0 ρ) →
  (∀ ρ, ρ ∈ changed → cell_spec s st' c' h' ρ) →
  holds s st' c' h'.
Proof.
  intros Hh Hsep Hmod Hpure Hch. apply holds_roles. intros ρ.
  destruct (decide (ρ ∈ changed)) as [Hin|Hnin]; [by apply Hch|].
  destruct (Hpure ρ Hnin) as [Hrole Hspec]. apply Hspec.
  pose proof (proj1 (holds_roles _ _ _ _) Hh ρ) as Hold.
  eapply cell_spec_frame; [|exact Hold].
  intros l Hl. destruct (decide (h' !! l = h !! l)) as [|Hne]; [done|].
  destruct (Hmod l Hne) as [Hnone|(ρ' & Hin' & Hl')].
  - destruct (role_exists _ _ _ _ _ _ Hold Hl) as (o & Ho & _). congruence.
  - rewrite (Hsep _ _ _ Hl Hl') in Hnin. done.
Qed.

Lemma separated_update s st c h st' c' (changed : list role) :
  holds s st c h →
  separated s st c →
  (∀ ρ, ρ ∉ changed → role_at s st' c' ρ = role_at s st c ρ) →
  (∀ ρ l, ρ ∈ changed → role_at s st' c' ρ = Some l →
          role_at s st c ρ = Some l
          ∨ (h !! l = None
             ∧ ∀ ρ', ρ' ∈ changed → role_at s st' c' ρ' = Some l → ρ' = ρ)) →
  separated s st' c'.
Proof.
  intros Hh Hsep Hsame Hch ρ1 ρ2 l H1 H2.
  assert (∀ ρ l, role_at s st c ρ = Some l → is_Some (h !! l)) as Hex.
  { intros ρ l0 Hl0.
    destruct (role_exists _ _ _ _ _ _ (proj1 (holds_roles _ _ _ _) Hh ρ) Hl0)
      as (o & Ho & _). eauto. }
  destruct (decide (ρ1 ∈ changed)) as [Hin1|Hn1],
           (decide (ρ2 ∈ changed)) as [Hin2|Hn2].
  - destruct (Hch _ _ Hin1 H1) as [Ho1|[Hf1 Hu1]].
    + destruct (Hch _ _ Hin2 H2) as [Ho2|[Hf2 Hu2]]; [by eapply Hsep|].
      destruct (Hex _ _ Ho1). congruence.
    + symmetry. by apply Hu1.
  - rewrite Hsame in H2 by done.
    destruct (Hch _ _ Hin1 H1) as [Ho1|[Hf1 Hu1]]; [by eapply Hsep|].
    destruct (Hex _ _ H2). congruence.
  - rewrite Hsame in H1 by done.
    destruct (Hch _ _ Hin2 H2) as [Ho2|[Hf2 Hu2]]; [by eapply Hsep|].
    destruct (Hex _ _ H1). congruence.
  - rewrite Hsame in H1, H2 by done. by eapply Hsep.
Qed.

(** Records are never written. *)
Definition records_kept h h' : Prop :=
  ∀ l o, h !! l = Some o → is_record o = true → h' !! l = Some o.

Lemma modifies_records_kept s st c h h' :
  holds s st c h → modifies s st c h h' → records_kept h h'.
Proof.
  intros Hh Hmod l o Hl Hrec.
  destruct (decide (h' !! l = h !! l)) as [Heq|Hne]; [by rewrite Heq|].
  destruct (Hmod l Hne) as [Hnone|[ρ Hρ]]; [congruence|].
  destruct (role_exists _ _ _ _ _ _ (proj1 (holds_roles _ _ _ _) Hh ρ) Hρ)
    as (o' & Ho' & Hnr). congruence.
Qed.

Lemma extends_records_kept h h' : h ⊆ h' → records_kept h h'.
Proof. intros Hsub l o Hl _. by eapply lookup_weaken. Qed.

Lemma getDKG_kept k p h h' :
  records_kept h h' → is_Some (getDKG k p h) →
  getDKG k p h' = getDKG k p h.
Proof.
  intros Hk [d Hd]. rewrite Hd. apply getDKG_Some in Hd.
  apply getDKG_Some. by apply Hk.
Qed.

Lemma getCRSReq_kept p h h' :
  records_kept h h' → is_Some (getCRSReq p h) →
  getCRSReq p h' = getCRSReq p h.
Proof.
  intros Hk [d Hd]. rewrite Hd. apply getCRSReq_Some in Hd.
  apply getCRSReq_Some. by apply Hk.
Qed.

Lemma reify_kept v h h' :
  records_kept h h' → is_Some (reify v h) → reify v h' = reify v h.
Proof.
  intros Hk Hv. destruct v; simpl in *; try done.
  - destruct (getCRSReq p h) eqn:E; [|by destruct Hv].
    by rewrite (getCRSReq_kept p h h'), E by (done || by rewrite E).
  - destruct (getDKG k p h) eqn:E; [|by destruct Hv].
    by rewrite (getDKG_kept k p h h'), E by (done || by rewrite E).
Qed.

Lemma derefPayload_kept v h h' :
  records_kept h h' → is_Some (reify v h) →
  derefPayload h' v = derefPayload h v.
Proof.
  intros Hk Hv. destruct v; simpl in *; try done.
  - destruct (getCRSReq p h) eqn:E; [|by destruct Hv]. unfold derefCRS.
    by rewrite (getCRSReq_kept p h h') by (done || by rewrite E).
  - destruct (getDKG k p h) eqn:E; [|by destruct Hv]. unfold derefDKG.
    by rewrite (getDKG_kept k p h h') by (done || by rewrite E).
Qed.

Lemma getDKG_kept_Some k p h h' :
  records_kept h h' → is_Some (getDKG k p h) → is_Some (getDKG k p h').
Proof. intros Hk Hp. by rewrite (getDKG_kept k p h h'). Qed.

Lemma getCRSReq_kept_Some p h h' :
  records_kept h h' → is_Some (getCRSReq p h) → is_Some (getCRSReq p h').
Proof. intros Hk Hp. by rewrite (getCRSReq_kept p h h'). Qed.

Lemma derefDKG_list_kept k (ps : list loc) h h' :
  records_kept h h' → Forall (λ p, is_Some (getDKG k p h)) ps →
  derefDKG k h' <$> ps = derefDKG k h <$> ps.
Proof.
  intros Hk Hv. apply Forall_fmap_ext_1. eapply Forall_impl; [done|].
  intros p Hp. simpl in *. unfold derefDKG.
  by rewrite (getDKG_kept k p h h').
Qed.

Lemma derefDKG_map_kept k (ps : gmap Z loc) h h' :
  records_kept h h' → map_Forall (λ _ p, is_Some (getDKG k p h)) ps →
  derefDKG k h' <$> ps = derefDKG k h <$> ps.
Proof.
  intros Hk Hv. apply map_fmap_ext. intros n p Hp.
  unfold derefDKG. rewrite (getDKG_kept k p h h'); [done..|]. by apply (Hv n).
Qed.

Lemma valid_kept c h h' : records_kept h h' → valid c h → valid c h'.
Proof.
  intros Hk (H1 & H2 & H3 & H4 & H5 & H6 & H7 & H8). unfold valid. split_and!.
  - intros t v Hv. rewrite (reify_kept v h h'); [|done|]; by apply (H1 t).
  - eapply Forall_impl; [done|]. intros p. by apply getDKG_kept_Some.
  - eapply Forall_impl; [done|]. intros p. by apply getDKG_kept_Some.
  - eapply Forall_impl; [done|]. intros p. by apply getDKG_kept_Some.
  - eapply Forall_impl; [done|]. intros p. by apply getCRSReq_kept_Some.
  - intros r x Hx n y Hy. eapply Forall_impl; [apply (H6 r x Hx n y Hy)|].
    intros p. by apply getDKG_kept_Some.
  - intros r x Hx n p Hp. eapply getDKG_kept_Some; [done|].
    by apply (H7 r x Hx n).
  - intros r x Hx n p Hp. eapply getDKG_kept_Some; [done|].
    by apply (H8 r x Hx n).
Qed.

Lemma view_of_kept st c h h' :
  records_kept h h' → valid c h → view_of st c h' = view_of st c h.
Proof.
  intros Hk (H1 & H2 & H3 & H4 & H5 & H6 & H7 & H8). unfold view_of. f_equal.
  - apply map_fmap_ext. intros r x Hx. unfold view_complaintsOf.
    apply map_fmap_ext. intros n y Hy. unfold view_comps.
    apply derefDKG_list_kept; [done|]. apply (H6 r x Hx n y Hy).
  - apply map_fmap_ext. intros r x Hx. unfold view_recordOf.
    apply derefDKG_map_kept; [done|]. apply (H7 r x Hx).
  - apply map_fmap_ext. intros r x Hx. unfold view_recordOf.
    apply derefDKG_map_kept; [done|]. apply (H8 r x Hx).
  - apply map_fmap_ext. intros t v Hv. apply derefPayload_kept; [done|].
    by apply (H1 t).
  - by apply derefDKG_list_kept.
  - by apply derefDKG_list_kept.
  - by apply derefDKG_list_kept.
  - apply Forall_fmap_ext_1. eapply Forall_impl; [done|].
    intros p Hp. simpl in *. unfold derefCRS.
    by rewrite (getCRSReq_kept p h h').
Qed.

(** A state that another one does not touch keeps holding its content. *)
Lemma holds_kept s st c h h' :
  holds s st c h →
  (∀ l o, h !! l = Some o → owns s st c l → h' !! l = Some o) →
  holds s st c h'.
Proof.
  intros Hh Hk. apply holds_roles. intros ρ.
  pose proof (proj1 (holds_roles _ _ _ _) Hh ρ) as Hold.
  eapply cell_spec_frame; [|done]. intros l Hl.
  destruct (role_exists _ _ _ _ _ _ Hold Hl) as (o & Ho & _).
  rewrite Ho. apply Hk; [done|]. by exists ρ.
Qed.

Lemma owns_exists s st c h l :
  holds s st c h → owns s st c l → is_Some (h !! l).
Proof.
  intros Hh [ρ Hρ].
  destruct (role_exists _ _ _ _ _ _ (proj1 (holds_roles _ _ _ _) Hh ρ) Hρ)
    as (o & Ho & _). eauto.
Qed.

(** An operation that changed the objects of the roles in [changed], and
    maybe created objects, takes a well-formed state to a well-formed
    state. *)
Lemma wf_step s st c h st' c' h' (changed : list role) :
  wf s st c h →
  (∀ l, h' !! l ≠ h !! l →
        h !! l = None ∨ ∃ ρ, ρ ∈ changed ∧ role_at s st c ρ = Some l) →
  (∀ ρ, ρ ∉ changed →
        role_at s st' c' ρ = role_at s st c ρ
        ∧ ∀ h0, cell_spec s st c h0 ρ → cell_spec s st' c' h0 ρ) →
  (∀ ρ, ρ ∈ changed → cell_spec s st' c' h' ρ) →
  (∀ ρ, ρ ∈ changed → ∀ l, role_at s st' c' ρ = Some l →
        role_at s st c ρ = Some l
        ∨ (h !! l = None
           ∧ ∀ ρ', ρ' ∈ changed → role_at s st' c' ρ' = Some l → ρ' = ρ)) →
  valid c' h' → nil_when_empty st' →
  evolves s st c h st' c' h'.
Proof.
  intros (Hh & Hv & Hsep & Hnil) Hmod Hsame Hch Hnew Hv' Hnil'.
  split; [split_and!; [|done| |done]|split].
  - by eapply holds_update.
  - eapply separated_update; [done..| |].
    + intros ρ Hρ. by apply Hsame.
    + intros ρ l Hρ. by apply Hnew.
  - intros l Hl. destruct (Hmod l Hl) as [|(ρ & _ & Hρ)]; [by left|].
    right. by exists ρ.
  - intros ρ l Hl. destruct (decide (ρ ∈ changed)) as [Hin|Hnin].
    + destruct (Hnew ρ Hin l Hl) as [Hold|[Hfresh _]]; [|by right].
      left. by exists ρ.
    + left. exists ρ. by rewrite <-(proj1 (Hsame ρ Hnin)).
Qed.

Lemma evolves_refl s st c h : wf s st c h → evolves s st c h st c h.
Proof.
  intros Hwf. split; [done|]. split.
  - intros l Hl. done.
  - intros ρ l Hl. left. by exists ρ.
Qed.

Lemma evolves_trans s st1 c1 h1 st2 c2 h2 st3 c3 h3 :
  evolves s st1 c1 h1 st2 c2 h2 → evolves s st2 c2 h2 st3 c3 h3 →
  evolves s st1 c1 h1 st3 c3 h3.
Proof.
  intros (Hwf2 & Hm12 & Hg12) (Hwf3 & Hm23 & Hg23).
  split; [done|]. split.
  - intros l Hl. destruct (decide (h2 !! l = h1 !! l)) as [Heq|Hne].
    + rewrite <-Heq in Hl. destruct (Hm23 l Hl) as [Hn|[ρ Hρ]].
      * left. congruence.
      * destruct (Hg12 ρ l Hρ); auto.
    + by apply Hm12.
  - intros ρ l Hl. destruct (Hg23 ρ l Hl) as [[ρ' Hρ']|Hn].
    + by eapply Hg12.
    + destruct (decide (h2 !! l = h1 !! l)) as [Heq|Hne].
      * right. congruence.
      * destruct (Hm12 l Hne); auto.
Qed.

(** Creating objects leaves a state as it is. *)
Lemma wf_extends s st c h h' : wf s st c h → h ⊆ h' → wf s st c h'.
Proof.
  intros (Hh & Hv & Hsep & Hnil) Hsub. split_and!; [| |done..].
  - eapply holds_kept; [done|]. intros l o Hl _. by eapply lookup_weaken.
  - eapply valid_kept; [|done]. by apply extends_records_kept.
Qed.

Lemma evolves_extends s st c h h' :
  wf s st c h → h ⊆ h' → evolves s st c h st c h'.
Proof.
  intros Hwf Hsub. split; [by eapply wf_extends|]. split.
  - intros l Hl. left. destruct (h !! l) as [o|] eqn:Ho; [|done].
    by rewrite (lookup_weaken _ _ _ _ Ho Hsub) in Hl.
  - intros ρ l Hl. left. by exists ρ.
Qed.

Lemma view_of_extends st c h h' :
  valid c h → h ⊆ h' → view_of st c h' = view_of st c h.
Proof.
  intros Hv Hsub. apply view_of_kept; [|done]. by apply extends_records_kept.
Qed.

(** A state that shares no object with the one operated on is left as
    it is. *)
Lemma wf_other s st c h st' c' h' s2 st2 c2 :
  wf s st c h → evolves s st c h st' c' h' →
  wf s2 st2 c2 h → disjoint s st c s2 st2 c2 →
  wf s2 st2 c2 h' ∧ view_of st2 c2 h' = view_of st2 c2 h
  ∧ disjoint s st' c' s2 st2 c2.
Proof.
  intros (Hh & _) (Hwf' & Hmod & Hgr) (Hh2 & Hv2 & Hsep2 & Hnil2) Hdis.
  assert (records_kept h h') as Hk
    by exact (modifies_records_kept s st c h h' Hh Hmod).
  split_and!; [split_and!|..]; try done.
  - eapply holds_kept; [done|]. intros l o Hl [ρ2 Hρ2].
    destruct (decide (h' !! l = h !! l)) as [Heq|Hne]; [by rewrite Heq|].
    destruct (Hmod l Hne) as [|[ρ Hρ]]; [congruence|].
    destruct (Hdis _ _ _ Hρ Hρ2).
  - by eapply valid_kept.
  - by apply view_of_kept.
  - intros ρ ρ2 l Hρ Hρ2.
    destruct (owns_exists _ _ _ h l Hh2) as [o Ho]; [by exists ρ2|].
    destruct (Hgr ρ l Hρ) as [[ρ' Hρ']|Hn]; [|congruence].
    by eapply Hdis.
Qed.

End roles.

(** ** The steps of the operations *)

(** The reference fields of a [State]. *)
Definition refs (st : State.t) :=
  (State.nodes st, State.dkgComplaints st, State.dkgMasterPublicKeys st,
   State.dkgFinals st, State.pendingChangedConfigs st, State.crs st,
   State.pendingNodes st, State.pendingDKGComplaints st,
   State.pendingDKGFinals st, State.pendingDKGMasterPublicKeys st,
   State.pendingCRS st).

(** The roles outside a list: those of the list are excluded, the
    statement about the others is reduced. *)
Ltac in_list :=
  solve [repeat first [apply list_elem_of_here | apply list_elem_of_further]].

Ltac other_roles :=
  let ρ := fresh "ρ" in
  let Hρ := fresh "Hρ" in
  intros ρ Hρ;
  destruct ρ as [| | |f|k|k r|r n];
    [..|destruct f|destruct k|destruct k|];
  try (exfalso; apply Hρ; in_list);
  simpl.

Ltac changed_roles :=
  let ρ := fresh "ρ" in
  let Hρ := fresh "Hρ" in
  intros ρ Hρ; set_unfold in Hρ; destruct_or? Hρ; subst ρ; simpl.

Section steps.
Context `{!Externals}.
Implicit Types (h : gmap positive obj) (l s p : positive) (o : obj).
Implicit Types (st : State.t) (c : content) (ρ : role).

Lemma refs_role_at s st st' c ρ :
  refs st' = refs st → role_at s st' c ρ = role_at s st c ρ.
Proof.
  intros [=]. destruct ρ as [| | |f|k|k r|r n]; [..|destruct f|destruct k| |];
    simpl; congruence.
Qed.

Lemma refs_cell_spec s st st' c h ρ :
  refs st' = refs st → ρ ≠ RState →
  cell_spec s st c h ρ → cell_spec s st' c h ρ.
Proof.
  intros [=] Hρ.
  destruct ρ as [| | |f|k|k r|r n];
    [..|destruct f|destruct k|destruct k|]; simpl; try done; congruence.
Qed.

(** [s.f = v] for a configuration field: P1. *)
Lemma update_step s st c h (f : State.t → State.t) :
  wf s st c h → refs (f st) = refs st →
  ∃ h', update s f h = Some (tt, h')
    ∧ evolves s st c h (f st) c h'
    ∧ view_of (f st) c h' = set_v_scalars (scalars (f st)) (view_of st c h).
Proof.
  intros Hwf Hf. pose proof Hwf as (Hh & Hv & Hsep & Hnil).
  pose proof (proj1 (holds_roles _ _ _ _) Hh RState) as Hst. simpl in Hst.
  exists (<[s := OState (f st)]> h). split; [by apply update_spec|].
  assert (records_kept h (<[s := OState (f st)]> h)) as Hk.
  { intros l o Hl Ho. rewrite lookup_insert_ne; [done|]. intros <-.
    apply getState_Some in Hst. by simplify_eq. }
  split.
  - apply (wf_step _ _ _ _ _ _ _ [RState]); [done|..].
    + intros l Hl. right. exists RState. split; [in_list|]. simpl.
      destruct (decide (l = s)) as [->|]; [done|].
      by rewrite lookup_insert_ne in Hl.
    + intros ρ Hρ. split; [by apply refs_role_at|].
      intros h0. apply refs_cell_spec; [done|]. intros ->. apply Hρ. in_list.
    + changed_roles. apply getState_Some, lookup_insert_eq.
    + changed_roles. intros l [= <-]. by left.
    + by eapply valid_kept.
    + injection Hf as _ _ _ _ _ _ Hn _ _ _ Hc. unfold nil_when_empty.
      by rewrite Hn, Hc.
  - by rewrite <-(view_of_kept st c h (<[s := OState (f st)]> h)).
Qed.

(** [s.nodes[id] = key]: P2. *)
Lemma nodes_set_step s st c h id key :
  wf s st c h →
  ∃ h', nodes_set (State.nodes st) id key h = Some (tt, h')
    ∧ evolves s st c h st (set_c_nodes (<[id := key]> (c_nodes c)) c) h'
    ∧ view_of st (set_c_nodes (<[id := key]> (c_nodes c)) c) h'
      = set_v_nodes (<[id := key]> (c_nodes c)) (view_of st c h).
Proof.
  intros Hwf. pose proof Hwf as (Hh & Hv & Hsep & Hnil).
  pose proof (proj1 (holds_roles _ _ _ _) Hh RNodes) as Hn. simpl in Hn.
  set (h' := <[State.nodes st := ONodes (<[id := key]> (c_nodes c))]> h).
  exists h'. split.
  { unfold nodes_set. munfold. rewrite Hn. simpl.
    apply getNodes_Some in Hn. by erewrite store_Some. }
  assert (records_kept h h') as Hk.
  { intros l o Hl Ho. unfold h'. rewrite lookup_insert_ne; [done|]. intros <-.
    apply getNodes_Some in Hn. by simplify_eq. }
  split.
  - apply (wf_step _ _ _ _ _ _ _ [RNodes]); [done|..].
    + intros l Hl. right. exists RNodes. split; [in_list|]. simpl.
      destruct (decide (l = State.nodes st)) as [->|]; [done|].
      unfold h' in Hl. by rewrite lookup_insert_ne in Hl.
    + other_roles; done.
    + changed_roles. apply getNodes_Some, lookup_insert_eq.
    + changed_roles. intros l [= <-]. by left.
    + by apply (valid_kept c h h').
    + done.
  - by rewrite <-(view_of_kept st c h h').
Qed.

(** [s.pendingChangedConfigs[t] = v]: P7. *)
Lemma configs_set_step s st c h t v :
  wf s st c h → is_Some (reify v h) →
  ∃ h', configs_set (State.pendingChangedConfigs st) t v h = Some (tt, h')
    ∧ evolves s st c h st (set_c_configs (<[t := v]> (c_configs c)) c) h'
    ∧ view_of st (set_c_configs (<[t := v]> (c_configs c)) c) h'
      = set_v_configs (<[t := derefPayload h v]> (v_configs (view_of st c h)))
          (view_of st c h).
Proof.
  intros Hwf Hr. pose proof Hwf as (Hh & Hv & Hsep & Hnil).
  pose proof (proj1 (holds_roles _ _ _ _) Hh RConfigs) as Hn. simpl in Hn.
  set (h' := <[State.pendingChangedConfigs st
                 := OConfigs (<[t := v]> (c_configs c))]> h).
  exists h'. split.
  { unfold configs_set. munfold. rewrite Hn. simpl.
    apply getConfigs_Some in Hn. by erewrite store_Some. }
  assert (records_kept h h') as Hk.
  { intros l o Hl Ho. unfold h'. rewrite lookup_insert_ne; [done|]. intros <-.
    apply getConfigs_Some in Hn. by simplify_eq. }
  split.
  - apply (wf_step _ _ _ _ _ _ _ [RConfigs]); [done|..].
    + intros l Hl. right. exists RConfigs. split; [in_list|]. simpl.
      destruct (decide (l = State.pendingChangedConfigs st)) as [->|];
        [done|].
      unfold h' in Hl. by rewrite lookup_insert_ne in Hl.
    + other_roles; done.
    + changed_roles. apply getConfigs_Some, lookup_insert_eq.
    + changed_roles. intros l [= <-]. by left.
    + pose proof (valid_kept c h h' Hk Hv) as (H1 & H2). split; [|done].
      simpl. apply map_Forall_insert_2; [|done].
      by rewrite (reify_kept v h h').
    + done.
  - rewrite <-(view_of_kept st c h h') by done.
    unfold view_of, set_v_configs. simpl. f_equal.
    by rewrite fmap_insert, (derefPayload_kept v h h').
Qed.

(** The store after [s.f = append(s.f, x)]. *)
Lemma append_field_records `{ArrayOf T} s h st a cap (w : list T) st'
    (sl : slice) (elems : list T) :
  getState s h = Some st → slice_elems sl h = Some elems →
  sl_arr sl = Some a ∨ h !! a = None →
  records_kept h (<[s := OState st']> (<[a := mkArr cap w]> h)).
Proof.
  intros Hst He Ha l o Hl Ho. apply getState_Some in Hst.
  rewrite !lookup_insert_ne; [done|..].
  - intros <-. destruct Ha as [Ha|Ha]; [|congruence].
    apply slice_elems_Some in He. rewrite Ha in He.
    destruct He as (c' & w' & Hs & _). rewrite Hl in Hs.
    injection Hs as ->. pose proof (mkArr_array c' w') as Harr.
    by destruct (mkArr c' w').
  - intros <-. by simplify_eq.
Qed.

Lemma append_field_modifies `{ArrayOf T} s h st' a cap (w : list T) l :
  (<[s := OState st']> (<[a := mkArr cap w]> h)) !! l ≠ h !! l →
  l = s ∨ l = a.
Proof.
  intros Hl. destruct (decide (l = s)) as [|Hs]; [by left|].
  destruct (decide (l = a)) as [|Ha]; [by right|].
  by rewrite !lookup_insert_ne in Hl.
Qed.

Lemma append_field_elems `{ArrayOf T} s h st' a cap (w : list T) n
    (elems : list T) :
  a ≠ s → n ≤ length w → take n w = elems →
  slice_elems {| sl_arr := Some a; sl_len := n |}
    (<[s := OState st']> (<[a := mkArr cap w]> h)) = Some elems.
Proof.
  intros Has Hn Ht. apply slice_elems_Some. simpl. exists cap, w.
  rewrite lookup_insert_ne, lookup_insert_eq by done. done.
Qed.

(** The proof of a step [s.f = append(s.f, x)], for the slice field [F]
    with setter [set] and the condition [Hx] on [x]. *)
Ltac append_step F set :=
  let Hwf := fresh "Hwf" in
  let Hx := fresh "Hx" in
  let Hh := fresh "Hh" in
  let Hv := fresh "Hv" in
  let Hsep := fresh "Hsep" in
  let Hnil := fresh "Hnil" in
  let Hst := fresh "Hst" in
  let He := fresh "He" in
  let a := fresh "a" in
  let cap := fresh "cap" in
  let w := fresh "w" in
  let Heq := fresh "Heq" in
  let Has := fresh "Has" in
  let Hold := fresh "Hold" in
  let Hlen := fresh "Hlen" in
  let Htake := fresh "Htake" in
  let Hk := fresh "Hk" in
  let h' := fresh "h'" in
  let l := fresh "l" in
  let Hl := fresh "Hl" in
  intros Hwf; try intros Hx;
  pose proof Hwf as (Hh & Hv & Hsep & Hnil);
  pose proof (proj1 (holds_roles _ _ _ _) Hh RState) as Hst;
  pose proof (proj1 (holds_roles _ _ _ _) Hh (RSlice F)) as He;
  simpl in Hst, He;
  match type of He with
  | slice_elems (?get ?st) ?h = Some _ =>
      match goal with
      | |- ∃ _ _, append_field ?s ?x _ _ _ = _ ∧ _ =>
          destruct (append_field_spec s x get set h st _ Hst He)
            as (a & cap & w & Heq & Has & Hold & Hlen & Htake)
      end
  end;
  eexists _, a; split; [exact Heq|]; intros ??;
  match goal with |- evolves _ _ _ ?h _ _ ?h1 ∧ _ =>
    set (h' := h1);
    assert (records_kept h h') as Hk by (by eapply append_field_records);
    pose proof (valid_kept _ h h' Hk Hv) as (?&?&?&?&?&?&?&?);
    split;
    [ apply (wf_step _ _ _ _ _ _ _ [RState; RSlice F]); [done|..];
      [ intros l Hl; apply append_field_modifies in Hl as [->| ->];
        [ right; exists RState; split; [in_list|done]
        | destruct Hold as [Hold|Hold]; [right|by left];
          exists (RSlice F); split; [in_list|done] ]
      | other_roles; done
      | changed_roles;
        [ apply getState_Some, lookup_insert_eq
        | by apply append_field_elems ]
      | changed_roles;
        [ intros l [= <-]; by left
        | intros l [= <-]; destruct Hold as [Hold|Hold]; [by left|right];
          split; [done|]; changed_roles; [|done]; by intros [= ->] ]
      | split_and!; try done; simpl;
        try (apply Forall_app; split; [done|]; constructor; [|done];
             (by apply (getDKG_kept_Some _ _ h h'))
             || (by apply (getCRSReq_kept_Some _ h h')))
      | destruct Hnil; split; simpl; done ]
    | rewrite <-(view_of_kept _ _ h h') by done;
      unfold view_of; simpl; f_equal; rewrite ?fmap_app; simpl; try done;
      f_equal; unfold derefDKG, derefCRS;
      (by rewrite (getDKG_kept _ _ h h'))
      || (by rewrite (getCRSReq_kept _ h h')) ]
  end.

(** [s.crs = append(s.crs, x)]: P3. *)
Lemma append_crs_step s st c h x :
  wf s st c h →
  ∃ h' a,
    append_field s x State.crs State.set_crs h = Some (tt, h')
    ∧ let st' := State.set_crs
                   {| sl_arr := Some a; sl_len := S (sl_len (State.crs st)) |}
                   st in
      let c' := set_c_crs (c_crs c ++ [x]) c in
      evolves s st c h st' c' h'
      ∧ view_of st' c' h' = set_v_crs (c_crs c ++ [x]) (view_of st c h).
Proof. append_step FCrs State.set_crs. Qed.

Lemma append_pendingNodes_step s st c h (x : bytes) :
  wf s st c h →
  ∃ h' a,
    append_field s x State.pendingNodes State.set_pendingNodes h
      = Some (tt, h')
    ∧ let st' := State.set_pendingNodes
                   {| sl_arr := Some a;
                      sl_len := S (sl_len (State.pendingNodes st)) |} st in
      let c' := set_c_pendingNodes (c_pendingNodes c ++ [x]) c in
      evolves s st c h st' c' h'
      ∧ view_of st' c' h'
        = set_v_pendingNodes (c_pendingNodes c ++ [x]) (view_of st c h).
Proof. append_step FPendingNodes State.set_pendingNodes. Qed.

Lemma append_pendingCRS_step s st c h (x : loc) :
  wf s st c h → is_Some (getCRSReq x h) →
  ∃ h' a,
    append_field s x State.pendingCRS State.set_pendingCRS h = Some (tt, h')
    ∧ let st' := State.set_pendingCRS
                   {| sl_arr := Some a;
                      sl_len := S (sl_len (State.pendingCRS st)) |} st in
      let c' := set_c_pendingCRS (c_pendingCRS c ++ [x]) c in
      evolves s st c h st' c' h'
      ∧ view_of st' c' h'
        = set_v_pendingCRS
            (v_pendingCRS (view_of st c h) ++ [derefCRS h x])
            (view_of st c h).
Proof. append_step FPendingCRS State.set_pendingCRS. Qed.

Lemma append_pendingDKGComplaints_step s st c h (x : loc) :
  wf s st c h → is_Some (getDKG Complaint x h) →
  ∃ h' a,
    append_field s x State.pendingDKGComplaints
      State.set_pendingDKGComplaints h = Some (tt, h')
    ∧ let st' := State.set_pendingDKGComplaints
                   {| sl_arr := Some a;
                      sl_len := S (sl_len (State.pendingDKGComplaints st)) |}
                   st in
      let c' := set_c_pendingDKGComplaints
                  (c_pendingDKGComplaints c ++ [x]) c in
      evolves s st c h st' c' h'
      ∧ view_of st' c' h'
        = set_v_pendingDKGComplaints
            (v_pendingDKGComplaints (view_of st c h)
               ++ [derefDKG Complaint h x])
            (view_of st c h).
Proof.
  append_step FPendingDKGComplaints State.set_pendingDKGComplaints.
Qed.

Lemma append_pendingDKGFinals_step s st c h (x : loc) :
  wf s st c h → is_Some (getDKG Finalize x h) →
  ∃ h' a,
    append_field s x State.pendingDKGFinals State.set_pendingDKGFinals h
      = Some (tt, h')
    ∧ let st' := State.set_pendingDKGFinals
                   {| sl_arr := Some a;
                      sl_len := S (sl_len (State.pendingDKGFinals st)) |}
                   st in
      let c' := set_c_pendingDKGFinals (c_pendingDKGFinals c ++ [x]) c in
      evolves s st c h st' c' h'
      ∧ view_of st' c' h'
        = set_v_pendingDKGFinals
            (v_pendingDKGFinals (view_of st c h) ++ [derefDKG Finalize h x])
            (view_of st c h).
Proof. append_step FPendingDKGFinals State.set_pendingDKGFinals. Qed.

Lemma append_pendingDKGMasterPublicKeys_step s st c h (x : loc) :
  wf s st c h → is_Some (getDKG MasterPublicKey x h) →
  ∃ h' a,
    append_field s x State.pendingDKGMasterPublicKeys
      State.set_pendingDKGMasterPublicKeys h = Some (tt, h')
    ∧ let st' := State.set_pendingDKGMasterPublicKeys
                   {| sl_arr := Some a;
                      sl_len :=
                        S (sl_len (State.pendingDKGMasterPublicKeys st)) |}
                   st in
      let c' := set_c_pendingDKGMasterPublicKeys
                  (c_pendingDKGMasterPublicKeys c ++ [x]) c in
      evolves s st c h st' c' h'
      ∧ view_of st' c' h'
        = set_v_pendingDKGMasterPublicKeys
            (v_pendingDKGMasterPublicKeys (view_of st c h)
               ++ [derefDKG MasterPublicKey h x])
            (view_of st c h).
Proof.
  append_step FPendingDKGMasterPublicKeys
    State.set_pendingDKGMasterPublicKeys.
Qed.

(** The store after a fresh inner map has been put at [round]. *)
Lemma rounds_set_fresh m rounds round empty h :
  getRounds m h = Some rounds →
  rounds_set m round (fresh (dom h)) (<[fresh (dom h) := empty]> h)
  = Some (tt, <[m := ORounds (<[round := fresh (dom h)]> rounds)]>
                (<[fresh (dom h) := empty]> h))
  ∧ m ≠ fresh (dom h).
Proof.
  intros Hm. assert (m ≠ fresh (dom h)) as Hne.
  { intros ->. apply getRounds_Some in Hm. by rewrite fresh_lookup in Hm. }
  split; [|done]. unfold rounds_set. munfold.
  assert (getRounds m (<[fresh (dom h) := empty]> h) = Some rounds) as ->.
  { apply getRounds_Some. rewrite lookup_insert_ne by done.
    by apply getRounds_Some. }
  simpl. erewrite store_Some; [done|].
  rewrite lookup_insert_ne by done. by apply getRounds_Some.
Qed.

Lemma new_inner_modifies m (o1 o2 : obj) h l :
  (<[m := o1]> (<[fresh (dom h) := o2]> h)) !! l ≠ h !! l →
  l = m ∨ h !! l = None.
Proof.
  intros Hl. destruct (decide (l = m)) as [|Hm]; [by left|].
  destruct (decide (l = fresh (dom h))) as [->|Hf].
  - right. apply fresh_lookup.
  - by rewrite !lookup_insert_ne in Hl.
Qed.

Lemma new_inner_records_kept m (o1 o2 o : obj) h :
  h !! m = Some o → is_record o = false →
  records_kept h (<[m := o1]> (<[fresh (dom h) := o2]> h)).
Proof.
  intros Hm Ho l o' Hl Ho'. rewrite !lookup_insert_ne; [done|..].
  - intros <-. by rewrite fresh_lookup in Hl.
  - intros <-. congruence.
Qed.

(** [s.dkgComplaints[round] = make(map[NodeID][]*Complaint)] for a round
    that has no entry: P4. *)
Lemma new_inner_complaints_step s st c h round :
  wf s st c h → c_complaints c !! round = None →
  let inner := fresh (dom h) in
  ∃ h',
    rounds_set (State.dkgComplaints st) round inner
      (<[inner := OComplaintsOf ∅]> h) = Some (tt, h')
    ∧ let c' := set_c_complaints
                  (<[round := (inner, ∅)]> (c_complaints c)) c in
      evolves s st c h st c' h'
      ∧ view_of st c' h'
        = set_v_complaints (<[round := ∅]> (v_complaints (view_of st c h)))
            (view_of st c h).
Proof.
  intros Hwf Hround inner. pose proof Hwf as (Hh & Hv & Hsep & Hnil).
  pose proof (proj1 (holds_roles _ _ _ _) Hh (ROuter Complaint)) as Hm.
  simpl in Hm.
  destruct (rounds_set_fresh _ _ round (OComplaintsOf ∅) h Hm) as [Heq Hne].
  eexists. split; [exact Heq|]. intros c'.
  match goal with |- evolves _ _ _ _ _ _ ?h1 ∧ _ => set (h' := h1) end.
  assert (records_kept h h') as Hk.
  { eapply new_inner_records_kept; [by apply getRounds_Some|done]. }
  pose proof (valid_kept _ h h' Hk Hv) as (?&?&?&?&?&?&?&?).
  split.
  - apply (wf_step _ _ _ _ _ _ _ [ROuter Complaint; RInner Complaint round]);
      [done|..].
    + intros l Hl. apply new_inner_modifies in Hl as [->|Hl]; [right|by left].
      exists (ROuter Complaint). split; [in_list|done].
    + other_roles; try done.
      * assert (r ≠ round) by (intros ->; apply Hρ; in_list).
        rewrite !lookup_insert_ne by done. done.
      * destruct (decide (r = round)) as [->|].
        -- rewrite lookup_insert_eq, Hround. simpl. split; [done|].
           intros h0 _ x y [= <-]. simpl. by rewrite lookup_empty.
        -- rewrite !lookup_insert_ne by done. done.
    + changed_roles.
      * apply getRounds_Some. unfold h'. rewrite lookup_insert_eq.
        by rewrite fmap_insert.
      * rewrite lookup_insert_eq. intros x [= <-]. simpl.
        apply getComplaintsOf_Some. unfold h'.
        rewrite lookup_insert_ne, lookup_insert_eq by done.
        by rewrite fmap_empty.
    + changed_roles.
      * intros l [= <-]. by left.
      * rewrite lookup_insert_eq. simpl. intros l [= <-]. right.
        split; [apply fresh_lookup|]. changed_roles; [|done].
        by intros [= ?].
    + split_and!; try done. simpl. apply map_Forall_insert_2; [|done].
      simpl. apply map_Forall_empty.
    + done.
  - rewrite <-(view_of_kept _ _ h h') by done.
    unfold view_of. simpl. f_equal. by rewrite fmap_insert.
Qed.

(** The same for the maps of master public keys and of finals, of
    kind [K]: P4. *)
Ltac new_inner_records_step K :=
  let Hwf := fresh "Hwf" in
  let Hround := fresh "Hround" in
  let inner := fresh "inner" in
  let Hh := fresh "Hh" in
  let Hv := fresh "Hv" in
  let Hsep := fresh "Hsep" in
  let Hnil := fresh "Hnil" in
  let Hm := fresh "Hm" in
  let Heq := fresh "Heq" in
  let Hne := fresh "Hne" in
  let Hk := fresh "Hk" in
  let h' := fresh "h'" in
  let l := fresh "l" in
  let Hl := fresh "Hl" in
  let x := fresh "x" in
  intros Hwf Hround inner; pose proof Hwf as (Hh & Hv & Hsep & Hnil);
  pose proof (proj1 (holds_roles _ _ _ _) Hh (ROuter K)) as Hm;
  simpl in Hm;
  match goal with
  | |- ∃ _, rounds_set _ ?round _ (<[_ := ?e]> ?h) = _ ∧ _ =>
      destruct (rounds_set_fresh _ _ round e h Hm) as [Heq Hne];
      eexists; split; [exact Heq|]; intros ?;
      match goal with |- evolves _ _ _ _ _ _ ?h1 ∧ _ =>
        set (h' := h1);
        assert (records_kept h h') as Hk
          by (eapply new_inner_records_kept; [by apply getRounds_Some|done]);
        pose proof (valid_kept _ h h' Hk Hv) as (?&?&?&?&?&?&?&?);
        split;
        [ apply (wf_step _ _ _ _ _ _ _ [ROuter K; RInner K round]);
            [done|..];
          [ intros l Hl;
            apply new_inner_modifies in Hl as [->|Hl]; [right|by left];
            exists (ROuter K); split; [in_list|done]
          | other_roles; try done;
            match goal with
            | Hρ : RInner _ ?r ∉ _ |- _ =>
                assert (r ≠ round) by (intros ->; apply Hρ; in_list);
                rewrite !lookup_insert_ne by done; done
            end
          | changed_roles;
            [ apply getRounds_Some; unfold h'; rewrite lookup_insert_eq;
              by rewrite fmap_insert
            | rewrite lookup_insert_eq; intros x [= <-]; simpl;
              apply getRecordOf_Some; unfold h';
              by rewrite lookup_insert_ne, lookup_insert_eq by done ]
          | changed_roles;
            [ intros l [= <-]; by left
            | rewrite lookup_insert_eq; simpl; intros l [= <-]; right;
              split; [apply fresh_lookup|]; changed_roles; [|done];
              by intros [= ?] ]
          | split_and!; try done; simpl;
            apply map_Forall_insert_2; [|done]; simpl;
            apply map_Forall_empty
          | done ]
        | rewrite <-(view_of_kept _ _ h h') by done;
          unfold view_of; simpl; f_equal; by rewrite fmap_insert ]
      end
  end.

Lemma new_inner_mpks_step s st c h round :
  wf s st c h → c_mpks c !! round = None →
  let inner := fresh (dom h) in
  ∃ h',
    rounds_set (State.dkgMasterPublicKeys st) round inner
      (<[inner := ORecordOf ∅]> h) = Some (tt, h')
    ∧ let c' := set_c_mpks (<[round := (inner, ∅)]> (c_mpks c)) c in
      evolves s st c h st c' h'
      ∧ view_of st c' h'
        = set_v_mpks (<[round := ∅]> (v_mpks (view_of st c h)))
            (view_of st c h).
Proof. new_inner_records_step MasterPublicKey. Qed.

Lemma new_inner_finals_step s st c h round :
  wf s st c h → c_finals c !! round = None →
  let inner := fresh (dom h) in
  ∃ h',
    rounds_set (State.dkgFinals st) round inner
      (<[inner := ORecordOf ∅]> h) = Some (tt, h')
    ∧ let c' := set_c_finals (<[round := (inner, ∅)]> (c_finals c)) c in
      evolves s st c h st c' h'
      ∧ view_of st c' h'
        = set_v_finals (<[round := ∅]> (v_finals (view_of st c h)))
            (view_of st c h).
Proof. new_inner_records_step Finalize. Qed.

Lemma recordOf_set_Some inner nID p m h :
  getRecordOf inner h = Some m →
  recordOf_set inner nID p h
  = Some (tt, <[inner := ORecordOf (<[nID := p]> m)]> h).
Proof.
  intros Hm. unfold recordOf_set. munfold. rewrite Hm. simpl.
  apply getRecordOf_Some in Hm. by erewrite store_Some.
Qed.

Lemma fmap_fst_insert_id {A} (m : gmap Z (loc * A)) round inner x y :
  m !! round = Some (inner, x) →
  fst <$> <[round := (inner, y)]> m = fst <$> m.
Proof.
  intros Hm. rewrite fmap_insert. apply insert_id.
  by rewrite lookup_fmap, Hm.
Qed.

(** [s.dkgMasterPublicKeys[round][nID] = p] and the same on the finals,
    for a round that has an inner map: P6. *)
Ltac recordOf_set_step K :=
  let Hwf := fresh "Hwf" in
  let Hround := fresh "Hround" in
  let Hp := fresh "Hp" in
  let Hh := fresh "Hh" in
  let Hv := fresh "Hv" in
  let Hsep := fresh "Hsep" in
  let Hnil := fresh "Hnil" in
  let Hm := fresh "Hm" in
  let Hk := fresh "Hk" in
  let h' := fresh "h'" in
  let l := fresh "l" in
  let Hl := fresh "Hl" in
  let x := fresh "x" in
  let V := fresh "V" in
  intros Hwf Hround Hp; pose proof Hwf as (Hh & Hv & Hsep & Hnil);
  match type of Hround with
  | _ !! ?round = Some (?inner, ?m) =>
      pose proof (proj1 (holds_roles _ _ _ _) Hh (RInner K round) _ Hround)
        as Hm;
      simpl in Hm;
      eexists; split; [by apply recordOf_set_Some|]; intros ?;
      match goal with |- evolves _ _ _ ?h _ _ ?h1 ∧ _ =>
        set (h' := h1);
        assert (records_kept h h') as Hk
          by (intros l x Hl ?; unfold h';
              rewrite lookup_insert_ne; [done|]; intros <-;
              apply getRecordOf_Some in Hm; by simplify_eq);
        pose proof (valid_kept _ h h' Hk Hv) as V;
        split;
        [ apply (wf_step _ _ _ _ _ _ _ [RInner K round]); [done|..];
          [ intros l Hl; right; exists (RInner K round);
            split; [in_list|]; simpl; rewrite Hround; simpl;
            destruct (decide (l = inner)) as [->|]; [done|];
            unfold h' in Hl; by rewrite lookup_insert_ne in Hl
          | other_roles; try done;
            [ by erewrite fmap_fst_insert_id
            | match goal with
              | Hρ : RInner _ ?r ∉ _ |- _ =>
                  assert (r ≠ round) by (intros ->; apply Hρ; in_list);
                  rewrite !lookup_insert_ne by done; done
              end ]
          | changed_roles; rewrite lookup_insert_eq; intros x [= <-]; simpl;
            apply getRecordOf_Some, lookup_insert_eq
          | changed_roles; rewrite lookup_insert_eq, Hround; simpl;
            intros l [= <-]; by left
          | destruct V as (?&?&?&?&?&?&V7&V8);
            split_and!; try done; simpl;
            apply map_Forall_insert_2; [|done]; simpl;
            (apply map_Forall_insert_2;
             [by apply (getDKG_kept_Some _ _ h h')|]);
            first [ apply (V7 round _ Hround) | apply (V8 round _ Hround) ]
          | done ]
        | rewrite <-(view_of_kept _ _ h h') by done;
          unfold view_of; simpl; f_equal;
          rewrite fmap_insert, lookup_fmap, Hround; simpl;
          unfold view_recordOf; simpl; rewrite fmap_insert;
          unfold derefDKG; by rewrite (getDKG_kept _ _ h h') ]
      end
  end.

Lemma mpks_set_step s st c h round inner m nID p :
  wf s st c h → c_mpks c !! round = Some (inner, m) →
  is_Some (getDKG MasterPublicKey p h) →
  ∃ h',
    recordOf_set inner nID p h = Some (tt, h')
    ∧ let c' := set_c_mpks
                  (<[round := (inner, <[nID := p]> m)]> (c_mpks c)) c in
      evolves s st c h st c' h'
      ∧ view_of st c' h'
        = set_v_mpks
            (<[round := <[nID := derefDKG MasterPublicKey h p]>
                          (default ∅ (v_mpks (view_of st c h) !! round))]>
               (v_mpks (view_of st c h)))
            (view_of st c h).
Proof. recordOf_set_step MasterPublicKey. Qed.

Lemma finals_set_step s st c h round inner m nID p :
  wf s st c h → c_finals c !! round = Some (inner, m) →
  is_Some (getDKG Finalize p h) →
  ∃ h',
    recordOf_set inner nID p h = Some (tt, h')
    ∧ let c' := set_c_finals
                  (<[round := (inner, <[nID := p]> m)]> (c_finals c)) c in
      evolves s st c h st c' h'
      ∧ view_of st c' h'
        = set_v_finals
            (<[round := <[nID := derefDKG Finalize h p]>
                          (default ∅ (v_finals (view_of st c h) !! round))]>
               (v_finals (view_of st c h)))
            (view_of st c h).
Proof. recordOf_set_step Finalize. Qed.

(** [s.dkgComplaints[round][nID] = sl], where the backing array of [sl]
    is the one the entry had or a new one, and has been filled since the
    store [h]: P5. *)
Lemma complaints_set_step s st c h hm round inner m nID sl elems :
  wf s st c h → c_complaints c !! round = Some (inner, m) →
  (∀ l, hm !! l ≠ h !! l →
        h !! l = None ∨ role_at s st c (RArr round nID) = Some l) →
  slice_elems sl hm = Some elems →
  (∀ a, sl_arr sl = Some a →
        role_at s st c (RArr round nID) = Some a ∨ h !! a = None) →
  Forall (λ p, is_Some (getDKG Complaint p hm)) elems →
  ∃ h',
    complaintsOf_set inner nID sl hm = Some (tt, h')
    ∧ let c' := set_c_complaints
                  (<[round := (inner, <[nID := (sl, elems)]> m)]>
                     (c_complaints c)) c in
      evolves s st c h st c' h'
      ∧ view_of st c' h'
        = set_v_complaints
            (<[round := <[nID := derefDKG Complaint hm <$> elems]>
                          (default ∅ (v_complaints (view_of st c h) !! round))]>
               (v_complaints (view_of st c h)))
            (view_of st c h).
Proof.
  intros Hwf Hround Hmid Hsl Harr Hrec.
  pose proof Hwf as (Hh & Hv & Hsep & Hnil).
  pose proof (proj1 (holds_roles _ _ _ _) Hh (RInner Complaint round) _ Hround)
    as Hm.
  simpl in Hm.
  assert (role_at s st c (RInner Complaint round) = Some inner) as Hinner
    by (simpl; by rewrite Hround).
  assert (role_at s st c (RArr round nID) ≠ Some inner) as Hni.
  { intros Ha. by specialize (Hsep _ _ _ Hinner Ha). }
  assert (hm !! inner = h !! inner) as Hsame.
  { destruct (decide (hm !! inner = h !! inner)) as [|Hne]; [done|].
    destruct (Hmid _ Hne) as [Hn|]; [|done].
    apply getComplaintsOf_Some in Hm. congruence. }
  assert (getComplaintsOf inner hm = Some (fst <$> m)) as Hm'.
  { apply getComplaintsOf_Some. rewrite Hsame. by apply getComplaintsOf_Some. }
  set (h' := <[inner := OComplaintsOf (<[nID := sl]> (fst <$> m))]> hm).
  exists h'. split.
  { unfold complaintsOf_set. munfold. rewrite Hm'. simpl.
    apply getComplaintsOf_Some in Hm'. by erewrite store_Some. }
  intros c'.
  assert (records_kept h hm) as Hk1.
  { intros l o Hl Ho. destruct (decide (hm !! l = h !! l)) as [->|Hne]; [done|].
    destruct (Hmid _ Hne) as [|Hr]; [congruence|].
    destruct (role_exists _ _ _ _ _ _
                (proj1 (holds_roles _ _ _ _) Hh (RArr round nID)) Hr)
      as (o' & Ho' & Hnr). congruence. }
  assert (records_kept hm h') as Hk2.
  { intros l o Hl Ho. unfold h'. rewrite lookup_insert_ne; [done|]. intros <-.
    apply getComplaintsOf_Some in Hm'. by simplify_eq. }
  assert (records_kept h h') as Hk by (intros l o Hl Ho; eauto).
  assert (slice_elems sl h' = Some elems) as Hsl'.
  { rewrite <-Hsl. apply slice_elems_frame. intros a Ha. unfold h'.
    rewrite lookup_insert_ne; [done|]. intros <-.
    destruct (Harr _ Ha) as [|Hn]; [done|].
    apply getComplaintsOf_Some in Hm. congruence. }
  pose proof (valid_kept _ h h' Hk Hv) as (?&?&?&?&?&V6&?&?).
  split.
  - apply (wf_step _ _ _ _ _ _ _ [RInner Complaint round; RArr round nID]);
      [done|..].
    + intros l Hl. destruct (decide (l = inner)) as [->|Hne].
      * right. exists (RInner Complaint round). split; [in_list|done].
      * unfold h' in Hl. rewrite lookup_insert_ne in Hl by done.
        destruct (Hmid _ Hl) as [|Hr]; [by left|right].
        exists (RArr round nID). split; [in_list|done].
    + other_roles; try done.
      * by erewrite fmap_fst_insert_id.
      * assert (r ≠ round) by (intros ->; apply Hρ; in_list).
        rewrite !lookup_insert_ne by done. done.
      * destruct (decide (r = round)) as [->|].
        -- assert (n ≠ nID) by (intros ->; apply Hρ; in_list).
           rewrite lookup_insert_eq, Hround. simpl.
           rewrite lookup_insert_ne by done. split; [done|].
           intros h0 Hc x y [= <-]. simpl. rewrite lookup_insert_ne by done.
           by apply (Hc (inner, m)).
        -- rewrite !lookup_insert_ne by done. done.
    + changed_roles.
      * rewrite lookup_insert_eq. intros x [= <-]. simpl.
        apply getComplaintsOf_Some. unfold h'. rewrite lookup_insert_eq.
        by rewrite fmap_insert.
      * rewrite lookup_insert_eq. intros x y [= <-]. simpl.
        rewrite lookup_insert_eq. by intros [= <-].
    + changed_roles.
      * rewrite lookup_insert_eq, Hround. simpl. intros l [= <-]. by left.
      * rewrite lookup_insert_eq, Hround. simpl. rewrite lookup_insert_eq.
        simpl. intros a Ha. simpl in Ha.
        destruct (Harr _ Ha) as [Hold|Hnew].
        { left. simpl in Hold. by rewrite Hround in Hold. }
        right. split; [done|]. changed_roles; [|done].
        rewrite lookup_insert_eq. simpl. intros [= ->].
        apply getComplaintsOf_Some in Hm. congruence.
    + split_and!; try done. simpl. apply map_Forall_insert_2; [|done].
      simpl. apply map_Forall_insert_2; [|apply (V6 round _ Hround)].
      simpl. eapply Forall_impl; [done|]. intros q.
      by apply getDKG_kept_Some.
    + done.
  - rewrite <-(view_of_kept _ _ h h') by done.
    unfold view_of. simpl. f_equal.
    rewrite fmap_insert, lookup_fmap, Hround. simpl.
    unfold view_complaintsOf. simpl. rewrite fmap_insert.
    unfold view_comps at 1. simpl.
    by rewrite (derefDKG_list_kept _ _ hm h').
Qed.

End steps.

(** ** applyRequest on views *)

(** What a request does to the view of a state: the pure counterpart of
    applyRequest.  [None] is a panic (a failed type assertion). *)
Definition addRecord (d : typesDKG.t) (m : gmap Z (gmap Z typesDKG.t))
    : gmap Z (gmap Z typesDKG.t) :=
  <[typesDKG.Round d :=
      <[typesDKG.ProposerID d := d]> (default ∅ (m !! typesDKG.Round d))]> m.

Definition addComplaint (d : typesDKG.t)
    (m : gmap Z (gmap Z (list typesDKG.t))) : gmap Z (gmap Z (list typesDKG.t)) :=
  let forRound := default ∅ (m !! typesDKG.Round d) in
  <[typesDKG.Round d :=
      <[typesDKG.ProposerID d :=
          default [] (forRound !! typesDKG.ProposerID d) ++ [d]]> forRound]> m.

Definition on_scalars (f : State.t → State.t) (v : view) : view :=
  set_v_scalars (f (v_scalars v)) v.

Section applyAbs.
Context `{!Externals}.

Definition applyAbs (t : Z) (rv : payload crsAdditionRequest.t typesDKG.t)
    (v : view) : option (option error * view) :=
  match t, rv with
  | StateAddNode, PBytes b =>
      match NewPublicKeyFromByteSlice b with
      | None => Some (Some ErrKeyParse, v)
      | Some pubKey =>
          Some (None, set_v_nodes (<[NewNodeID pubKey := pubKey]> (v_nodes v)) v)
      end
  | StateAddCRS, PCRS r =>
      if decide (crsAdditionRequest.Round r ≠ Z.of_nat (length (v_crs v)))
      then Some (Some ErrDuplicatedChange, v)
      else Some (None, set_v_crs (v_crs v ++ [crsAdditionRequest.CRS r]) v)
  | StateAddDKGComplaint, PDKG Complaint d =>
      Some (None, set_v_complaints (addComplaint d (v_complaints v)) v)
  | StateAddDKGMasterPublicKey, PDKG MasterPublicKey d =>
      Some (None, set_v_mpks (addRecord d (v_mpks v)) v)
  | StateAddDKGFinal, PDKG Finalize d =>
      Some (None, set_v_finals (addRecord d (v_finals v)) v)
  | StateChangeNumChains, PUint32 x =>
      Some (None, on_scalars (State.set_numChains x) v)
  | StateChangeLambdaBA, PUint64 x =>
      Some (None, on_scalars (State.set_lambdaBA (to_int64 x)) v)
  | StateChangeLambdaDKG, PUint64 x =>
      Some (None, on_scalars (State.set_lambdaDKG (to_int64 x)) v)
  | StateChangeRoundInterval, PUint64 x =>
      Some (None, on_scalars (State.set_roundInterval (to_int64 x)) v)
  | StateChangeMinBlockInterval, PUint64 x =>
      Some (None, on_scalars (State.set_minBlockInterval (to_int64 x)) v)
  | StateChangeMaxBlockInterval, PUint64 x =>
      Some (None, on_scalars (State.set_maxBlockInterval (to_int64 x)) v)
  | StateChangeK, PUint64 x =>
      Some (None, on_scalars (State.set_k (to_int64 x)) v)
  | StateChangePhiRatio, PUint32 x =>
      Some (None, on_scalars (State.set_phiRatio (Float32frombits x)) v)
  | StateChangeNotarySetSize, PUint32 x =>
      Some (None, on_scalars (State.set_notarySetSize x) v)
  | StateChangeDKGSetSize, PUint32 x =>
      Some (None, on_scalars (State.set_dkgSetSize x) v)
  | (StateAddNode | StateAddCRS | StateAddDKGComplaint
    | StateAddDKGMasterPublicKey | StateAddDKGFinal | StateChangeNumChains
    | StateChangeLambdaBA | StateChangeLambdaDKG | StateChangeRoundInterval
    | StateChangeMinBlockInterval | StateChangeMaxBlockInterval
    | StateChangeK | StateChangePhiRatio | StateChangeNotarySetSize
    | StateChangeDKGSetSize), _ => None
  | _, _ => Some (Some ErrKiddingMe, v)
  end.

End applyAbs.

Arguments applyAbs : simpl never.

Section applying.
Context `{!Externals}.
Implicit Types (h : gmap positive obj) (l s p : positive) (o : obj).
Implicit Types (st : State.t) (c : content) (ρ : role).

(** What applyRequest establishes: the request [req], whose payload reads
    as [rv], takes the state to one whose view is given by applyAbs. *)
Definition applied s st c h (req : StateChangeRequest.t)
    (r : option (option error * view)) : Prop :=
  match r with
  | None => applyRequest s req h = None
  | Some (e, v') =>
      ∃ h' st' c',
        applyRequest s req h = Some (e, h')
        ∧ evolves s st c h st' c' h'
        ∧ view_of st' c' h' = v'
  end.

Lemma applied_scalar s st c h req (f : State.t → State.t) :
  wf s st c h → refs (f st) = refs st → scalars (f st) = f (scalars st) →
  (∀ h0, applyRequest s req h0
         = (st0 ← read (getState s); _ ← update s f; mret None) h0) →
  applied s st c h req (Some (None, on_scalars f (view_of st c h))).
Proof.
  intros Hwf Hf Hsc Hreq.
  destruct (update_step s st c h f Hwf Hf) as (h' & Heq & Hev & Hview).
  exists h', (f st), c. split; [|split; [done|]].
  - rewrite Hreq. munfold.
    destruct Hwf as (Hh & _).
    rewrite (proj1 (holds_roles _ _ _ _) Hh RState). simpl.
    by rewrite Heq.
  - rewrite Hview. unfold on_scalars. by rewrite Hsc.
Qed.

Lemma applied_node s st c h b :
  wf s st c h →
  applied s st c h
    {| StateChangeRequest.Typ := StateAddNode;
       StateChangeRequest.Payload := PBytes b |}
    (applyAbs StateAddNode (PBytes b) (view_of st c h)).
Proof.
  intros Hwf. pose proof Hwf as (Hh & _).
  pose proof (proj1 (holds_roles _ _ _ _) Hh RState) as Hst. simpl in Hst.
  unfold applyAbs, applied, applyRequest. munfold. rewrite Hst. simpl.
  destruct (NewPublicKeyFromByteSlice b) as [key|].
  - destruct (nodes_set_step s st c h (NewNodeID key) key Hwf)
      as (h' & Heq & Hev & Hview).
    eexists h', st, _. rewrite Heq. done.
  - exists h, st, c. split; [done|]. split; [by apply evolves_refl|done].
Qed.

Lemma applied_crs s st c h p r :
  wf s st c h → getCRSReq p h = Some r →
  applied s st c h
    {| StateChangeRequest.Typ := StateAddCRS;
       StateChangeRequest.Payload := PCRS p |}
    (applyAbs StateAddCRS (PCRS r) (view_of st c h)).
Proof.
  intros Hwf Hr. pose proof Hwf as (Hh & _).
  pose proof (proj1 (holds_roles _ _ _ _) Hh RState) as Hst.
  pose proof (proj1 (holds_roles _ _ _ _) Hh (RSlice FCrs)) as Hcrs.
  simpl in Hst, Hcrs. apply slice_elems_length in Hcrs.
  unfold applyAbs, applied, applyRequest. munfold. rewrite Hst. simpl.
  rewrite Hr. simpl. rewrite Hcrs.
  destruct (decide (crsAdditionRequest.Round r ≠ _)).
  - exists h, st, c. split; [done|]. split; [by apply evolves_refl|done].
  - destruct (append_crs_step s st c h (crsAdditionRequest.CRS r) Hwf)
      as (h' & a & Heq & Hev & Hview).
    eexists h', _, _. rewrite Heq. done.
Qed.

Lemma set_v_finals_insert_id st c h round x :
  v_finals (view_of st c h) !! round = Some x →
  set_v_finals (<[round := x]> (v_finals (view_of st c h))) (view_of st c h)
  = view_of st c h.
Proof. intros Hx. unfold set_v_finals. rewrite insert_id by done. done. Qed.

Lemma set_v_mpks_insert_id st c h round x :
  v_mpks (view_of st c h) !! round = Some x →
  set_v_mpks (<[round := x]> (v_mpks (view_of st c h))) (view_of st c h)
  = view_of st c h.
Proof. intros Hx. unfold set_v_mpks. rewrite insert_id by done. done. Qed.

Lemma set_v_complaints_insert_id st c h round x :
  v_complaints (view_of st c h) !! round = Some x →
  set_v_complaints (<[round := x]> (v_complaints (view_of st c h)))
    (view_of st c h)
  = view_of st c h.
Proof. intros Hx. unfold set_v_complaints. rewrite insert_id by done. done. Qed.

(** [s.dkgFinals[round]], created when missing. *)
Lemma innerMap_finals s st c h round :
  wf s st c h →
  ∃ inner m h1 c1,
    innerMap (State.dkgFinals st) round (ORecordOf ∅) h = Some (inner, h1)
    ∧ evolves s st c h st c1 h1
    ∧ c_finals c1 !! round = Some (inner, m)
    ∧ records_kept h h1
    ∧ view_of st c1 h1
      = set_v_finals
          (<[round := default ∅ (v_finals (view_of st c h) !! round)]>
             (v_finals (view_of st c h)))
          (view_of st c h).
Proof.
  intros Hwf. pose proof Hwf as (Hh & _).
  pose proof (proj1 (holds_roles _ _ _ _) Hh (ROuter Finalize)) as Hm.
  simpl in Hm. unfold innerMap. munfold. rewrite Hm. simpl.
  rewrite lookup_fmap.
  destruct (c_finals c !! round) as [[inner m]|] eqn:Hround; simpl.
  - exists inner, m, h, c. split; [done|]. split; [by apply evolves_refl|].
    split; [done|]. split; [by intros ???|].
    symmetry. apply set_v_finals_insert_id. simpl.
    by rewrite lookup_fmap, Hround.
  - pose proof (new_inner_finals_step s st c h round Hwf Hround) as Hn.
    cbv zeta in Hn. destruct Hn as (h' & Heq & Hev & Hview).
    rewrite Heq. eexists _, ∅, h', _. split; [done|]. split; [done|].
    split; [by simpl; rewrite lookup_insert_eq|]. split.
    { eapply modifies_records_kept; [done|]. apply Hev. }
    rewrite Hview. simpl. by rewrite lookup_fmap, Hround.
Qed.

Lemma innerMap_mpks s st c h round :
  wf s st c h →
  ∃ inner m h1 c1,
    innerMap (State.dkgMasterPublicKeys st) round (ORecordOf ∅) h
      = Some (inner, h1)
    ∧ evolves s st c h st c1 h1
    ∧ c_mpks c1 !! round = Some (inner, m)
    ∧ records_kept h h1
    ∧ view_of st c1 h1
      = set_v_mpks
          (<[round := default ∅ (v_mpks (view_of st c h) !! round)]>
             (v_mpks (view_of st c h)))
          (view_of st c h).
Proof.
  intros Hwf. pose proof Hwf as (Hh & _).
  pose proof (proj1 (holds_roles _ _ _ _) Hh (ROuter MasterPublicKey)) as Hm.
  simpl in Hm. unfold innerMap. munfold. rewrite Hm. simpl.
  rewrite lookup_fmap.
  destruct (c_mpks c !! round) as [[inner m]|] eqn:Hround; simpl.
  - exists inner, m, h, c. split; [done|]. split; [by apply evolves_refl|].
    split; [done|]. split; [by intros ???|].
    symmetry. apply set_v_mpks_insert_id. simpl.
    by rewrite lookup_fmap, Hround.
  - pose proof (new_inner_mpks_step s st c h round Hwf Hround) as Hn.
    cbv zeta in Hn. destruct Hn as (h' & Heq & Hev & Hview).
    rewrite Heq. eexists _, ∅, h', _. split; [done|]. split; [done|].
    split; [by simpl; rewrite lookup_insert_eq|]. split.
    { eapply modifies_records_kept; [done|]. apply Hev. }
    rewrite Hview. simpl. by rewrite lookup_fmap, Hround.
Qed.

Lemma innerMap_complaints s st c h round :
  wf s st c h →
  ∃ inner m h1 c1,
    innerMap (State.dkgComplaints st) round (OComplaintsOf ∅) h
      = Some (inner, h1)
    ∧ evolves s st c h st c1 h1
    ∧ c_complaints c1 !! round = Some (inner, m)
    ∧ records_kept h h1
    ∧ view_of st c1 h1
      = set_v_complaints
          (<[round := default ∅ (v_complaints (view_of st c h) !! round)]>
             (v_complaints (view_of st c h)))
          (view_of st c h).
Proof.
  intros Hwf. pose proof Hwf as (Hh & _).
  pose proof (proj1 (holds_roles _ _ _ _) Hh (ROuter Complaint)) as Hm.
  simpl in Hm. unfold innerMap. munfold. rewrite Hm. simpl.
  rewrite lookup_fmap.
  destruct (c_complaints c !! round) as [[inner m]|] eqn:Hround; simpl.
  - exists inner, m, h, c. split; [done|]. split; [by apply evolves_refl|].
    split; [done|]. split; [by intros ???|].
    symmetry. apply set_v_complaints_insert_id. simpl.
    by rewrite lookup_fmap, Hround.
  - pose proof (new_inner_complaints_step s st c h round Hwf Hround) as Hn.
    cbv zeta in Hn. destruct Hn as (h' & Heq & Hev & Hview).
    rewrite Heq. eexists _, ∅, h', _. split; [done|]. split; [done|].
    split; [by simpl; rewrite lookup_insert_eq|]. split.
    { eapply modifies_records_kept; [done|]. apply Hev. }
    rewrite Hview. simpl. by rewrite lookup_fmap, Hround.
Qed.

Lemma applied_final s st c h p d :
  wf s st c h → getDKG Finalize p h = Some d →
  applied s st c h
    {| StateChangeRequest.Typ := StateAddDKGFinal;
       StateChangeRequest.Payload := PDKG Finalize p |}
    (applyAbs StateAddDKGFinal (PDKG Finalize d) (view_of st c h)).
Proof.
  intros Hwf Hd. pose proof Hwf as (Hh & _).
  pose proof (proj1 (holds_roles _ _ _ _) Hh RState) as Hst. simpl in Hst.
  unfold applyAbs, applied, applyRequest, applyDKGRecord. munfold.
  rewrite Hst. simpl. rewrite Hd. simpl.
  destruct (innerMap_finals s st c h (typesDKG.Round d) Hwf)
    as (inner & m & h1 & c1 & Hin & Hev1 & Hround & Hk & Hview1).
  rewrite Hin.
  assert (getDKG Finalize p h1 = Some d) as Hd1.
  { apply getDKG_Some. apply Hk; [by apply getDKG_Some|done]. }
  destruct (finals_set_step s st c1 h1 _ inner m (typesDKG.ProposerID d) p
              (proj1 Hev1) Hround) as (h' & Heq & Hev & Hview); [by eexists|].
  rewrite Heq. eexists h', st, _. split; [done|].
  split; [by eapply evolves_trans|].
  rewrite Hview, Hview1. unfold addRecord, set_v_finals. simpl.
  rewrite lookup_insert_eq. simpl. rewrite insert_insert_eq.
  by rewrite (derefDKG_Some _ _ _ _ Hd1).
Qed.

Lemma applied_mpk s st c h p d :
  wf s st c h → getDKG MasterPublicKey p h = Some d →
  applied s st c h
    {| StateChangeRequest.Typ := StateAddDKGMasterPublicKey;
       StateChangeRequest.Payload := PDKG MasterPublicKey p |}
    (applyAbs StateAddDKGMasterPublicKey (PDKG MasterPublicKey d)
       (view_of st c h)).
Proof.
  intros Hwf Hd. pose proof Hwf as (Hh & _).
  pose proof (proj1 (holds_roles _ _ _ _) Hh RState) as Hst. simpl in Hst.
  unfold applyAbs, applied, applyRequest, applyDKGRecord. munfold.
  rewrite Hst. simpl. rewrite Hd. simpl.
  destruct (innerMap_mpks s st c h (typesDKG.Round d) Hwf)
    as (inner & m & h1 & c1 & Hin & Hev1 & Hround & Hk & Hview1).
  rewrite Hin.
  assert (getDKG MasterPublicKey p h1 = Some d) as Hd1.
  { apply getDKG_Some. apply Hk; [by apply getDKG_Some|done]. }
  destruct (mpks_set_step s st c1 h1 _ inner m (typesDKG.ProposerID d) p
              (proj1 Hev1) Hround) as (h' & Heq & Hev & Hview); [by eexists|].
  rewrite Heq. eexists h', st, _. split; [done|].
  split; [by eapply evolves_trans|].
  rewrite Hview, Hview1. unfold addRecord, set_v_mpks. simpl.
  rewrite lookup_insert_eq. simpl. rewrite insert_insert_eq.
  by rewrite (derefDKG_Some _ _ _ _ Hd1).
Qed.

(** append writes to the backing array of the slice or to a new object,
    never to a record. *)
Lemma append_records_kept `{ArrayOf T} (sl : slice) (elems : list T) a cap
    (w : list T) h :
  slice_elems sl h = Some elems →
  sl_arr sl = Some a ∨ h !! a = None →
  records_kept h (<[a := mkArr cap w]> h).
Proof.
  intros He Ha l o Hl Ho. rewrite lookup_insert_ne; [done|]. intros <-.
  destruct Ha as [Ha|Ha]; [|congruence].
  apply slice_elems_Some in He. rewrite Ha in He.
  destruct He as (c' & w' & Hs & _). rewrite Hl in Hs.
  injection Hs as ->. pose proof (mkArr_array c' w') as Harr.
  by destruct (mkArr c' w').
Qed.

Lemma applied_complaint s st c h p d :
  wf s st c h → getDKG Complaint p h = Some d →
  applied s st c h
    {| StateChangeRequest.Typ := StateAddDKGComplaint;
       StateChangeRequest.Payload := PDKG Complaint p |}
    (applyAbs StateAddDKGComplaint (PDKG Complaint d) (view_of st c h)).
Proof.
  intros Hwf Hd. pose proof Hwf as (Hh & _).
  pose proof (proj1 (holds_roles _ _ _ _) Hh RState) as Hst. simpl in Hst.
  unfold applyAbs, applied, applyRequest. munfold.
  rewrite Hst. simpl. rewrite Hd. simpl.
  set (round := typesDKG.Round d). set (pid := typesDKG.ProposerID d).
  destruct (innerMap_complaints s st c h round Hwf)
    as (inner & m & h1 & c1 & Hin & Hev1 & Hround & Hk & Hview1).
  rewrite Hin. pose proof (proj1 Hev1) as Hwf1.
  pose proof Hwf1 as (Hh1 & Hv1 & _).
  pose proof (proj1 (holds_roles _ _ _ _) Hh1 (RInner Complaint round)
                _ Hround) as Hm.
  simpl in Hm. rewrite Hm. simpl. rewrite lookup_fmap.
  set (osl := default nil_slice (fst <$> m !! pid)).
  set (oel := default [] (snd <$> m !! pid)).
  assert (slice_elems osl h1 = Some oel) as Hosl.
  { unfold osl, oel. destruct (m !! pid) as [y|] eqn:Hy; simpl; [|done].
    apply (proj1 (holds_roles _ _ _ _) Hh1 (RArr round pid) _ _ Hround Hy). }
  assert (Forall (λ q, is_Some (getDKG Complaint q h1)) oel) as Hoel.
  { unfold oel. destruct (m !! pid) as [y|] eqn:Hy; simpl; [|done].
    destruct Hv1 as (_ & _ & _ & _ & _ & V6 & _).
    apply (V6 round _ Hround pid y Hy). }
  assert (sl_arr osl = role_at s st c1 (RArr round pid)) as Hrole.
  { simpl. rewrite Hround. simpl. unfold osl.
    by destruct (m !! pid) as [y|]. }
  destruct (append_spec osl p h1 oel Hosl)
    as (a & cap & w & Happ & Ha & Hlen & Htake).
  rewrite Happ.
  set (sl := {| sl_arr := Some a; sl_len := S (sl_len osl) |}).
  set (hm := <[a := mkArr cap w]> h1).
  assert (records_kept h1 hm) as Hk1 by by eapply append_records_kept.
  assert (getDKG Complaint p hm = Some d) as Hdm.
  { apply getDKG_Some. apply Hk1; [|done]. apply Hk; [|done].
    by apply getDKG_Some. }
  destruct (complaints_set_step s st c1 h1 hm round inner m pid sl
              (oel ++ [p]) Hwf1 Hround) as (h' & Heq & Hev & Hview).
  { intros l Hl. unfold hm in Hl.
    destruct (decide (l = a)) as [->|]; [|by rewrite lookup_insert_ne in Hl].
    rewrite <-Hrole. destruct Ha; auto. }
  { by eapply append_elems. }
  { intros a' [= <-]. rewrite <-Hrole. destruct Ha; auto. }
  { apply Forall_app. split.
    - eapply Forall_impl; [done|]. intros q. by apply getDKG_kept_Some.
    - constructor; [by eexists|done]. }
  rewrite Heq. eexists h', st, _. split; [done|].
  split; [by eapply evolves_trans|].
  rewrite Hview, Hview1. unfold addComplaint, set_v_complaints. simpl.
  rewrite lookup_insert_eq. simpl. rewrite insert_insert_eq.
  fold round pid. f_equal. f_equal. f_equal.
  assert (default ∅ ((view_complaintsOf h <$> c_complaints c) !! round)
          = view_comps h1 <$> m) as ->.
  { apply (f_equal v_complaints) in Hview1. simpl in Hview1.
    apply (f_equal (λ x, x !! round)) in Hview1.
    rewrite lookup_fmap, Hround, lookup_insert_eq in Hview1. simpl in Hview1.
    by injection Hview1. }
  rewrite fmap_app. simpl. rewrite (derefDKG_Some _ _ _ _ Hdm).
  f_equal. rewrite lookup_fmap. unfold oel.
  destruct (m !! pid) as [y|]; simpl; [|done].
  unfold view_comps. by apply derefDKG_list_kept.
Qed.

(** applyRequest on a well-formed state does what applyAbs says: it
    panics only on a payload of the wrong type, and otherwise returns the
    error and leaves a well-formed state with the view applyAbs gives. *)
Lemma applyRequest_spec s st c h req t rv :
  wf s st c h → reifyRequest req h = Some (t, rv) →
  applied s st c h req (applyAbs t rv (view_of st c h)).
Proof.
  intros Hwf. pose proof Hwf as (Hh & _).
  pose proof (proj1 (holds_roles _ _ _ _) Hh RState) as Hst. simpl in Hst.
  destruct req as [t' pv]. unfold reifyRequest. simpl.
  destruct (reify pv h) as [rv'|] eqn:Hr; [|done]. simpl. intros [= <- <-].
  case_type t'; destruct pv as [key|dur|i|f|x|x|b|p|k p];
    try destruct k; simpl in Hr;
    try (destruct (getCRSReq p h) as [r|] eqn:Hp; [|done]);
    try (destruct (getDKG _ p h) as [d|] eqn:Hp; [|done]);
    simpl in Hr; injection Hr as <-.
  all: try (by apply applied_node).
  all: try (by apply applied_crs).
  all: try (by apply applied_complaint).
  all: try (by apply applied_mpk).
  all: try (by apply applied_final).
  all: try (unfold applyAbs; cbv beta iota;
            apply applied_scalar; [done|reflexivity|reflexivity|];
            intros h0; unfold applyRequest; reflexivity).
  all: try (unfold applyAbs, applied, applyRequest; munfold;
            rewrite Hst; reflexivity).
  all: unfold applyAbs, applied, applyRequest; munfold; rewrite Hst; simpl;
    exists h, st, c; (split; [done|]); split; [by apply evolves_refl|done].
Qed.

End applying.

(** ** Apply on views *)

Section batches.
Context `{!Externals}.
Implicit Types (h : gmap positive obj) (l s p : positive) (o : obj).
Implicit Types (st : State.t) (c : content) (ρ : role).

(** What unpackPayload decodes, with the records in place of the
    pointers to them. *)
Definition decodePayload (t : Z) (b : bytes)
    : error + payload crsAdditionRequest.t typesDKG.t :=
  let dkg k := match rlpDecodeDKG k typesDKG.zero b with
               | Some d => inr (PDKG k d)
               | None => inl ErrDecode
               end in
  let uint32 := match rlpDecodeUint32 b with
                | Some x => inr (PUint32 x)
                | None => inl ErrDecode
                end in
  let uint64 := match rlpDecodeUint64 b with
                | Some x => inr (PUint64 x)
                | None => inl ErrDecode
                end in
  match t with
  | StateAddCRS =>
      match rlpDecodeCRS b with
      | Some r => inr (PCRS r)
      | None => inl ErrDecode
      end
  | StateAddDKGComplaint => dkg Complaint
  | StateAddDKGMasterPublicKey => dkg MasterPublicKey
  | StateAddDKGFinal => dkg Finalize
  | StateChangeNumChains | StateChangePhiRatio | StateChangeNotarySetSize
  | StateChangeDKGSetSize => uint32
  | StateChangeLambdaBA | StateChangeLambdaDKG | StateChangeRoundInterval
  | StateChangeMinBlockInterval | StateChangeMaxBlockInterval
  | StateChangeK => uint64
  | StateAddNode =>
      match rlpDecodeBytes b with
      | Some x => inr (PBytes x)
      | None => inl ErrDecode
      end
  | _ => inl ErrUnknownStateChangeType
  end.

Fixpoint decodeRequests (rawReqs : list rawStateChangeRequest.t)
    : error + list (Z * payload crsAdditionRequest.t typesDKG.t) :=
  match rawReqs with
  | [] => inr []
  | r :: rest =>
      match decodePayload (rawStateChangeRequest.Typ r)
              (rawStateChangeRequest.Payload r) with
      | inl err => inl err
      | inr v =>
          match decodeRequests rest with
          | inl err => inl err
          | inr vs => inr ((rawStateChangeRequest.Typ r, v) :: vs)
          end
      end
  end.

(** The apply loop of Apply: it stops at the first request that fails,
    and what the requests before it did stays. *)
Fixpoint applyAllAbs (rs : list (Z * payload crsAdditionRequest.t typesDKG.t))
    (v : view) : option (option error * view) :=
  match rs with
  | [] => Some (None, v)
  | (t, rv) :: rest =>
      match applyAbs t rv v with
      | None => None
      | Some (Some err, v') => Some (Some err, v')
      | Some (None, v') => applyAllAbs rest v'
      end
  end.

Definition ApplyAbs (bs : bytes) (v : view) : option (option error * view) :=
  match rlpDecodeRequests bs with
  | None => Some (Some ErrDecode, v)
  | Some rawReqs =>
      match decodeRequests rawReqs with
      | inl err => Some (Some err, v)
      | inr rs => applyAllAbs rs v
      end
  end.

Lemma reifyRequest_mono req h h' r :
  h ⊆ h' → reifyRequest req h = Some r → reifyRequest req h' = Some r.
Proof.
  intros Hsub Hr. rewrite <-Hr. unfold reifyRequest.
  rewrite (reify_kept _ h h'); [done|by apply extends_records_kept|].
  unfold reifyRequest in Hr. by destruct (reify _ h).
Qed.

Lemma unpackPayload_reify raw h :
  ∃ r h1,
    unpackPayload raw h = Some (r, h1) ∧ h ⊆ h1
    ∧ match decodePayload (rawStateChangeRequest.Typ raw)
              (rawStateChangeRequest.Payload raw) with
      | inl err => r = inl err
      | inr rv => ∃ v, r = inr v ∧ reify v h1 = Some rv
      end.
Proof.
  destruct raw as [t b]. unfold unpackPayload, decodePayload. simpl.
  case_type t.
  all: try (eexists _, h; split; [reflexivity|]; split; [done|]; done).
  all: try (unfold unpackDKG; munfold; simpl;
            destruct (rlpDecodeDKG _ _ b) as [d|]; simpl;
            [ erewrite store_Some by apply lookup_insert_eq;
              rewrite insert_insert_eq;
              eexists _, _; split; [reflexivity|];
              split; [apply alloc_extends|];
              eexists; split; [reflexivity|]; simpl;
              unfold getDKG; by rewrite lookup_insert_eq, decide_True
            | eexists _, _; split; [reflexivity|];
              split; [apply alloc_extends|done] ]).
  all: try (unfold unpackUint32, unpackUint64; munfold;
            eexists _, h; split; [reflexivity|]; split; [done|];
            destruct (rlpDecodeUint32 b), (rlpDecodeUint64 b),
              (rlpDecodeBytes b); simpl; eauto).
  munfold. simpl. destruct (rlpDecodeCRS b) as [r|]; simpl.
  - erewrite store_Some by apply lookup_insert_eq. rewrite insert_insert_eq.
    eexists _, _. split; [reflexivity|]. split; [apply alloc_extends|].
    eexists. split; [reflexivity|]. simpl. unfold getCRSReq.
    by rewrite lookup_insert_eq.
  - eexists _, _. split; [reflexivity|]. split; [apply alloc_extends|]. done.
Qed.

Lemma unpackRequests_reify rawReqs h :
  ∃ r h1,
    unpackRequests rawReqs h = Some (r, h1) ∧ h ⊆ h1
    ∧ match decodeRequests rawReqs with
      | inl err => r = inl err
      | inr rs =>
          ∃ reqs, r = inr reqs
                  ∧ Forall2 (λ q x, reifyRequest q h1 = Some x) reqs rs
      end.
Proof.
  revert h. induction rawReqs as [|x rest IH]; intros h; simpl.
  - exists (inr []), h. munfold. split; [done|]. split; [done|].
    exists []. split; [done|]. constructor.
  - destruct (unpackPayload_reify x h) as (r & h1 & Hu & Hsub & Hr).
    munfold. rewrite Hu.
    destruct (decodePayload _ _) as [err|rv].
    + subst r. by exists (inl err), h1.
    + destruct Hr as (v & -> & Hv).
      destruct (IH h1) as (r' & h2 & Hu' & Hsub' & Hr').
      rewrite Hu'. eexists _, h2. split; [reflexivity|].
      split; [by etrans|].
      destruct (decodeRequests rest) as [err|rs]; [by subst|].
      destruct Hr' as (reqs & -> & Hreqs). eexists. split; [reflexivity|].
      constructor; [|done]. eapply reifyRequest_mono; [done|].
      unfold reifyRequest. simpl. by rewrite Hv.
Qed.

Lemma for_err_applied s reqs rs st c h :
  wf s st c h →
  Forall2 (λ q x, reifyRequest q h = Some x) reqs rs →
  match applyAllAbs rs (view_of st c h) with
  | None => for_err reqs (applyRequest s) h = None
  | Some (e, v') =>
      ∃ h' st' c',
        for_err reqs (applyRequest s) h = Some (e, h')
        ∧ evolves s st c h st' c' h'
        ∧ view_of st' c' h' = v'
  end.
Proof.
  intros Hwf Hreqs. revert reqs st c h Hwf Hreqs.
  induction rs as [|[t rv] rs IH]; intros reqs st c h Hwf Hreqs;
    inversion Hreqs as [|req ? reqs' ? Hreq Hrest]; subst; simpl.
  - exists h, st, c. split; [done|]. split; [by apply evolves_refl|done].
  - pose proof (applyRequest_spec s st c h req t rv Hwf Hreq) as Ha.
    unfold applied in Ha. munfold.
    destruct (applyAbs t rv (view_of st c h)) as [[[err|] v1]|].
    + destruct Ha as (h1 & st1 & c1 & -> & Hev & Hview). by exists h1, st1, c1.
    + destruct Ha as (h1 & st1 & c1 & -> & Hev & <-).
      assert (records_kept h h1) as Hk.
      { eapply modifies_records_kept; [apply Hwf|apply Hev]. }
      assert (Forall2 (λ q x, reifyRequest q h1 = Some x) reqs' rs) as Hrest1.
      { eapply Forall2_impl; [done|]. intros q x Hq. simpl in *.
        rewrite <-Hq. unfold reifyRequest.
        rewrite (reify_kept _ h h1); [done..|].
        unfold reifyRequest in Hq. by destruct (reify _ h). }
      specialize (IH reqs' st1 c1 h1 (proj1 Hev) Hrest1).
      destruct (applyAllAbs rs (view_of st1 c1 h1)) as [[e v']|]; [|done].
      destruct IH as (h2 & st2 & c2 & Heq & Hev2 & Hview2).
      exists h2, st2, c2. split; [done|]. split; [|done].
      by eapply evolves_trans.
    + by rewrite Ha.
Qed.

(** The requests a batch decodes to have payloads of the types the
    codec table gives, so applying them never panics. *)
Lemma decodePayload_typed t b rv v :
  decodePayload t b = inr rv → is_Some (applyAbs t rv v).
Proof.
  unfold decodePayload, applyAbs. case_type t; simpl; try done.
  all: repeat case_match; intros; simplify_eq; eauto.
Qed.

Lemma applyAllAbs_typed rawReqs rs v :
  decodeRequests rawReqs = inr rs → is_Some (applyAllAbs rs v).
Proof.
  revert rs v. induction rawReqs as [|x rest IH]; intros rs v; simpl.
  - intros [= <-]. simpl. eauto.
  - destruct (decodePayload _ _) as [|rv] eqn:Hd; [done|].
    destruct (decodeRequests rest) as [|rs'] eqn:Hrest; [done|].
    intros [= <-]. simpl.
    destruct (decodePayload_typed _ _ _ v Hd) as [[[err|] v'] ->]; [eauto|].
    by apply IH.
Qed.

(** Apply on a well-formed state never panics; it returns the error and
    leaves the view ApplyAbs gives, on a state that is well-formed again
    and made of objects it owned before or that are new. *)
Lemma Apply_refines s st c h bs :
  wf s st c h →
  ∃ e v' h' st' c',
    ApplyAbs bs (view_of st c h) = Some (e, v')
    ∧ Apply s bs h = Some (e, h')
    ∧ evolves s st c h st' c' h'
    ∧ view_of st' c' h' = v'.
Proof.
  intros Hwf. unfold ApplyAbs, Apply.
  destruct (rlpDecodeRequests bs) as [rawReqs|].
  - destruct (unpackRequests_reify rawReqs h) as (r & h1 & Hu & Hsub & Hr).
    munfold. rewrite Hu.
    pose proof (evolves_extends s st c h h1 Hwf Hsub) as Hev1.
    assert (view_of st c h1 = view_of st c h) as Hview1.
    { apply view_of_extends; [apply Hwf|done]. }
    destruct (decodeRequests rawReqs) as [err|rs] eqn:Hdec.
    + subst r. by exists (Some err), (view_of st c h), h1, st, c.
    + destruct Hr as (reqs & -> & Hreqs).
      pose proof (for_err_applied s reqs rs st c h1 (proj1 Hev1) Hreqs) as Hf.
      rewrite Hview1 in Hf.
      destruct (applyAllAbs_typed _ _ (view_of st c h) Hdec) as [[e v'] Hv'].
      rewrite Hv' in Hf |- *.
      destruct Hf as (h2 & st2 & c2 & Heq & Hev2 & Hview2).
      exists e, v', h2, st2, c2. split; [done|]. split; [done|].
      split; [by eapply evolves_trans|done].
  - exists (Some ErrDecode), (view_of st c h), h, st, c.
    split; [done|]. split; [done|]. split; [by apply evolves_refl|done].
Qed.

End batches.

(** ** A new state is well-formed *)

Ltac sub_chain :=
  first [ reflexivity | etrans; [|apply alloc_extends]; sub_chain ].

Section wellformed.
Context `{!Externals}.
Implicit Types (h : gmap positive obj) (l s p : positive) (o : obj).
Implicit Types (st : State.t) (c : content) (ρ : role).

Lemma fresh_chain h l o h' : h !! l = Some o → h ⊆ h' → l ≠ fresh (dom h').
Proof.
  intros Hl Hsub ->. pose proof (lookup_weaken _ _ _ _ Hl Hsub) as Hl'.
  by rewrite fresh_lookup in Hl'.
Qed.

(** What a new state holds. *)
Definition newContent (keys : list PublicKey) : content :=
  {| c_nodes := nodeMap keys; c_configs := ∅;
     c_crs := [Keccak256Hash (list_byte_of_string "__ DEXON")];
     c_pendingNodes := []; c_pendingDKGComplaints := [];
     c_pendingDKGFinals := []; c_pendingDKGMasterPublicKeys := [];
     c_pendingCRS := []; c_complaints := ∅; c_mpks := ∅; c_finals := ∅ |}.

Lemma NewState_wf (keys : list PublicKey) (lambda : Z) (local : bool) h :
  ∃ s h' st,
    NewState keys lambda local h = Some (s, h')
    ∧ wf s st (newContent keys) h'
    ∧ h ⊆ h'
    ∧ (∀ ρ l, role_at s st (newContent keys) ρ = Some l → h !! l = None)
    ∧ State.local st = local
    ∧ State.phiRatio st = 0x3f2ac083%Z.
Proof.
  unfold NewState. munfold. simpl.
  erewrite for_each_nodes_set by apply lookup_insert_eq.
  rewrite insert_insert_eq. fold (nodeMap keys).
  set (n := fresh (dom h)). set (h1 := <[n := ONodes (nodeMap keys)]> h).
  rewrite (proj2 (getNodes_Some n h1 _) (lookup_insert_eq _ _ _)). simpl.
  set (a := fresh (dom h1)). set (h2 := <[a := _]> h1).
  set (c := fresh (dom h2)). set (h3 := <[c := _]> h2).
  set (f := fresh (dom h3)). set (h4 := <[f := _]> h3).
  set (d := fresh (dom h4)). set (h5 := <[d := _]> h4).
  set (m := fresh (dom h5)). set (h6 := <[m := _]> h5).
  set (s := fresh (dom h6)).
  eexists s, _, _. split; [reflexivity|].
  match goal with |- wf _ ?st0 _ (<[_ := OState ?r]> _) ∧ _ =>
    unify st0 r end.
  match goal with |- wf _ ?st0 _ ?hh ∧ _ => set (st := st0); set (h7 := hh) end.
  assert (h1 !! n = Some (ONodes (nodeMap keys))) as Hn
    by apply lookup_insert_eq.
  assert (h2 !! a = Some (OArrHash 1
            [Keccak256Hash (list_byte_of_string "__ DEXON")])) as Ha
    by apply lookup_insert_eq.
  assert (h3 !! c = Some (OConfigs ∅)) as Hc by apply lookup_insert_eq.
  assert (h4 !! f = Some (ORounds ∅)) as Hf by apply lookup_insert_eq.
  assert (h5 !! d = Some (ORounds ∅)) as Hd by apply lookup_insert_eq.
  assert (h6 !! m = Some (ORounds ∅)) as Hm by apply lookup_insert_eq.
  assert (h7 !! s = Some (OState st)) as Hs by apply lookup_insert_eq.
  assert (h ⊆ h7) as Hsub by (unfold h7; sub_chain).
  assert (n ≠ a ∧ n ≠ c ∧ n ≠ f ∧ n ≠ d ∧ n ≠ m ∧ n ≠ s
          ∧ a ≠ c ∧ a ≠ f ∧ a ≠ d ∧ a ≠ m ∧ a ≠ s
          ∧ c ≠ f ∧ c ≠ d ∧ c ≠ m ∧ c ≠ s
          ∧ f ≠ d ∧ f ≠ m ∧ f ≠ s ∧ d ≠ m ∧ d ≠ s ∧ m ≠ s)
    as (?&?&?&?&?&?&?&?&?&?&?&?&?&?&?&?&?&?&?&?&?).
  { split_and!;
      (eapply fresh_chain; [eassumption|]; unfold h6, h5, h4, h3, h2;
       sub_chain). }
  assert (∀ l, h !! l ≠ None →
            l ≠ n ∧ l ≠ a ∧ l ≠ c ∧ l ≠ f ∧ l ≠ d ∧ l ≠ m ∧ l ≠ s) as Hold.
  { intros l Hl. destruct (h !! l) as [o|] eqn:Ho; [|done].
    split_and!;
      (eapply (fresh_chain h l o); [done|]; unfold h6, h5, h4, h3, h2, h1;
       sub_chain). }
  assert (h7 !! n = Some (ONodes (nodeMap keys))) as Hn7.
  { eapply lookup_weaken; [exact Hn|]. unfold h7, h6, h5, h4, h3, h2.
    sub_chain. }
  assert (h7 !! a = Some (OArrHash 1
            [Keccak256Hash (list_byte_of_string "__ DEXON")])) as Ha7.
  { eapply lookup_weaken; [exact Ha|]. unfold h7, h6, h5, h4, h3. sub_chain. }
  assert (h7 !! c = Some (OConfigs ∅)) as Hc7.
  { eapply lookup_weaken; [exact Hc|]. unfold h7, h6, h5, h4. sub_chain. }
  assert (h7 !! f = Some (ORounds ∅)) as Hf7.
  { eapply lookup_weaken; [exact Hf|]. unfold h7, h6, h5. sub_chain. }
  assert (h7 !! d = Some (ORounds ∅)) as Hd7.
  { eapply lookup_weaken; [exact Hd|]. unfold h7, h6. sub_chain. }
  assert (h7 !! m = Some (ORounds ∅)) as Hm7.
  { eapply lookup_weaken; [exact Hm|]. unfold h7. sub_chain. }
  split; [|split; [done|split; [|done]]].
  - split_and!.
    + unfold holds. simpl. rewrite !fmap_empty. split_and!.
      * by apply getState_Some.
      * by apply getNodes_Some.
      * by apply getConfigs_Some.
      * apply slice_elems_Some. simpl. eexists 1, _. split; [exact Ha7|].
        simpl. split; [lia|done].
      * reflexivity.
      * reflexivity.
      * reflexivity.
      * reflexivity.
      * reflexivity.
      * by apply getRounds_Some.
      * apply map_Forall_empty.
      * by apply getRounds_Some.
      * apply map_Forall_empty.
      * by apply getRounds_Some.
      * apply map_Forall_empty.
    + unfold valid. simpl. split_and!; try done; apply map_Forall_empty.
    + intros ρ1 ρ2 l.
      destruct ρ1 as [| | |f1|k1|k1 r1|r1 n1];
        [..|destruct f1|destruct k1|destruct k1|];
        (destruct ρ2 as [| | |f2|k2|k2 r2|r2 n2];
         [..|destruct f2|destruct k2|destruct k2|]);
        simpl; rewrite ?lookup_empty; simpl; try done;
        intros [= <-] [= ?]; done.
    + done.
  - intros ρ l Hl. destruct (h !! l) as [o|] eqn:Ho; [|done].
    destruct (Hold l) as (?&?&?&?&?&?&?); [congruence|].
    destruct ρ as [| | |f1|k1|k1 r1|r1 n1];
      [..|destruct f1|destruct k1|destruct k1|];
      simpl in Hl; rewrite ?lookup_empty in Hl; simpl in Hl;
      try done; by injection Hl as <-.
Qed.

End wellformed.

(** ** Equal *)

Lemma float32_eq_sym f g : float32_eq f g = float32_eq g f.
Proof.
  unfold float32_eq. rewrite (orb_comm (float32_is_nan f)).
  rewrite (andb_comm (float32_is_zero f)). by rewrite (Z.eqb_sym f).
Qed.

Lemma configEqual_sym a b : configEqual a b = configEqual b a.
Proof.
  unfold configEqual. rewrite (float32_eq_sym (State.phiRatio a)).
  rewrite (Z.eqb_sym (State.numChains a)), (Z.eqb_sym (State.lambdaBA a)),
    (Z.eqb_sym (State.lambdaDKG a)), (Z.eqb_sym (State.k a)),
    (Z.eqb_sym (State.notarySetSize a)), (Z.eqb_sym (State.dkgSetSize a)),
    (Z.eqb_sym (State.roundInterval a)),
    (Z.eqb_sym (State.minBlockInterval a)),
    (Z.eqb_sym (State.maxBlockInterval a)).
  done.
Qed.

Lemma bool_decide_eq_sym `{EqDecision A} (x y : A) :
  bool_decide (x = y) = bool_decide (y = x).
Proof. apply bool_decide_ext. split; congruence. Qed.

Lemma payload_deq_sym a b : payload_deq a b = payload_deq b a.
Proof.
  destruct a, b; simpl; try done; try apply float32_eq_sym;
    apply bool_decide_eq_sym.
Qed.

Lemma gmap_eqb_sym {V} (e : V → V → bool) (va vb : gmap Z V) :
  (∀ x y, e x y = e y x) → gmap_eqb e va vb = gmap_eqb e vb va.
Proof.
  intros He.
  assert (∀ va vb : gmap Z V,
            gmap_eqb e va vb = true → gmap_eqb e vb va = true) as Himp.
  { clear va vb. intros va vb. rewrite !gmap_eqb_spec. intros [Hsz Hall].
    split; [done|]. intros k y Hk.
    assert (dom va = dom vb) as Hdom.
    { apply set_subseteq_size_eq.
      - intros i Hi. apply elem_of_dom in Hi as [x Hx].
        destruct (Hall i x Hx) as (y' & Hy' & _). apply elem_of_dom. eauto.
      - rewrite !size_dom. lia. }
    assert (k ∈ dom va) as Hin by (rewrite Hdom; apply elem_of_dom; eauto).
    apply elem_of_dom in Hin as [x Hx]. exists x. split; [done|].
    destruct (Hall k x Hx) as (y' & Hy' & Hxy). rewrite He.
    by simplify_eq. }
  apply eq_true_iff_eq. split; apply Himp.
Qed.

Lemma EqualAbs_sym a b : EqualAbs a b = EqualAbs b a.
Proof.
  unfold EqualAbs. rewrite (configEqual_sym (v_scalars a)).
  rewrite (gmap_eqb_sym _ (v_configs a)) by apply payload_deq_sym.
  rewrite (bool_decide_eq_sym (State.local (v_scalars a))),
    (bool_decide_eq_sym (v_nodes a)), (bool_decide_eq_sym (v_complaints a)),
    (bool_decide_eq_sym (v_mpks a)), (bool_decide_eq_sym (v_finals a)),
    (bool_decide_eq_sym (v_crs a)), (bool_decide_eq_sym (v_pendingCRS a)),
    (bool_decide_eq_sym (v_pendingNodes a)),
    (bool_decide_eq_sym (v_pendingDKGComplaints a)),
    (bool_decide_eq_sym (v_pendingDKGFinals a)),
    (bool_decide_eq_sym (v_pendingDKGMasterPublicKeys a)).
  done.
Qed.

Section observations.
Context `{!Externals}.
Implicit Types (h : gmap positive obj) (l s p : positive) (o : obj).
Implicit Types (st : State.t) (c : content) (ρ : role).

Lemma NewState_wf_run keys lambda local h s h' :
  NewState keys lambda local h = Some (s, h') →
  ∃ st,
    getState s h' = Some st
    ∧ wf s st (newContent keys) h'
    ∧ h ⊆ h'
    ∧ (∀ ρ l, role_at s st (newContent keys) ρ = Some l → h !! l = None)
    ∧ State.local st = local
    ∧ State.phiRatio st = 0x3f2ac083%Z.
Proof.
  intros Hnew.
  destruct (NewState_wf keys lambda local h)
    as (s0 & h0 & st & Heq & Hwf & Hsub & Hfresh & Hloc & Hphi).
  rewrite Heq in Hnew. injection Hnew as <- <-. exists st.
  split; [|done]. destruct Hwf as (Hh & _).
  apply (proj1 (holds_roles _ _ _ _) Hh RState).
Qed.

(** Two states made one after the other share no object. *)
Lemma two_new_states keys1 lambda1 local1 keys2 lambda2 local2 h a h1 b h2 :
  NewState keys1 lambda1 local1 h = Some (a, h1) →
  NewState keys2 lambda2 local2 h1 = Some (b, h2) →
  ∃ sta stb,
    getState a h2 = Some sta ∧ getState b h2 = Some stb
    ∧ wf a sta (newContent keys1) h2 ∧ wf b stb (newContent keys2) h2
    ∧ disjoint a sta (newContent keys1) b stb (newContent keys2)
    ∧ State.pendingChangedConfigs sta ≠ State.pendingChangedConfigs stb.
Proof.
  intros Ha Hb.
  destruct (NewState_wf_run _ _ _ _ _ _ Ha)
    as (sta & Hsta & Hwfa & _ & _ & _ & _).
  destruct (NewState_wf_run _ _ _ _ _ _ Hb)
    as (stb & Hstb & Hwfb & Hsub & Hfresh & _ & _).
  assert (disjoint a sta (newContent keys1) b stb (newContent keys2)) as Hdis.
  { intros ρ1 ρ2 l H1 H2.
    destruct (owns_exists a sta (newContent keys1) h1 l) as [o Ho];
      [apply Hwfa|by exists ρ1|].
    by rewrite (Hfresh _ _ H2) in Ho. }
  exists sta, stb. split_and!; try done.
  - apply getState_Some. eapply lookup_weaken; [by apply getState_Some|done].
  - by eapply wf_extends.
  - intros Heq. by apply (Hdis RConfigs RConfigs (State.pendingChangedConfigs sta));
      simpl; [|rewrite Heq].
Qed.

(** X1: a state whose phiRatio is NaN equals no state, itself included:
    Equal compares phiRatio with [==], and returns ErrStateConfigNotEqual
    before it looks at anything else. *)
Theorem Equal_NaN_phiRatio a b sta stb h :
  getState a h = Some sta → getState b h = Some stb →
  float32_is_nan (State.phiRatio sta) = true
  ∨ float32_is_nan (State.phiRatio stb) = true →
  Equal a b h = Some (Some ErrStateConfigNotEqual).
Proof.
  intros Ha Hb Hnan. unfold Equal. rewrite Ha, Hb. simpl.
  assert (configEqual sta stb = false) as ->; [|done].
  unfold configEqual, float32_eq.
  assert (float32_is_nan (State.phiRatio sta)
          || float32_is_nan (State.phiRatio stb) = true) as ->.
  { apply orb_true_iff. tauto. }
  by rewrite !andb_false_r.
Qed.

(** X2: on two well-formed states with separate pending configuration
    maps, Equal never panics and returns what the comparison of the two
    views gives: the error of the first component that differs, in the
    order configuration, local flag, node set, DKG complaints, master
    public keys, finals, CRS chain, pending changes; nil when none
    differs.  Records are compared by contents, floats with [==]. *)
Theorem Equal_first_difference a b sta ca stb cb h :
  wf a sta ca h → wf b stb cb h →
  State.pendingChangedConfigs sta ≠ State.pendingChangedConfigs stb →
  Equal a b h = Some (EqualAbs (view_of sta ca h) (view_of stb cb h)).
Proof.
  intros (Hha & Hva & _ & Hna) (Hhb & Hvb & _ & Hnb) Hne.
  by apply Equal_refines.
Qed.

(** X3: Equal is symmetric on well-formed states: [a.Equal(b)] and
    [b.Equal(a)] return the same error. *)
Theorem Equal_symmetric a b sta ca stb cb h :
  wf a sta ca h → wf b stb cb h →
  State.pendingChangedConfigs sta ≠ State.pendingChangedConfigs stb →
  Equal a b h = Equal b a h.
Proof.
  intros (Hha & Hva & _ & Hna) (Hhb & Hvb & _ & Hnb) Hne.
  rewrite (Equal_refines a b sta ca stb cb) by done.
  rewrite (Equal_refines b a stb cb sta ca) by done.
  by rewrite EqualAbs_sym.
Qed.

(** X4: CRS(round) never panics: it is the entry of the chain at [round]
    when there is one, and the zero hash for every round past the end. *)
Theorem CRS_bounds s st chain round h :
  getState s h = Some st →
  slice_elems (State.crs st) h = Some chain →
  (0 ≤ round)%Z →
  CRS s round h = Some (default 0%Z (chain !! Z.to_nat round)).
Proof.
  intros Hst Hchain Hround. unfold CRS. rewrite Hst. simpl.
  pose proof (slice_elems_length _ _ _ Hchain) as Hlen. rewrite <-Hlen.
  case_decide as Hge.
  - rewrite lookup_ge_None_2 by lia. done.
  - unfold slice_index. rewrite Hchain. simpl.
    destruct (lookup_lt_is_Some_2 chain (Z.to_nat round)) as [x Hx]; [lia|].
    by rewrite Hx.
Qed.

End observations.

(** ** Apply *)

Section apply_properties.
Context `{!Externals}.
Implicit Types (h : gmap positive obj) (l s p : positive) (o : obj).
Implicit Types (st : State.t) (c : content) (ρ : role).

Lemma modifies_frame s st c h h' l o :
  modifies s st c h h' → h !! l = Some o → ¬ owns s st c l →
  h' !! l = Some o.
Proof.
  intros Hmod Hl Hno. destruct (decide (h' !! l = h !! l)) as [->|Hne]; [done|].
  destruct (Hmod l Hne) as [|Ho]; [congruence|done].
Qed.

(** X5: Apply on a well-formed state never panics.  It returns the error
    and leaves the view that ApplyAbs computes from the bytes and the view
    before; the state is well-formed again, and every object of the store
    that the state did not own, the records of DKG and CRS requests
    included, is as it was. *)
Theorem Apply_wellformed s st c h bs :
  wf s st c h →
  ∃ e h' st' c',
    Apply s bs h = Some (e, h')
    ∧ wf s st' c' h'
    ∧ ApplyAbs bs (view_of st c h) = Some (e, view_of st' c' h')
    ∧ (∀ l o, h !! l = Some o → ¬ owns s st c l → h' !! l = Some o)
    ∧ records_kept h h'.
Proof.
  intros Hwf.
  destruct (Apply_refines s st c h bs Hwf)
    as (e & v' & h' & st' & c' & Habs & Happ & (Hwf' & Hmod & Hgr) & <-).
  exists e, h', st', c'. split_and!; try done.
  - intros l o. by apply modifies_frame.
  - eapply modifies_records_kept; [apply Hwf|done].
Qed.

(** X6: Apply on one state leaves every state that shares no object with
    it as it was: its objects, hence all its sub-states, are unchanged,
    and the two states still share no object afterwards. *)
Theorem Apply_leaves_other_states s st c s2 st2 c2 h bs e h' :
  wf s st c h → wf s2 st2 c2 h → disjoint s st c s2 st2 c2 →
  Apply s bs h = Some (e, h') →
  wf s2 st2 c2 h'
  ∧ view_of st2 c2 h' = view_of st2 c2 h
  ∧ (∀ l, owns s2 st2 c2 l → h' !! l = h !! l)
  ∧ ∃ st' c', wf s st' c' h' ∧ disjoint s st' c' s2 st2 c2.
Proof.
  intros Hwf Hwf2 Hdis Happ.
  destruct (Apply_refines s st c h bs Hwf)
    as (e0 & v' & h0 & st' & c' & Habs & Happ0 & Hev & <-).
  rewrite Happ in Happ0. injection Happ0 as <- <-.
  destruct (wf_other s st c h st' c' h' s2 st2 c2 Hwf Hev Hwf2 Hdis)
    as (Hwf2' & Hview & Hdis').
  split_and!; try done.
  - intros l [ρ2 Hρ2].
    destruct (decide (h' !! l = h !! l)) as [|Hne]; [done|].
    destruct Hev as (_ & Hmod & _).
    destruct (Hmod l Hne) as [Hn|[ρ Hρ]].
    + destruct (owns_exists s2 st2 c2 h l) as [o Ho];
        [apply Hwf2|by exists ρ2|congruence].
    + destruct (Hdis _ _ _ Hρ Hρ2).
  - exists st', c'. split; [apply Hev|done].
Qed.

Lemma applyAllAbs_app pre rest v v1 :
  applyAllAbs pre v = Some (None, v1) →
  applyAllAbs (pre ++ rest) v = applyAllAbs rest v1.
Proof.
  revert v. induction pre as [|[t rv] pre IH]; intros v; simpl.
  - by intros [= <-].
  - destruct (applyAbs t rv v) as [[[err|] v']|]; try done. apply IH.
Qed.

(** X7: Apply is not atomic.  When the batch decodes and its request
    number [length pre] is the first one that applyRequest rejects, Apply
    returns that error, the requests before it stay applied and the
    requests after it are dropped. *)
Theorem Apply_stops_at_first_failure s st c h bs rawReqs pre t rv post v1
    err v2 :
  wf s st c h →
  rlpDecodeRequests bs = Some rawReqs →
  decodeRequests rawReqs = inr (pre ++ (t, rv) :: post) →
  applyAllAbs pre (view_of st c h) = Some (None, v1) →
  applyAbs t rv v1 = Some (Some err, v2) →
  ∃ h' st' c',
    Apply s bs h = Some (Some err, h')
    ∧ wf s st' c' h'
    ∧ view_of st' c' h' = v2
    ∧ v2 = v1.
Proof.
  intros Hwf Hraw Hdec Hpre Hbad.
  destruct (Apply_refines s st c h bs Hwf)
    as (e & v' & h' & st' & c' & Habs & Happ & Hev & Hview).
  unfold ApplyAbs in Habs. rewrite Hraw, Hdec in Habs.
  rewrite (applyAllAbs_app _ _ _ _ Hpre) in Habs. simpl in Habs.
  rewrite Hbad in Habs. injection Habs as <- <-.
  exists h', st', c'. split_and!; try done; [apply Hev|].
  revert Hbad. unfold applyAbs. case_type t; destruct rv as [| | | | | | | |[]];
    intros; repeat case_match; simplify_eq; done.
Qed.

End apply_properties.

(** ** The same batch on two equal states *)

(** The configuration fields of a [State] other than phiRatio, and the
    local flag. *)
Definition plain_config (st : State.t) :=
  (State.numChains st, State.lambdaBA st, State.lambdaDKG st, State.k st,
   State.notarySetSize st, State.dkgSetSize st, State.roundInterval st,
   State.minBlockInterval st, State.maxBlockInterval st, State.local st).

(** Two views that Equal does not tell apart, but for a phiRatio that
    may be NaN on both sides. *)
Definition agree (a b : view) : Prop :=
  plain_config (v_scalars a) = plain_config (v_scalars b)
  ∧ (State.phiRatio (v_scalars a) = State.phiRatio (v_scalars b)
     ∨ float32_eq (State.phiRatio (v_scalars a))
         (State.phiRatio (v_scalars b)) = true)
  ∧ v_nodes a = v_nodes b
  ∧ v_complaints a = v_complaints b
  ∧ v_mpks a = v_mpks b
  ∧ v_finals a = v_finals b
  ∧ v_crs a = v_crs b
  ∧ gmap_eqb payload_deq (v_configs a) (v_configs b) = true
  ∧ v_pendingCRS a = v_pendingCRS b
  ∧ v_pendingNodes a = v_pendingNodes b
  ∧ v_pendingDKGComplaints a = v_pendingDKGComplaints b
  ∧ v_pendingDKGFinals a = v_pendingDKGFinals b
  ∧ v_pendingDKGMasterPublicKeys a = v_pendingDKGMasterPublicKeys b.

Section same_batch.
Context `{!Externals}.
#[local] Arguments float32_eq : simpl never.
#[local] Arguments float32_is_nan : simpl never.
Implicit Types (h : gmap positive obj) (l s p : positive) (o : obj).
Implicit Types (st : State.t) (c : content) (ρ : role).

Lemma check_None b e k : check b e k = None ↔ b = true ∧ k = None.
Proof. destruct b; simpl; [tauto|]. split; [done|]. by intros [? _]. Qed.

Lemma float32_eq_refl f : float32_is_nan f = false → float32_eq f f = true.
Proof.
  intros Hf. unfold float32_eq. rewrite Hf.
  destruct (float32_is_zero f); [reflexivity|]. exact (Z.eqb_refl f).
Qed.

Lemma float32_eq_not_nan f g : float32_eq f g = true → float32_is_nan f = false.
Proof. unfold float32_eq. by destruct (float32_is_nan f). Qed.

Lemma EqualAbs_agree a b : EqualAbs a b = None → agree a b.
Proof.
  unfold EqualAbs. rewrite !check_None, !bool_decide_eq_true.
  intros (Hcfg & Hloc & ? & ? & ? & ? & ? & ? & ? & ? & ? & ? & ? & _).
  unfold configEqual in Hcfg. rewrite !andb_true_iff, !Z.eqb_eq in Hcfg.
  destruct Hcfg as (((((((((? & ?) & ?) & ?) & ?) & ?) & ?) & ?) & ?) & ?).
  unfold agree, plain_config. split_and!; try done; [|by right].
  congruence.
Qed.

Lemma agree_EqualAbs a b :
  agree a b → float32_is_nan (State.phiRatio (v_scalars a)) = false →
  EqualAbs a b = None.
Proof.
  intros (Hcfg & Hphi & ? & ? & ? & ? & ? & ? & ? & ? & ? & ? & ?) Hnan.
  unfold plain_config in Hcfg. injection Hcfg as ??????????.
  unfold EqualAbs. rewrite !check_None, !bool_decide_eq_true.
  split_and!; try done.
  unfold configEqual. rewrite !andb_true_iff, !Z.eqb_eq.
  split_and!; try done.
  destruct Hphi as [<-|]; [by apply float32_eq_refl|done].
Qed.

(** applyAbs does the same to two views that agree. *)
Lemma applyAbs_agree t rv a b e a' :
  agree a b → applyAbs t rv a = Some (e, a') →
  ∃ b', applyAbs t rv b = Some (e, b') ∧ agree a' b'.
Proof.
  intros Hag. pose proof Hag as
    (Hcfg & Hphi & Hn & Hc & Hm & Hf & Hcrs & Hcf & Hpc & Hpn & Hpdc & Hpdf
     & Hpdm).
  unfold plain_config in Hcfg. injection Hcfg as ??????????.
  unfold applyAbs.
  case_type t; destruct rv as [key|dur|i|f|x|x|bb|r|k d]; try destruct k;
    try done;
    try (intros [= <- <-]; eexists; split; [reflexivity|];
         unfold agree, plain_config, on_scalars; simpl;
         split_and!; (done || congruence || (by left) || idtac)).
  - destruct (NewPublicKeyFromByteSlice bb) as [key|];
      intros [= <- <-]; eexists; (split; [reflexivity|]); [|done].
    unfold agree, plain_config; simpl. split_and!; (done || congruence).
  - rewrite <-Hcrs. case_decide; intros [= <- <-]; eexists;
      (split; [reflexivity|]); [done|].
    unfold agree, plain_config; simpl. split_and!; (done || congruence).
Qed.

Lemma applyAllAbs_agree rs a b e a' :
  agree a b → applyAllAbs rs a = Some (e, a') →
  ∃ b', applyAllAbs rs b = Some (e, b') ∧ agree a' b'.
Proof.
  revert a b. induction rs as [|[t rv] rs IH]; intros a b Hag; simpl.
  - intros [= <- <-]. by exists b.
  - destruct (applyAbs t rv a) as [[[err|] a1]|] eqn:Ha; [| |done].
    + intros [= <- <-].
      destruct (applyAbs_agree _ _ _ _ _ _ Hag Ha) as (b1 & -> & Hag1).
      by exists b1.
    + destruct (applyAbs_agree _ _ _ _ _ _ Hag Ha) as (b1 & -> & Hag1).
      by apply IH.
Qed.

Lemma ApplyAbs_agree bs a b e a' :
  agree a b → ApplyAbs bs a = Some (e, a') →
  ∃ b', ApplyAbs bs b = Some (e, b') ∧ agree a' b'.
Proof.
  intros Hag. unfold ApplyAbs.
  destruct (rlpDecodeRequests bs) as [rawReqs|].
  - destruct (decodeRequests rawReqs) as [err|rs].
    + intros [= <- <-]. by exists b.
    + by apply applyAllAbs_agree.
  - intros [= <- <-]. by exists b.
Qed.

(** X8: the same batch keeps equal states equal.  When Equal returns nil
    on two well-formed states that share no object, Apply with the same
    bytes returns the same error on both, and Equal returns nil on the two
    resulting states, unless the batch has left a NaN in phiRatio. *)
Theorem Apply_same_batch a sta ca b stb cb h bs :
  wf a sta ca h → wf b stb cb h → disjoint a sta ca b stb cb →
  Equal a b h = Some None →
  ∃ e h1 h2,
    Apply a bs h = Some (e, h1)
    ∧ Apply b bs h1 = Some (e, h2)
    ∧ ∀ sta', getState a h2 = Some sta' →
              float32_is_nan (State.phiRatio sta') = false →
              Equal a b h2 = Some None.
Proof.
  intros Hwfa Hwfb Hdis Heq.
  assert (State.pendingChangedConfigs sta ≠ State.pendingChangedConfigs stb)
    as Hne.
  { intros E. by apply (Hdis RConfigs RConfigs (State.pendingChangedConfigs sta));
      simpl; [|rewrite E]. }
  rewrite (Equal_refines a b sta ca stb cb) in Heq;
    [|apply Hwfa..|apply Hwfb|apply Hwfb|apply Hwfb|done].
  injection Heq as Heq. apply EqualAbs_agree in Heq.
  destruct (Apply_refines a sta ca h bs Hwfa)
    as (e & va & h1 & sta' & ca' & Habs & Happ & Hev & Hva).
  destruct (wf_other a sta ca h sta' ca' h1 b stb cb Hwfa Hev Hwfb Hdis)
    as (Hwfb1 & Hvb1 & Hdis1).
  destruct (Apply_refines b stb cb h1 bs Hwfb1)
    as (e2 & vb & h2 & stb' & cb' & Habs2 & Happ2 & Hev2 & Hvb).
  rewrite Hvb1 in Habs2.
  destruct (ApplyAbs_agree bs _ _ _ _ Heq Habs) as (vb0 & Habs0 & Hag).
  rewrite Habs0 in Habs2. injection Habs2 as <- <-.
  assert (disjoint b stb cb a sta' ca') as Hdis1'.
  { intros ρ1 ρ2 l H1 H2. by apply (Hdis1 ρ2 ρ1 l). }
  destruct (wf_other b stb cb h1 stb' cb' h2 a sta' ca' Hwfb1 Hev2
              (proj1 Hev) Hdis1') as (Hwfa2 & Hva2 & Hdis2).
  exists e, h1, h2. split; [done|]. split; [done|].
  intros st2 Hst2 Hnan.
  assert (st2 = sta') as ->.
  { destruct Hwfa2 as (Hh & _).
    pose proof (proj1 (holds_roles _ _ _ _) Hh RState) as Hst. simpl in Hst.
    congruence. }
  assert (State.pendingChangedConfigs sta' ≠ State.pendingChangedConfigs stb')
    as Hne'.
  { intros E.
    by apply (Hdis2 RConfigs RConfigs (State.pendingChangedConfigs stb'));
      simpl; [|rewrite E]. }
  rewrite (Equal_refines a b sta' ca' stb' cb');
    [|apply Hwfa2..|apply Hev2|apply Hev2|apply Hev2|done].
  f_equal. rewrite Hva2, Hva, Hvb. apply agree_EqualAbs; [done|].
  by rewrite <-Hva.
Qed.

End same_batch.

(** ** NewState, Snapshot and configuration changes *)

(** The Config that Snapshot returns for a state. *)
Definition configOf (st : State.t) : Config.t :=
  {| Config.NumChains := State.numChains st;
     Config.LambdaBA := State.lambdaBA st;
     Config.LambdaDKG := State.lambdaDKG st;
     Config.K := State.k st;
     Config.PhiRatio := State.phiRatio st;
     Config.NotarySetSize := State.notarySetSize st;
     Config.DKGSetSize := State.dkgSetSize st;
     Config.RoundInterval := State.roundInterval st;
     Config.MinBlockInterval := State.minBlockInterval st;
     Config.MaxBlockInterval := State.maxBlockInterval st |}.

(** The field a configuration request sets, and the value it gets from
    the payload RequestChange is given: durations and k go through
    uint64, phiRatio through its bits. *)
Definition configRequest (t : Z) (v : payload loc loc)
    : option (State.t → State.t) :=
  match t, v with
  | StateChangeNumChains, PUint32 x => Some (State.set_numChains x)
  | StateChangeLambdaBA, PDuration d =>
      Some (State.set_lambdaBA (to_int64 (to_uint64 d)))
  | StateChangeLambdaDKG, PDuration d =>
      Some (State.set_lambdaDKG (to_int64 (to_uint64 d)))
  | StateChangeRoundInterval, PDuration d =>
      Some (State.set_roundInterval (to_int64 (to_uint64 d)))
  | StateChangeMinBlockInterval, PDuration d =>
      Some (State.set_minBlockInterval (to_int64 (to_uint64 d)))
  | StateChangeMaxBlockInterval, PDuration d =>
      Some (State.set_maxBlockInterval (to_int64 (to_uint64 d)))
  | StateChangeK, PInt i => Some (State.set_k (to_int64 (to_uint64 i)))
  | StateChangePhiRatio, PFloat32 f =>
      Some (State.set_phiRatio (Float32frombits (Float32bits f)))
  | StateChangeNotarySetSize, PUint32 x => Some (State.set_notarySetSize x)
  | StateChangeDKGSetSize, PUint32 x => Some (State.set_dkgSetSize x)
  | _, _ => None
  end.

Section snapshots.
Context `{!Externals} `{!RangeOrder}.
Implicit Types (h : gmap positive obj) (l s p : positive) (o : obj).
Implicit Types (st : State.t) (c : content) (ρ : role).

(** X9: NewState never panics and writes no object that exists.  The
    state it returns is well-formed and made of new objects only: the node
    map built from the keys, the chain holding the genesis CRS, empty DKG
    tables, and nothing pending. *)
Theorem NewState_wellformed (keys : list PublicKey) (lambda : Z)
    (local : bool) h :
  ∃ s h' st,
    NewState keys lambda local h = Some (s, h')
    ∧ wf s st (newContent keys) h'
    ∧ (∀ l o, h !! l = Some o → h' !! l = Some o)
    ∧ (∀ l, owns s st (newContent keys) l → h !! l = None).
Proof.
  destruct (NewState_wf keys lambda local h)
    as (s & h' & st & Heq & Hwf & Hsub & Hfresh & _).
  exists s, h', st. split_and!; try done.
  - intros l o Hl. by eapply lookup_weaken.
  - intros l [ρ Hρ]. by eapply Hfresh.
Qed.

Lemma foldl_nodes_list_to_map (keys : list PublicKey) (m : gmap Z PublicKey) :
  NoDup (NewNodeID <$> keys) →
  (∀ key, key ∈ keys → m !! NewNodeID key = None) →
  foldl (λ m key, <[NewNodeID key := key]> m) m keys
  = list_to_map ((λ key, (NewNodeID key, key)) <$> keys) ∪ m.
Proof.
  revert m. induction keys as [|key keys IH]; intros m Hnd Hm; simpl.
  - by rewrite (left_id_L ∅ (∪)).
  - inversion Hnd as [|?? Hnin Hnd']; subst. rewrite IH; [|done|].
    + rewrite <-insert_union_l. symmetry. apply insert_union_r.
      apply not_elem_of_list_to_map_1.
      by rewrite <-list_fmap_compose.
    + intros key' Hin. rewrite lookup_insert_ne.
      * apply Hm. by right.
      * intros Heq. apply Hnin. rewrite Heq. by apply list_elem_of_fmap_2.
Qed.

Lemma nodeMap_values (keys : list PublicKey) :
  NoDup (NewNodeID <$> keys) → (map_to_list (nodeMap keys)).*2 ≡ₚ keys.
Proof.
  intros Hnd. unfold nodeMap. rewrite foldl_nodes_list_to_map; [|done|done].
  rewrite (right_id_L ∅ (∪)). rewrite map_to_list_to_map.
  - rewrite <-list_fmap_compose. by rewrite list_fmap_id.
  - by rewrite <-list_fmap_compose.
Qed.

Lemma NewState_config keys lambda local h s h' :
  NewState keys lambda local h = Some (s, h') →
  ∃ st,
    getState s h' = Some st
    ∧ getNodes (State.nodes st) h' = Some (nodeMap keys)
    ∧ configOf st
      = {| Config.NumChains := to_uint32 (Z.of_nat (size (nodeMap keys)));
           Config.LambdaBA := lambda;
           Config.LambdaDKG := to_int64 (lambda * 10);
           Config.K := 0;
           Config.PhiRatio := 0x3f2ac083;
           Config.NotarySetSize := to_uint32 (Z.of_nat (size (nodeMap keys)));
           Config.DKGSetSize := to_uint32 (Z.of_nat (size (nodeMap keys)));
           Config.RoundInterval := to_int64 (lambda * 10000);
           Config.MinBlockInterval := 1000000;
           Config.MaxBlockInterval := to_int64 (lambda * 8) |}.
Proof.
  unfold NewState. munfold. simpl.
  erewrite for_each_nodes_set by apply lookup_insert_eq.
  rewrite insert_insert_eq. fold (nodeMap keys).
  set (n := fresh (dom h)). set (h1 := <[n := ONodes (nodeMap keys)]> h).
  rewrite (proj2 (getNodes_Some n h1 _) (lookup_insert_eq _ _ _)). simpl.
  intros [= <- <-]. eexists. split; [apply getState_Some, lookup_insert_eq|].
  split; [|reflexivity]. simpl. apply getNodes_Some.
  apply (lookup_weaken h1); [apply lookup_insert_eq|]. sub_chain.
Qed.

(** X10: Snapshot of a new state never panics and returns the genesis
    configuration and the keys of the node map in some order, one per
    node ID; when the node IDs of the keys given to NewState are pairwise
    distinct these are the keys themselves, each once. *)
Theorem Snapshot_of_new_state (keys : list PublicKey) (lambda : Z)
    (local : bool) h :
  ∃ s h' cfg nodes,
    NewState keys lambda local h = Some (s, h')
    ∧ Snapshot s h' = Some (cfg, nodes)
    ∧ nodes ≡ₚ (map_to_list (nodeMap keys)).*2
    ∧ (NoDup (NewNodeID <$> keys) → nodes ≡ₚ keys)
    ∧ cfg = {| Config.NumChains := to_uint32 (Z.of_nat (size (nodeMap keys)));
               Config.LambdaBA := lambda;
               Config.LambdaDKG := to_int64 (lambda * 10);
               Config.K := 0;
               Config.PhiRatio := 0x3f2ac083;
               Config.NotarySetSize :=
                 to_uint32 (Z.of_nat (size (nodeMap keys)));
               Config.DKGSetSize := to_uint32 (Z.of_nat (size (nodeMap keys)));
               Config.RoundInterval := to_int64 (lambda * 10000);
               Config.MinBlockInterval := 1000000;
               Config.MaxBlockInterval := to_int64 (lambda * 8) |}.
Proof.
  destruct (NewState_wf keys lambda local h)
    as (s & h' & st0 & Heq & _).
  destruct (NewState_config keys lambda local h s h' Heq)
    as (st & Hst & Hnodes & Hcfg).
  assert ((rangeMap (nodeMap keys)).*2 ≡ₚ (map_to_list (nodeMap keys)).*2)
    as Hperm by (by rewrite rangeMap_perm).
  exists s, h', (configOf st), ((rangeMap (nodeMap keys)).*2).
  split; [done|]. split; [|split; [done|split; [|done]]].
  - unfold Snapshot. rewrite Hst. simpl. by rewrite Hnodes.
  - intros Hnd. rewrite Hperm. by apply nodeMap_values.
Qed.

(** X11: on a local state, RequestChange for a configuration field
    never fails; it writes the state struct and nothing else, and Snapshot
    afterwards returns the configuration with that one field set to the
    requested value (durations and k converted to uint64 and back, phiRatio
    to its bits and back) and the same node keys. *)
Theorem RequestChange_local_config s st nodes t v f h :
  getState s h = Some st → State.local st = true →
  getNodes (State.nodes st) h = Some nodes →
  configRequest t v = Some f →
  RequestChange s t v h = Some (None, <[s := OState (f st)]> h)
  ∧ Snapshot s (<[s := OState (f st)]> h)
    = Some (configOf (f st), (rangeMap nodes).*2).
Proof.
  intros Hst Hlocal Hnodes Hf.
  assert (State.nodes st ≠ s) as Hne.
  { intros E. apply getState_Some in Hst. apply getNodes_Some in Hnodes.
    rewrite E in Hnodes. congruence. }
  assert (State.nodes (f st) = State.nodes st) as Hsame.
  { revert Hf. unfold configRequest.
    case_type t; destruct v; try done; by intros [= <-]. }
  split.
  - revert Hf. unfold configRequest.
    case_type t; destruct v; try done; intros [= <-];
      unfold RequestChange, isValidRequest; munfold; simpl;
      rewrite Hst; simpl; rewrite Hlocal; simpl;
      unfold applyRequest; munfold; simpl; rewrite Hst; simpl;
      rewrite Hst; simpl; (erewrite update_spec by done); reflexivity.
  - unfold Snapshot.
    assert (getState s (<[s := OState (f st)]> h) = Some (f st)) as ->
      by apply getState_Some, lookup_insert_eq.
    simpl. rewrite Hsame.
    assert (getNodes (State.nodes st) (<[s := OState (f st)]> h) = Some nodes)
      as ->; [|done].
    apply getNodes_Some. rewrite lookup_insert_ne by done.
    by apply getNodes_Some.
Qed.

End snapshots.

(** ** Local requests and the DKG finals *)

Section local_requests.
Context `{!Externals}.
Implicit Types (h : gmap positive obj) (l s p : positive) (o : obj).
Implicit Types (st : State.t) (c : content) (ρ : role).

(** On a local state RequestChange is the validation followed by
    applyRequest. *)
Lemma RequestChange_local_run s st h t v v' :
  getState s h = Some st → State.local st = true →
  patchPayload t v = Some v' →
  RequestChange s t v h
  = match isValidRequest s (request t v') h with
    | None => None
    | Some (Some err) => Some (Some err, h)
    | Some None => applyRequest s (request t v') h
    end.
Proof.
  intros Hst Hlocal Hpatch. unfold RequestChange. munfold.
  rewrite Hpatch. simpl. rewrite Hst. simpl. rewrite Hlocal.
  by destruct (isValidRequest s (request t v') h) as [[err|]|].
Qed.

(** X12: on a local well-formed state RequestChange validates the
    request and then does what Apply does with a request of a batch: a
    rejected request leaves the store as it is, and an accepted one is
    applied as applyAbs says, the state staying well-formed; it panics only
    when the payload has not the type of the request. *)
Theorem RequestChange_local_applies s st c h t v v' rv verdict :
  wf s st c h → State.local st = true →
  patchPayload t v = Some v' → reify v' h = Some rv →
  isValidRequest s (request t v') h = Some verdict →
  match verdict with
  | Some err => RequestChange s t v h = Some (Some err, h)
  | None =>
      match applyAbs t rv (view_of st c h) with
      | None => RequestChange s t v h = None
      | Some (e, v1) =>
          ∃ h' st' c',
            RequestChange s t v h = Some (e, h')
            ∧ wf s st' c' h'
            ∧ view_of st' c' h' = v1
      end
  end.
Proof.
  intros Hwf Hlocal Hpatch Hrv Hvalid. pose proof Hwf as (Hh & _).
  pose proof (proj1 (holds_roles _ _ _ _) Hh RState) as Hst. simpl in Hst.
  rewrite (RequestChange_local_run s st h t v v' Hst Hlocal Hpatch), Hvalid.
  destruct verdict as [err|]; [done|].
  assert (reifyRequest (request t v') h = Some (t, rv)) as Hreq.
  { unfold reifyRequest. simpl. by rewrite Hrv. }
  pose proof (applyRequest_spec s st c h _ t rv Hwf Hreq) as Ha.
  unfold applied in Ha.
  destruct (applyAbs t rv (view_of st c h)) as [[e v1]|]; [|done].
  destruct Ha as (h' & st' & c' & Heq & Hev & Hview).
  exists h', st', c'. split; [done|]. split; [apply Hev|done].
Qed.

End local_requests.

Section finals.
Context `{!Externals} `{!RangeOrder}.
Implicit Types (h : gmap positive obj) (l s p : positive) (o : obj).
Implicit Types (st : State.t) (c : content) (ρ : role).

(** IsDKGFinal counts the proposers that have a final for the round. *)
Lemma IsDKGFinal_view s st c h round threshold :
  holds s st c h →
  IsDKGFinal s round threshold h
  = Some (bool_decide
            (Z.of_nat (size (default ∅ (v_finals (view_of st c h) !! round)))
             > threshold)%Z).
Proof.
  intros Hh.
  pose proof (proj1 (holds_roles _ _ _ _) Hh RState) as Hst.
  pose proof (proj1 (holds_roles _ _ _ _) Hh (ROuter Finalize)) as Hout.
  pose proof (proj1 (holds_roles _ _ _ _) Hh (RInner Finalize round)) as Hin.
  simpl in Hst, Hout, Hin.
  unfold IsDKGFinal. rewrite Hst. simpl. rewrite Hout. simpl.
  rewrite !lookup_fmap.
  destruct (c_finals c !! round) as [[inner m]|]; simpl; [|done].
  pose proof (Hin _ eq_refl) as Hi. simpl in Hi. rewrite Hi. simpl.
  unfold view_recordOf. simpl.
  by rewrite map_size_fmap.
Qed.

(** X13: each proposer counts once in IsDKGFinal.  On a local
    well-formed state, RequestChange with a final of proposer [p] for round
    [r] succeeds; afterwards the number IsDKGFinal compares with the
    threshold for round [r] is one more than before when [p] had no final
    for [r], and the same when it had one; other rounds are not
    affected.  A round without finals counts 0. *)
Theorem IsDKGFinal_after_final s st c h p d :
  wf s st c h → State.local st = true →
  getDKG Finalize p h = Some d →
  let before := default ∅ (v_finals (view_of st c h) !! typesDKG.Round d) in
  let after := match before !! typesDKG.ProposerID d with
               | Some _ => size before
               | None => S (size before)
               end in
  ∃ h',
    RequestChange s StateAddDKGFinal (PDKG Finalize p) h = Some (None, h')
    ∧ (∀ threshold,
         IsDKGFinal s (typesDKG.Round d) threshold h
         = Some (bool_decide (Z.of_nat (size before) > threshold)%Z)
         ∧ IsDKGFinal s (typesDKG.Round d) threshold h'
           = Some (bool_decide (Z.of_nat after > threshold)%Z))
    ∧ (∀ round threshold, round ≠ typesDKG.Round d →
         IsDKGFinal s round threshold h' = IsDKGFinal s round threshold h).
Proof.
  intros Hwf Hlocal Hd before after. pose proof Hwf as (Hh & _).
  pose proof (proj1 (holds_roles _ _ _ _) Hh RState) as Hst. simpl in Hst.
  rewrite (RequestChange_local_run s st h StateAddDKGFinal _
             (PDKG Finalize p) Hst Hlocal eq_refl).
  assert (isValidRequest s (request StateAddDKGFinal (PDKG Finalize p)) h
          = Some None) as ->.
  { unfold isValidRequest. by rewrite Hst. }
  destruct (applied_final s st c h p d Hwf Hd)
    as (h' & st' & c' & Heq & Hev & Hview).
  exists h'. split; [exact Heq|].
  pose proof (proj1 Hev) as (Hh' & _). split.
  - intros threshold. split; [by apply IsDKGFinal_view|].
    rewrite (IsDKGFinal_view s st' c' h' _ _ Hh'), Hview. simpl.
    unfold addRecord. rewrite lookup_insert_eq. simpl. fold before.
    do 3 f_equal. unfold after.
    destruct (before !! typesDKG.ProposerID d) as [x|] eqn:Hx.
    + by rewrite map_size_insert_Some.
    + by rewrite map_size_insert_None.
  - intros round threshold Hne.
    rewrite (IsDKGFinal_view s st' c' h' _ _ Hh'), Hview.
    rewrite (IsDKGFinal_view s st c h _ _ Hh). simpl.
    unfold addRecord. by rewrite lookup_insert_ne.
Qed.

End finals.

(** * Concrete runs *)

Module Examples.

Definition key1 : PublicKey := {| Bytes := [x01; x02] |}.
Definition key2 : PublicKey := {| Bytes := [x03] |}.

Definition complaint : typesDKG.t :=
  {| typesDKG.ProposerID := 5; typesDKG.Round := 2; typesDKG.Body := [x07] |}.

Definition final : typesDKG.t :=
  {| typesDKG.ProposerID := 5; typesDKG.Round := 2; typesDKG.Body := [] |}.

(** The store after [m], started from the empty store. *)
Definition store_after {A} (m : M A) : gmap positive obj :=
  match m ∅ with Some (_, h) => h | None => ∅ end.

Definition result_of {A} (m : M A) : option A :=
  match m ∅ with Some (a, _) => Some a | None => None end.

(** A local-mode state at location 7 and a CRS request for round 1 at
    location 8. *)
Definition local_state : M unit :=
  s ← NewState (H:=ex_externals) [key1; key2] 100 true;
  _ ← alloc (OCRSReq {| crsAdditionRequest.Round := 1;
                        crsAdditionRequest.CRS := 77 |});
  mret tt.

(** C2, at a concrete input: on a chain of length 1, a request for round 1
    succeeds and CRS(1) is the proposed hash afterwards. *)
Lemma RequestChange_AddCRS_local_witness :
  ∃ h' st',
    RequestChange (H:=ex_externals) 7 StateAddCRS (PCRS 8%positive)
      (store_after local_state) = Some (None, h')
    ∧ getState 7 h' = Some st'
    ∧ sl_len (State.crs st') = 2
    ∧ CRS 7 1 h' = Some 77%Z.
Proof.
  edestruct (RequestChange_AddCRS_local (H:=ex_externals) 7
               (store_after local_state))
    with (p := 8%positive) (round := 1%Z) (c := 77%Z) as (_ & _ & Hw).
  - vm_compute. reflexivity.
  - reflexivity.
  - vm_compute. reflexivity.
  - vm_compute. reflexivity.
  - vm_compute. discriminate.
  - destruct Hw as (h' & st' & H1 & H2 & _ & H4 & _ & H6); [reflexivity|].
    exists h', st'. auto.
Defined.

(** C3 fails as stated: with the same key listed twice, numChains is 1,
    not |nodePubKeys| = 2. *)
Definition duplicate_keys : M (Z * Z) :=
  s ← NewState (H:=ex_externals) [key1; key1] 100 true;
  st ← read (getState s);
  mret (State.numChains st, Z.of_nat (length [key1; key1])).

Lemma NewState_duplicate_keys :
  ∃ numChains n,
    result_of duplicate_keys = Some (numChains, n) ∧ numChains ≠ n.
Proof. exists 1%Z, 2%Z. split; [vm_compute; reflexivity|discriminate]. Defined.






(** A replicated-mode producer at 7 with a pending configuration change,
    CRS, node and complaint. *)
Definition busy_producer : M unit :=
  a ← NewState (H:=ex_externals) [key1; key2] 100 false;
  _ ← RequestChange (H:=ex_externals) a StateChangeNumChains (PUint32 9);
  _ ← ProposeCRS (H:=ex_externals) a 1 99;
  _ ← RequestChange (H:=ex_externals) a StateAddNode (PPublicKey key2);
  p ← alloc (ODKG Complaint complaint);
  _ ← RequestChange (H:=ex_externals) a StateAddDKGComplaint
        (PDKG Complaint p);
  mret tt.

(** C7, at a concrete input. *)
Lemma PackRequests_frame_witness :
  ∃ h' st',
    packRequests (H:=ex_externals) 7 (store_after busy_producer)
    = Some ([request StateChangeNumChains (PUint32 9);
             request StateAddNode (PBytes [x03]);
             request StateAddDKGComplaint (PDKG Complaint 11%positive);
             request StateAddCRS (PCRS 8%positive)], h')
    ∧ getState 7 h' = Some st'
    ∧ getConfigs (State.pendingChangedConfigs st') h' = Some ∅
    ∧ slice_elems (State.pendingNodes st') h' = Some [[x03]]
    ∧ slice_elems (State.pendingDKGComplaints st') h' = Some [11%positive]
    ∧ slice_elems (State.pendingCRS st') h' = Some [8%positive].
Proof.
  edestruct (PackRequests_frame (H:=ex_externals) 7
               (store_after busy_producer))
    as (h' & st' & changes & Hperm & Hpack & _ & Hst & _ & Hcfg & Hn & Hc & _
        & _ & Hcrs & _).
  - intros m. reflexivity.
  - vm_compute. reflexivity.
  - vm_compute. reflexivity.
  - vm_compute. reflexivity.
  - vm_compute. reflexivity.
  - vm_compute. reflexivity.
  - vm_compute. reflexivity.
  - vm_compute. reflexivity.
  - vm_compute. reflexivity.
  - exists h', st'. apply Permutation_singleton_r in Hperm. subst changes.
    auto 10.
Defined.

(** C8 fails as stated: a batch whose only element carries ordinal 0,
    inside the enumerated set, is reported as UnknownStateChangeType. *)
Definition nothing_batch : bytes :=
  [x00; x00; x00; x00; x00; x00; x00; x00; x00].

Lemma Apply_nothing_is_unknown :
  rlpDecodeRequests (Externals:=ex_externals) nothing_batch
  = Some [{| rawStateChangeRequest.Typ := StateChangeNothing;
             rawStateChangeRequest.Payload := [] |}]
  ∧ (0 ≤ StateChangeNothing ≤ 15)%Z
  ∧ result_of (s ← NewState (H:=ex_externals) [key1; key2] 100 true;
               Apply (H:=ex_externals) s nothing_batch)
    = Some (Some ErrUnknownStateChangeType).
Proof.
  split; [vm_compute; reflexivity|]. split; [lia|]. vm_compute. reflexivity.
Defined.

(** A replicated-mode producer at 7 with nothing pending and a consumer
    at 14. *)
Definition producer_consumer : M unit :=
  _ ← NewState (H:=ex_externals) [key1; key2] 100 false;
  _ ← NewState (H:=ex_externals) [key1] 50 true;
  mret tt.

(** C9, at a concrete input: float32(0.333) and k = -5. *)
Lemma phiRatio_and_k_roundtrip_witness :
  let h := store_after producer_consumer in
  (∃ h1 bs h2 h3 stb',
     RequestChange (H:=ex_externals) 7 StateChangePhiRatio
       (PFloat32 0x3eaa7efa) h = Some (None, h1)
     ∧ PackRequests (H:=ex_externals) 7 h1 = Some (inr bs, h2)
     ∧ Apply (H:=ex_externals) 14 bs h2 = Some (None, h3)
     ∧ getState 14 h3 = Some stb'
     ∧ State.phiRatio stb' = 0x3eaa7efa%Z)
  ∧ (∃ h1 bs h2 h3 stb',
       RequestChange (H:=ex_externals) 7 StateChangeK (PInt (-5)) h
       = Some (None, h1)
       ∧ PackRequests (H:=ex_externals) 7 h1 = Some (inr bs, h2)
       ∧ Apply (H:=ex_externals) 14 bs h2 = Some (None, h3)
       ∧ getState 14 h3 = Some stb'
       ∧ State.k stb' = (-5)%Z).
Proof.
  intros h.
  edestruct (phiRatio_and_k_roundtrip (H:=ex_externals) 7 14 h)
    as [Hphi Hk].
  - intros m. reflexivity.
  - repeat split; vm_compute; reflexivity.
  - vm_compute. reflexivity.
  - discriminate.
  - split.
    + edestruct (Hphi 0x3eaa7efa%Z)
        as (h1 & h2 & h3 & sta1 & stb' & H1 & _ & _ & H4 & H5 & H6 & _ & H8).
      * vm_compute. reflexivity.
      * vm_compute. reflexivity.
      * vm_compute. reflexivity.
      * eexists h1, _, h2, h3, stb'. eauto.
    + edestruct (Hk (-5)%Z)
        as (h1 & h2 & h3 & sta1 & stb' & H1 & _ & _ & H4 & H5 & H6 & _ & H8).
      * lia.
      * vm_compute. reflexivity.
      * vm_compute. reflexivity.
      * vm_compute. reflexivity.
      * eexists h1, _, h2, h3, stb'. eauto.
Defined.

(** A local state at location 7 whose phiRatio has been set to a NaN. *)
Definition nan_state : M unit :=
  s ← NewState (H:=ex_externals) [key1; key2] 100 true;
  _ ← RequestChange (H:=ex_externals) s StateChangePhiRatio
        (PFloat32 0x7fc00000);
  mret tt.

(** X1, at a concrete input: the state is not Equal to itself. *)
Lemma Equal_NaN_phiRatio_witness :
  Equal 7 7 (store_after nan_state) = Some (Some ErrStateConfigNotEqual).
Proof.
  eapply (Equal_NaN_phiRatio 7 7 _ _ (store_after nan_state)).
  - vm_compute. reflexivity.
  - vm_compute. reflexivity.
  - left. vm_compute. reflexivity.
Defined.

(** Two states, at locations 7 and 14, that differ in lambda and in the
    node set. *)
Definition first_state : M loc :=
  NewState (H:=ex_externals) [key1; key2] 100 true.

Definition two_states : M unit :=
  a ← first_state;
  b ← NewState (H:=ex_externals) [key1] 50 true;
  mret tt.

Lemma two_states_wf :
  ∃ sta stb,
    getState 7 (store_after two_states) = Some sta
    ∧ getState 14 (store_after two_states) = Some stb
    ∧ wf 7 sta (newContent (H:=ex_externals) [key1; key2])
        (store_after two_states)
    ∧ wf 14 stb (newContent (H:=ex_externals) [key1]) (store_after two_states)
    ∧ disjoint 7 sta (newContent (H:=ex_externals) [key1; key2])
        14 stb (newContent (H:=ex_externals) [key1])
    ∧ State.pendingChangedConfigs sta ≠ State.pendingChangedConfigs stb.
Proof.
  apply (two_new_states (H:=ex_externals) [key1; key2] 100 true
           [key1] 50 true ∅ 7 (store_after first_state)).
  - vm_compute. reflexivity.
  - vm_compute. reflexivity.
Defined.

(** X2, at a concrete input. *)
Lemma Equal_first_difference_witness :
  ∃ sta stb,
    Equal 7 14 (store_after two_states)
    = Some (EqualAbs
              (view_of sta (newContent (H:=ex_externals) [key1; key2])
                 (store_after two_states))
              (view_of stb (newContent (H:=ex_externals) [key1])
                 (store_after two_states))).
Proof.
  destruct two_states_wf as (sta & stb & _ & _ & Ha & Hb & _ & Hne).
  exists sta, stb. exact (Equal_first_difference _ _ _ _ _ _ _ Ha Hb Hne).
Defined.

(** X3, at a concrete input. *)
Lemma Equal_symmetric_witness :
  Equal 7 14 (store_after two_states) = Equal 14 7 (store_after two_states).
Proof.
  destruct two_states_wf as (sta & stb & _ & _ & Ha & Hb & _ & Hne).
  exact (Equal_symmetric _ _ _ _ _ _ _ Ha Hb Hne).
Defined.

(** X4, at a concrete input: past the end of the genesis chain the CRS is
    the zero hash. *)
Lemma CRS_bounds_witness :
  CRS 7 5 (store_after first_state) = Some 0%Z.
Proof.
  etrans.
  - eapply (CRS_bounds 7 _ _ 5 (store_after first_state)).
    + vm_compute. reflexivity.
    + vm_compute. reflexivity.
    + lia.
  - reflexivity.
Defined.

(** Batches, as the concrete codec writes them. *)
Definition encode (rs : list (Z * payload crsAdditionRequest.t typesDKG.t))
    : bytes :=
  default [] (rlpEncodeRequests (Externals:=ex_externals) rs).

(** A node, a complaint, a CRS for round 1 and two configuration
    changes. *)
Definition mixed_batch : bytes :=
  encode [(StateChangeNumChains, PUint32 9);
          (StateAddNode, PBytes [x03]);
          (StateAddDKGComplaint, PDKG Complaint complaint);
          (StateAddDKGFinal, PDKG Finalize final);
          (StateAddCRS, PCRS {| crsAdditionRequest.Round := 1;
                                crsAdditionRequest.CRS := 99 |});
          (StateChangeK, PUint64 3)].

(** Two CRS for round 1: the second one is rejected. *)
Definition conflicting_batch : bytes :=
  encode [(StateAddCRS, PCRS {| crsAdditionRequest.Round := 1;
                                crsAdditionRequest.CRS := 5 |});
          (StateAddCRS, PCRS {| crsAdditionRequest.Round := 1;
                                crsAdditionRequest.CRS := 6 |});
          (StateChangeK, PUint64 3)].

Lemma first_state_wf st :
  getState 7 (store_after first_state) = Some st →
  wf 7 st (newContent (H:=ex_externals) [key1; key2])
    (store_after first_state).
Proof.
  intros Hst.
  destruct (NewState_wf_run (H:=ex_externals) [key1; key2] 100 true ∅ 7
              (store_after first_state)) as (st' & Hst' & Hwf & _);
    [vm_compute; reflexivity|].
  rewrite Hst in Hst'. by injection Hst' as <-.
Defined.

(** X5, at a concrete input. *)
Lemma Apply_wellformed_witness :
  ∃ e h' st' c',
    Apply (H:=ex_externals) 7 mixed_batch (store_after first_state)
    = Some (e, h')
    ∧ wf 7 st' c' h'.
Proof.
  destruct (getState 7 (store_after first_state)) as [st|] eqn:Hst;
    [|by vm_compute in Hst].
  destruct (Apply_wellformed (H:=ex_externals) 7 st _
              (store_after first_state) mixed_batch (first_state_wf st Hst))
    as (e & h' & st' & c' & Happ & Hwf & _).
  exists e, h', st', c'. exact (conj Happ Hwf).
Defined.

(** X6, at a concrete input: the state at 14 after Apply on the state
    at 7. *)
Definition applied_to_first : M unit :=
  _ ← two_states;
  _ ← Apply (H:=ex_externals) 7 mixed_batch;
  mret tt.

Lemma Apply_leaves_other_states_witness :
  ∃ stb,
    wf 14 stb (newContent (H:=ex_externals) [key1])
      (store_after applied_to_first)
    ∧ view_of stb (newContent (H:=ex_externals) [key1])
        (store_after applied_to_first)
      = view_of stb (newContent (H:=ex_externals) [key1])
          (store_after two_states).
Proof.
  destruct two_states_wf as (sta & stb & _ & _ & Ha & Hb & Hdis & _).
  exists stb.
  assert (Apply (H:=ex_externals) 7 mixed_batch (store_after two_states)
          = Some (None, store_after applied_to_first)) as Happ
    by (vm_compute; reflexivity).
  destruct (Apply_leaves_other_states (H:=ex_externals) 7 sta _ 14 stb _
              (store_after two_states) mixed_batch None
              (store_after applied_to_first) Ha Hb Hdis Happ)
    as (Hwf & Hview & _).
  exact (conj Hwf Hview).
Defined.

(** X7, at a concrete input: the first CRS for round 1 is applied, the
    second one is rejected, and k is not changed. *)
Lemma Apply_stops_at_first_failure_witness :
  ∃ h' st',
    Apply (H:=ex_externals) 7 conflicting_batch (store_after first_state)
    = Some (Some ErrDuplicatedChange, h')
    ∧ getState 7 h' = Some st'
    ∧ State.k st' = 0%Z
    ∧ CRS 7 1 h' = Some 5%Z.
Proof.
  destruct (getState 7 (store_after first_state)) as [st|] eqn:Hst;
    [|by vm_compute in Hst].
  edestruct (Apply_stops_at_first_failure (H:=ex_externals) 7 st)
    with (c := newContent (H:=ex_externals) [key1; key2])
         (h := store_after first_state) (bs := conflicting_batch)
         (pre := [(StateAddCRS,
                   PCRS (D:=typesDKG.t)
                     {| crsAdditionRequest.Round := 1;
                        crsAdditionRequest.CRS := 5 |})])
         (t := StateAddCRS)
         (rv := PCRS (D:=typesDKG.t)
                  {| crsAdditionRequest.Round := 1;
                     crsAdditionRequest.CRS := 6 |})
         (post := [(StateChangeK,
                    PUint64 (C:=crsAdditionRequest.t) (D:=typesDKG.t) 3)])
    as (h' & st' & c' & Happ & _).
  - by apply first_state_wf.
  - vm_compute. reflexivity.
  - vm_compute. reflexivity.
  - reflexivity.
  - reflexivity.
  - vm_compute in Happ. injection Happ as <-.
    eexists _, _. split; [reflexivity|]. repeat split; vm_compute; reflexivity.
Defined.

(** X8, at a concrete input: two states made from the same genesis. *)
Definition twin_states : M unit :=
  a ← first_state;
  b ← NewState (H:=ex_externals) [key1; key2] 100 true;
  mret tt.

Lemma Apply_same_batch_witness :
  ∃ e h1 h2,
    Apply (H:=ex_externals) 7 mixed_batch (store_after twin_states)
    = Some (e, h1)
    ∧ Apply (H:=ex_externals) 14 mixed_batch h1 = Some (e, h2)
    ∧ Equal 7 14 h2 = Some None.
Proof.
  destruct (two_new_states (H:=ex_externals) [key1; key2] 100 true
              [key1; key2] 100 true ∅ 7 (store_after first_state) 14
              (store_after twin_states))
    as (sta & stb & Hsta & _ & Ha & Hb & Hdis & _);
    [vm_compute; reflexivity..|].
  destruct (Apply_same_batch (H:=ex_externals) 7 sta _ 14 stb _
              (store_after twin_states) mixed_batch Ha Hb Hdis)
    as (e & h1 & h2 & H1 & H2 & H3); [vm_compute; reflexivity|].
  exists e, h1, h2. split; [exact H1|]. split; [exact H2|].
  vm_compute in H1. injection H1 as <- <-.
  vm_compute in H2. injection H2 as <-.
  eapply H3.
  - vm_compute. reflexivity.
  - vm_compute. reflexivity.
Defined.

(** X11, at a concrete input: k = -5 goes through uint64 and comes back
    in the Snapshot. *)
Lemma RequestChange_local_config_witness :
  ∃ h' cfg nodes,
    RequestChange (H:=ex_externals) 7 StateChangeK (PInt (-5))
      (store_after first_state) = Some (None, h')
    ∧ Snapshot (H0:=ex_range) 7 h' = Some (cfg, nodes)
    ∧ Config.K cfg = (-5)%Z.
Proof.
  edestruct (RequestChange_local_config (H:=ex_externals) (H0:=ex_range) 7)
    with (t := StateChangeK) (v := PInt (C:=loc) (D:=loc) (-5))
         (h := store_after first_state) as [H1 H2].
  - vm_compute. reflexivity.
  - reflexivity.
  - vm_compute. reflexivity.
  - reflexivity.
  - eexists _, _, _. split; [exact H1|]. split; [exact H2|]. reflexivity.
Defined.

(** X12, at a concrete input: a node added on a local state. *)
Lemma RequestChange_local_applies_witness :
  ∃ h' st' c',
    RequestChange (H:=ex_externals) 7 StateAddNode (PPublicKey key2)
      (store_after first_state) = Some (None, h')
    ∧ wf 7 st' c' h'.
Proof.
  destruct (getState 7 (store_after first_state)) as [st|] eqn:Hst;
    [|by vm_compute in Hst].
  pose proof (RequestChange_local_applies (H:=ex_externals) 7 st _
                (store_after first_state) StateAddNode (PPublicKey key2)
                (PBytes [x03]) (PBytes [x03]) None
                (first_state_wf st Hst)) as Hw.
  destruct Hw as (h' & st' & c' & Heq & Hwf & _).
  - vm_compute in Hst. by injection Hst as <-.
  - reflexivity.
  - reflexivity.
  - vm_compute. reflexivity.
  - exists h', st', c'. exact (conj Heq Hwf).
Defined.

(** The state at 7 and a final of proposer 5 for round 2 at 8. *)
Definition state_and_final : M unit :=
  _ ← first_state;
  _ ← alloc (ODKG Finalize final);
  mret tt.

(** X13, at a concrete input: the first final for round 2 takes the
    count from 0 to 1. *)
Lemma IsDKGFinal_after_final_witness :
  ∃ h',
    RequestChange (H:=ex_externals) 7 StateAddDKGFinal (PDKG Finalize 8%positive)
      (store_after state_and_final) = Some (None, h')
    ∧ IsDKGFinal 7 2 0 (store_after state_and_final) = Some false
    ∧ IsDKGFinal 7 2 0 h' = Some true.
Proof.
  destruct (getState 7 (store_after first_state)) as [st|] eqn:Hst;
    [|by vm_compute in Hst].
  assert (wf 7 st (newContent (H:=ex_externals) [key1; key2])
            (store_after state_and_final)) as Hwf.
  { eapply wf_extends; [exact (first_state_wf st Hst)|].
    apply (alloc_extends (ODKG Finalize final) (store_after first_state)). }
  destruct (IsDKGFinal_after_final (H:=ex_externals) 7 st _
              (store_after state_and_final) 8 final Hwf)
    as (h' & Heq & Hcount & _).
  - vm_compute in Hst. by injection Hst as <-.
  - vm_compute. reflexivity.
  - exists h'. split; [exact Heq|]. exact (Hcount 0%Z).
Defined.

End Examples.
